(** * gophermon: trainer workers and location providers

    A shallow embedding of package gophermon: the honeycomb generator, the
    three location providers, the altitude enrichment, and the per-account
    scan loop [Hunt] of trainer.go. Package mapsql, the scan store, is a
    collaborator here: [Hunt] calls its [AddScannedLocation], and that call
    is an event below.

    Conventions.
    - Go's [int] is a 64-bit integer, modelled in [Z]; [float64] is the
      kernel's binary64 float.
    - A run-time panic (index or slice out of range) is the [Panic] result.
    - Calls that leave the package (the session, the channels, the clock,
      the logger, HTTP, the scan store) are events of a finite interaction
      tree; an environment answers them and the run records a trace. *)

From Stdlib Require Import ZArith Lia Bool String.
From Stdlib Require Import Floats.PrimFloat Floats.FloatOps Floats.SpecFloat.
From Stdlib Require Import Floats.FloatAxioms.
From Stdlib Require Uint63.
From stdpp Require Import base list.

Open Scope Z_scope.

(** ** The Go run time *)

Module Go.

Definition float64 := float.
Bind Scope float_scope with float64.

Definition min_int : Z := -9223372036854775808.
Definition max_int : Z := 9223372036854775807.

(** A value or a run-time panic. *)
Inductive result (A : Type) : Type :=
| Ok (a : A)
| Panic.
Arguments Ok {A} a.
Arguments Panic {A}.

(** [len(l)] *)
Definition len {A} (l : list A) : Z := Z.of_nat (length l).

(** [l[i]]: panics out of range. *)
Definition index {A} (l : list A) (i : Z) : option A :=
  if (0 <=? i) && (i <? len l) then l !! Z.to_nat i else None.

(** [l[i] = x]: panics out of range. *)
Definition store {A} (l : list A) (i : Z) (x : A) : option (list A) :=
  if (0 <=? i) && (i <? len l) then Some (<[Z.to_nat i := x]> l) else None.

(** [l[lo:hi]]: panics unless [0 <= lo <= hi <= len(l)] (the slices sliced
    here have their capacity equal to their length). *)
Definition slice {A} (l : list A) (lo hi : Z) : option (list A) :=
  if (0 <=? lo) && (lo <=? hi) && (hi <=? len l)
  then Some (take (Z.to_nat (hi - lo)) (drop (Z.to_nat lo) l))
  else None.

(** [for i := lo; i < hi; i++ { s = body(i, s) }]; [n] counts the rounds left. *)
Fixpoint for_steps {St} (n : nat) (i : Z) (body : Z -> St -> St) (s : St) : St :=
  match n with
  | O => s
  | S n' => for_steps n' (i + 1) body (body i s)
  end.

Definition for_range {St} (lo hi : Z) (body : Z -> St -> St) (s : St) : St :=
  for_steps (Z.to_nat (hi - lo)) lo body s.

(** [a + b] and [a * b] on [int] (and on [time.Duration], an [int64]): they
    wrap around. *)
Definition wrap (z : Z) : Z := (z - min_int) mod 2 ^ 64 + min_int.
Definition add (a b : Z) : Z := wrap (a + b).
Definition mul (a b : Z) : Z := wrap (a * b).

(** [float64(z)] for an [int] [z]: the nearest binary64. *)
Definition float64_of_int (z : Z) : float64 :=
  if z <? 0
  then (- of_uint63 (Uint63.of_Z (- z)))%float
  else of_uint63 (Uint63.of_Z z).

(** [math.Ceil]: the least integral value not below [x]; zeros, infinities
    and NaN are returned as they are, and a value in (-1, 0) gives -0. *)
Definition Ceil (x : float64) : float64 :=
  match Prim2SF x with
  | S754_finite s m e =>
      if 0 <=? e then x
      else
        let q := if s then - Z.shiftr (Z.pos m) (- e)
                 else - Z.shiftr (- Z.pos m) (- e) in
        if q =? 0 then (if s then (-0)%float else 0%float)
        else float64_of_int q
  | _ => x
  end.

(** [int(x)] for a [float64] [x]: the fraction is discarded. The language
    leaves the result open when the value does not fit; amd64 gives the
    least [int] then, and so does this model. *)
Definition int_of_float64 (x : float64) : Z :=
  match Prim2SF x with
  | S754_zero _ => 0
  | S754_finite s m e =>
      let v := if 0 <=? e then Z.shiftl (Z.pos m) e
               else Z.shiftr (Z.pos m) (- e) in
      let v := if s then - v else v in
      if (min_int <=? v) && (v <=? max_int) then v else min_int
  | _ => min_int
  end.

End Go.

Import Go.

(** ** Types of other packages *)

Module api.

Record Location : Type := mkLocation {
  Lat : float64;
  Lon : float64;
  Alt : float64;
  Accuracy : float64
}.

End api.

Import api.

(** What this package only passes around: Go's [error] values, compared by
    identity, with pgoapi's [ErrNewRPCURL] among them; the session, the
    response of a map-objects call and the other handles of pgoapi; an HTTP
    response and its body; and [fmt]'s rendering of a [float64] under the
    verb [%f]. *)
Class Foreign : Type := {
  error : Type;
  error_eq_dec :: EqDecision error;
  ErrNewRPCURL : error;
  api_Session : Type;
  auth_Provider : Type;
  api_Feed : Type;
  api_Crypto : Type;
  context_Context : Type;
  protos_GetMapObjectsResponse : Type;
  http_Response : Type;
  HttpBody : Type;
  Sprintf_f : float64 -> string;
  emptySession : api_Session; (* [&api.Session{}] *)
  Background : context_Context       (* [context.Background()] *)
}.

Module mapsql.

Record DbConnection : Type := mkDbConnection {
  Username : string;
  Password : string;
  Host : string;
  Port : Z;
  Database : string
}.

End mapsql.

Module time.

(** A [time.Duration] counts nanoseconds. *)
Definition Second : Z := 1000000000.

End time.


(** golang-geo, as far as this package calls it. A point is a pair of a
    latitude and a longitude; distances are in kilometres. *)
Class GeoLibrary : Type := {
  PointAtDistanceAndBearing : float64 * float64 -> float64 -> float64 -> float64 * float64;
  GreatCircleDistance : float64 * float64 -> float64 * float64 -> float64;
  Contains : list (float64 * float64) -> float64 * float64 -> bool
}.

(** math/rand's shared source: [Intn g n] draws from [0, n). *)
Class RandSource : Type := {
  Rand : Type;
  Intn : Rand -> Z -> Z * Rand;
  Intn_range : forall g n, 0 < n -> 0 <= fst (Intn g n) < n
}.

(** ** Location providers: geometry *)

Definition NORTH : float64 := 0%float.
Definition EAST : float64 := 90%float.
Definition SOUTH : float64 := 180%float.
Definition WEST : float64 := 270%float.

Definition newLocation `{GeoLibrary} (location : api.Location) (dist bearing : float64)
  : api.Location :=
  let point :=
    PointAtDistanceAndBearing (Lat location, Lon location) (dist / 1000)%float bearing in
  {| Lat := fst point; Lon := snd point;
     Alt := Alt location; Accuracy := Accuracy location |}.

(** The loop state of [generateHoneyComb]: [currentLocation] and [locations]. *)
Definition comb : Type := Location * list Location.

(** [currentLocation = newLocation(currentLocation, dist, bearing)] *)
Definition move `{GeoLibrary} (dist bearing : float64) (st : comb) : comb :=
  (newLocation (fst st) dist bearing, snd st).

(** [locations = append(locations, currentLocation)] *)
Definition emit (st : comb) : comb := (fst st, snd st ++ [fst st]).

(** [st'] holds the locations of [st] and [k] more. *)
Definition grows (k : nat) (st st' : comb) : Prop :=
  exists seg, snd st' = snd st ++ seg /\ length seg = k.

(** [rings := int(math.Ceil(radius / dx))] *)
Definition ringCount (radius distance : float64) : Z :=
  let dx := (sqrt 3 * distance)%float in
  int_of_float64 (Ceil (radius / dx)%float).

(** One round of the outer loop of [generateHoneyComb]. *)
Definition ringWalk `{GeoLibrary} (dx dy : float64) (ring : Z) (st : comb) : comb :=
  (* Move 1 to right *)
  let st := move dx EAST st in
  (* top right *)
  let st := for_range 0 ring (fun _ st => emit (move (dx / 2)%float WEST (move dy NORTH st))) st in
  (* top *)
  let st := for_range 0 ring (fun _ st => emit (move dx WEST st)) st in
  (* top left *)
  let st := for_range 0 ring (fun _ st => emit (move dy SOUTH (move (dx / 2)%float WEST st))) st in
  (* bottom left *)
  let st := for_range 0 ring (fun _ st => emit (move (dx / 2)%float EAST (move dy SOUTH st))) st in
  (* bottom *)
  let st := for_range 0 ring (fun _ st => emit (move dx EAST st)) st in
  (* bottom right *)
  for_range 0 ring (fun _ st => emit (move dy NORTH (move (dx / 2)%float EAST st))) st.

Definition generateHoneyComb `{GeoLibrary} (center : Location) (radius distance : float64)
  : list Location :=
  let dx := (sqrt 3 * distance)%float in  (* distance between column centers *)
  let dy := (3 * (distance / 2))%float in (* distance between row centers *)
  let rings := ringCount radius distance in
  snd (for_range 1 rings (ringWalk dx dy) (center, [])).

(** ** Finite interaction trees

    A call that leaves the package is an event [e : E X] answered by a value
    of [X]. Every function below that makes such calls does finitely many of
    them, so its tree is an inductive one. *)

Inductive prog (E : Type -> Type) (R : Type) : Type :=
| Ret (r : R)
| Vis {X : Type} (e : E X) (k : X -> prog E R).
Arguments Ret {E R} r.
Arguments Vis {E R X} e k.

Fixpoint bind {E R T} (p : prog E R) (f : R -> prog E T) : prog E T :=
  match p with
  | Ret r => f r
  | Vis e k => Vis e (fun x => bind (k x) f)
  end.

Definition trigger {E X} (e : E X) : prog E X := Vis e Ret.

Declare Scope prog_scope.
Delimit Scope prog_scope with prog.
Notation "x <- p ;; q" := (bind p (fun x => q))
  (at level 100, p at next level, right associativity) : prog_scope.
Notation "p ;; q" := (bind p (fun _ => q))
  (at level 100, right associativity) : prog_scope.
Open Scope prog_scope.

(** An observed call: the event and the answer it got. *)
Inductive obs (E : Type -> Type) : Type :=
| Obs {X : Type} (e : E X) (x : X).
Arguments Obs {E X} e x.

(** An environment: a state and the answer it gives to each event. *)
Definition handler (E : Type -> Type) (W : Type) : Type :=
  forall X, E X -> W -> X * W.

(** Running a tree against an environment: the trace, the result and the
    environment's final state. *)
Fixpoint run {E R W} (h : handler E W) (p : prog E R) (w : W) : list (obs E) * R * W :=
  match p with
  | Ret r => ([], r, w)
  | Vis e k =>
      let '(x, w1) := h _ e w in
      let '(tr, r, w2) := run h (k x) w1 in
      (Obs e x :: tr, r, w2)
  end.

Definition trace_of {E R W} (x : list (obs E) * R * W) : list (obs E) := fst (fst x).
Definition result_of {E R W} (x : list (obs E) * R * W) : R := snd (fst x).
Definition world_of {E R W} (x : list (obs E) * R * W) : W := snd x.

(** ** Location providers: altitudes *)

Definition ElevationApiURL : string :=
  "https://maps.googleapis.com/maps/api/elevation/json".

Module ElevationApiResult.
Record t : Type := mk {
  Elevation : float64;
  Location : api.Location;
  Resolution : float64
}.
End ElevationApiResult.

Module ElevationApiResults.
Record t : Type := mk {
  Results : list ElevationApiResult.t;
  Status : string
}.
End ElevationApiResults.

(** The calls [GetAltitude] makes: [http.Get], [ioutil.ReadAll] on the
    response's body, [json.Unmarshal] into an [ElevationApiResults], and the
    deferred [resp.Body.Close]. *)
Inductive HttpE `{Foreign} : Type -> Type :=
| HttpGet (requestURL : string) : HttpE (http_Response + error)
| ReadAll (resp : http_Response) : HttpE (HttpBody + error)
| Unmarshal (body : HttpBody) : HttpE (ElevationApiResults.t + error)
| BodyClose (resp : http_Response) : HttpE unit.

Definition rateLimit : Z := 405.

(** [int(math.Ceil(float64(len(locations)) / float64(rateLimit)))] *)
Definition numRequests (n : Z) : Z :=
  int_of_float64 (Ceil (float64_of_int n / float64_of_int rateLimit)%float).

(** [fmt.Sprintf("%f,%f", llp.Lat, llp.Lon)] *)
Definition latLngPair `{Foreign} (llp : Location) : string :=
  (Sprintf_f (Lat llp) ++ "," ++ Sprintf_f (Lon llp))%string.

(** [fmt.Sprintf("%s?locations=%s&key=%s", ElevationApiURL, strings.Join(batch, "|"), key)] *)
Definition requestURL (batch : list string) (key : string) : string :=
  (ElevationApiURL ++ "?locations=" ++ String.concat "|" batch ++ "&key=" ++ key)%string.

(** [for j, e := range results { elevations[j+base] = e.Elevation }] *)
Fixpoint storeElevations (results : list ElevationApiResult.t) (j base : Z)
    (elevations : list float64) : option (list float64) :=
  match results with
  | [] => Some elevations
  | e :: rest =>
      match store elevations (j + base) (ElevationApiResult.Elevation e) with
      | Some elevations => storeElevations rest (j + 1) base elevations
      | None => None
      end
  end.

(** Leaving [GetAltitude]: the deferred closes run, last deferred first. *)
Fixpoint leave `{Foreign} {R} (deferred : list http_Response) (r : R) : prog HttpE R :=
  match deferred with
  | [] => Ret r
  | resp :: rest => trigger (BodyClose resp);; leave rest r
  end.

(** The request loop of [GetAltitude] from round [i] on; [n] counts the
    rounds left, [deferred] the closes deferred so far. *)
Fixpoint requestLoop `{Foreign} (n : nat) (i : Z) (latLngPairs : list string) (key : string)
    (elevations : list float64) (deferred : list http_Response)
  : prog HttpE (result (list float64 * option error)) :=
  match n with
  | O => leave deferred (Ok (elevations, None))
  | S n' =>
      let upper := i * rateLimit + rateLimit in
      let upper := if upper >? len latLngPairs then len latLngPairs else upper in
      match slice latLngPairs (i * rateLimit) upper with
      | None => leave deferred Panic
      | Some batch =>
          r <- trigger (HttpGet (requestURL batch key));;
          match r with
          | inr err => leave deferred (Ok (elevations, Some err))
          | inl resp =>
              let deferred := resp :: deferred in
              (* Read response *)
              r <- trigger (ReadAll resp);;
              match r with
              | inr err => leave deferred (Ok (elevations, Some err))
              | inl body =>
                  (* Parse response *)
                  r <- trigger (Unmarshal body);;
                  match r with
                  | inr err => leave deferred (Ok (elevations, Some err))
                  | inl response =>
                      match storeElevations (ElevationApiResults.Results response) 0
                              (rateLimit * i) elevations with
                      | None => leave deferred Panic
                      | Some elevations =>
                          requestLoop n' (i + 1) latLngPairs key elevations deferred
                      end
                  end
              end
          end
      end
  end.

(** GetAltitude uses Googles elevation API to get the altitude for a given
    slice of api.Location. *)
Definition GetAltitude `{Foreign} (locations : list Location) (key : string)
  : prog HttpE (result (list float64 * option error)) :=
  let latLngPairs := map latLngPair locations in
  let elevations := replicate (length locations) 0%float in
  requestLoop (Z.to_nat (numRequests (len locations))) 0 latLngPairs key elevations [].

(** [for i, e := range elevations { locations[i].Alt = e }] *)
Fixpoint setAlts (elevations : list float64) (i : Z) (locations : list Location)
  : option (list Location) :=
  match elevations with
  | [] => Some locations
  | e :: rest =>
      match index locations i with
      | Some l =>
          match store locations i
                  {| Lat := Lat l; Lon := Lon l; Alt := e; Accuracy := Accuracy l |} with
          | Some locations => setAlts rest (i + 1) locations
          | None => None
          end
      | None => None
      end
  end.

(** SetCorrectAltitudes uses GetAltitude to set the correct altitude for a
    slice of api.Location. The locations are written in place: the result
    carries them as they stand when the call returns. *)
Definition SetCorrectAltitudes `{Foreign} (locations : list Location) (key : string)
  : prog HttpE (result (list Location * option error)) :=
  r <- GetAltitude locations key;;
  match r with
  | Panic => Ret Panic
  | Ok (elevations, Some err) => Ret (Ok (locations, Some err))
  | Ok (elevations, None) =>
      match setAlts elevations 0 locations with
      | Some locations => Ret (Ok (locations, None))
      | None => Ret Panic
      end
  end.

(** ** Location providers: the three providers *)

Definition choices : list float64 := [5; 5; 5; 10; 10; 30; 50; 65]%float.

(** The location is written in place; the result is its new content. *)
Definition setRandomAccuracy `{RandSource} (location : Location) (g : Rand)
  : result (Location * Rand) :=
  let (i, g) := Intn g (len choices) in
  match index choices i with
  | Some a => Ok ({| Lat := Lat location; Lon := Lon location; Alt := Alt location;
                     Accuracy := a |}, g)
  | None => Panic
  end.

(** LocationProvider is a common interface for continuously providing
    locations. A call of [NextLocation] gives the provider as it is left, the
    location returned and the random source as it is left. *)
Class LocationProvider `{RandSource} (P : Type) : Type := {
  NextLocation : P -> Rand -> result (P * Location * Rand);
  GetLocations : P -> list Location
}.

(** DefaultLocationProvider contains and returns only one api.Location. The
    provider holds a pointer: [StartLocation] is the location pointed to. *)
Module DefaultLocationProvider.

Record t : Type := mk { StartLocation : Location }.

Definition GetLocations (d : t) : list Location := [StartLocation d].

Definition NextLocation `{RandSource} (d : t) (g : Rand) : result (t * Location * Rand) :=
  match setRandomAccuracy (StartLocation d) g with
  | Ok (l, g) => Ok ({| StartLocation := l |}, l, g)
  | Panic => Panic
  end.

End DefaultLocationProvider.

(** HoneyCombProvider provides api.Locations around a center point in a
    honeycomb like pattern. *)
Module HoneyCombProvider.

Record t : Type := mk {
  CenterLocation : Location;
  Locations : list Location;
  CurrentStep : Z;
  Radius : float64 (* In meters *)
}.

Definition GetLocations (h : t) : list Location := Locations h.

Definition NextLocation `{RandSource} (h : t) (g : Rand) : result (t * Location * Rand) :=
  let step := Go.add (CurrentStep h) 1 in
  let step := if step >=? len (Locations h) then 0 else step in
  match index (Locations h) step with
  | None => Panic
  | Some l =>
      match setRandomAccuracy l g with
      | Panic => Panic
      | Ok (l, g) =>
          Ok ({| CenterLocation := CenterLocation h;
                 Locations := <[Z.to_nat step := l]> (Locations h);
                 CurrentStep := step;
                 Radius := Radius h |}, l, g)
      end
  end.

End HoneyCombProvider.

(** NewHoneyCombProvider creates a new HoneyCombProvider. *)
Definition NewHoneyCombProvider `{GeoLibrary} (center : Location) (radius distance : float64)
  : HoneyCombProvider.t :=
  (* Init empty HoneyCombProvider *)
  let h := {| HoneyCombProvider.CenterLocation := center;
              HoneyCombProvider.Locations := [];
              HoneyCombProvider.CurrentStep := -1;
              HoneyCombProvider.Radius := radius |} in
  (* Generate locations *)
  {| HoneyCombProvider.CenterLocation := HoneyCombProvider.CenterLocation h;
     HoneyCombProvider.Locations :=
       HoneyCombProvider.Locations h ++ generateHoneyComb center radius distance;
     HoneyCombProvider.CurrentStep := HoneyCombProvider.CurrentStep h;
     HoneyCombProvider.Radius := HoneyCombProvider.Radius h |}.

(** PolygonProvider provides api.Locations that lie within a polygon.
    [Polygon] is a pointer: [None] is nil. *)
Module PolygonProvider.

Record t : Type := mk {
  Polygon : option (list (float64 * float64));
  Locations : list Location;
  currentLocation : Z
}.

(** [PolygonProvider{}] *)
Definition zero : t := {| Polygon := None; Locations := []; currentLocation := 0 |}.

Definition GetLocations (p : t) : list Location := Locations p.

Definition NextLocation `{RandSource} (p : t) (g : Rand) : result (t * Location * Rand) :=
  let cur := Go.add (currentLocation p) 1 in
  let cur := if cur >=? len (Locations p) then 0 else cur in
  match index (Locations p) cur with
  | None => Panic
  | Some l =>
      match setRandomAccuracy l g with
      | Panic => Panic
      | Ok (l, g) =>
          Ok ({| Polygon := Polygon p;
                 Locations := <[Z.to_nat cur := l]> (Locations p);
                 currentLocation := cur |}, l, g)
      end
  end.

End PolygonProvider.

(** The loop over [polygon.Points()] that keeps the largest
    [start.GreatCircleDistance(p)] in [radius]. *)
Definition circumRadius `{GeoLibrary} (start : float64 * float64)
    (points : list (float64 * float64)) : float64 :=
  fold_left (fun radius p =>
               if (radius <? GreatCircleDistance start p)%float
               then GreatCircleDistance start p else radius)
            points 0%float.

(** NewPolygonProvider creates a new PolygonProvider. *)
Definition NewPolygonProvider `{Foreign} `{GeoLibrary} (polyLocations : list Location)
    (gmapsKey : string) : prog HttpE (result (PolygonProvider.t * option error)) :=
  (* Create the polygon *)
  let polyPoints := map (fun p => (Lat p, Lon p)) polyLocations in
  let polygon := polyPoints in (* geo.NewPolygon keeps the points it is given *)
  (* Fill polygon with honeycomb *)
  match index polyPoints 0 with
  | None => Ret Panic
  | Some start =>
      let radius := circumRadius start polygon in
      (* Convert to meters *)
      let radius := (1000 * radius)%float in
      let honey := generateHoneyComb
                     {| Lat := fst start; Lon := snd start;
                        Alt := 0%float; Accuracy := 0%float |}
                     radius 70%float in
      (* Filter honeycomb with polygon *)
      let final := filter (fun h => Is_true (Contains polygon (Lat h, Lon h))) honey in
      (* Set Altitudes *)
      r <- SetCorrectAltitudes final gmapsKey;;
      match r with
      | Panic => Ret Panic
      | Ok (_, Some err) => Ret (Ok (PolygonProvider.zero, Some err))
      | Ok (final, None) =>
          Ret (Ok ({| PolygonProvider.Polygon := Some polygon;
                      PolygonProvider.Locations := final;
                      PolygonProvider.currentLocation := -1 |}, None))
      end
  end.

#[export] Instance DefaultLocationProvider_provider `{RandSource}
  : LocationProvider DefaultLocationProvider.t :=
  {| NextLocation := DefaultLocationProvider.NextLocation;
     GetLocations := DefaultLocationProvider.GetLocations |}.

#[export] Instance HoneyCombProvider_provider `{RandSource}
  : LocationProvider HoneyCombProvider.t :=
  {| NextLocation := HoneyCombProvider.NextLocation;
     GetLocations := HoneyCombProvider.GetLocations |}.

#[export] Instance PolygonProvider_provider `{RandSource}
  : LocationProvider PolygonProvider.t :=
  {| NextLocation := PolygonProvider.NextLocation;
     GetLocations := PolygonProvider.GetLocations |}.

(** ** trainer.go *)

(** TrainerSession is a helper struct that bundles everything one account
    can do together. [Location] and [Session] are pointers: the record holds
    what they point to. *)
Module TrainerSession.

Record t `{Foreign} : Type := mk {
  Provider : string;
  Username : string;
  Password : string;
  Location : api.Location;
  Feed : api_Feed;
  Session : api_Session;
  Context : context_Context;
  Crypto : api_Crypto
}.

Definition setSession `{Foreign} (t : t) (session : api_Session) : TrainerSession.t :=
  {| Provider := Provider t; Username := Username t; Password := Password t;
     Location := Location t; Feed := Feed t; Session := session;
     Context := Context t; Crypto := Crypto t |}.

Definition setLocation `{Foreign} (t : t) (location : api.Location) : TrainerSession.t :=
  {| Provider := Provider t; Username := Username t; Password := Password t;
     Location := location; Feed := Feed t; Session := Session t;
     Context := Context t; Crypto := Crypto t |}.

End TrainerSession.

(** Account contains individual account data. *)
Module Account.

Record t : Type := mk {
  Username : string;
  Password : string;
  Provider : string
}.

End Account.

(** What the worker writes to the log. *)
Inductive LogLine `{Foreign} : Type :=
| AuthTicketExpired (username : string)
| LoginFailed (username : string) (err : error)
| AllLoginAttemptsFailed (username : string)
| FailedToGetNewLocation
| HuntingAt (lat lon : float64) (username : string)
| LogError (err : error).

(** The calls of [Hunt] and of the methods it uses.
    - [Tick]: [<-ticks], one permit of the rate coordinator (the value
      received is dropped);
    - [NewProvider]: [auth.NewProvider];
    - [SessionInit]: [api.NewSession] followed by [session.Init];
    - [IsExpired], [SessionMoveTo], [GetPlayerMap]: methods of the session;
    - [Sleep]: [time.Sleep], the duration in nanoseconds;
    - [RecvLocation d]: the [select] between [<-locations] and
      [<-time.After(d)]; [None] is the timeout;
    - [SendResult]: [results <- r];
    - [AddScannedLocation]: the scan store's method;
    - [Log]: [log.Printf] and [log.Println]. *)
Inductive HuntE `{Foreign} : Type -> Type :=
| Tick : HuntE unit
| NewProvider (provider username password : string) : HuntE (auth_Provider + error)
| SessionInit (provider : auth_Provider) (location : Location) (feed : api_Feed)
    (crypto : api_Crypto) (ctx : context_Context) : HuntE (api_Session + error)
| IsExpired (session : api_Session) : HuntE bool
| Sleep (d : Z) : HuntE unit
| RecvLocation (timeout : Z) : HuntE (option Location)
| SessionMoveTo (session : api_Session) (location : Location) : HuntE unit
| GetPlayerMap (session : api_Session) (ctx : context_Context)
    : HuntE (protos_GetMapObjectsResponse + error)
| SendResult (r : protos_GetMapObjectsResponse) : HuntE unit
| AddScannedLocation (db : mapsql.DbConnection) (latitude longitude : float64)
    : HuntE (option error)
| Log (line : LogLine) : HuntE unit.

(** NewTrainerSession creates a TrainerSession. The new TrainerSession will
    not be logged in yet! *)
Definition NewTrainerSession `{Foreign} (provider username password : string)
    (location : Location) (feed : api_Feed) (crypto : api_Crypto) : TrainerSession.t :=
  let ctx := Background in
  {| TrainerSession.Provider := provider;
     TrainerSession.Username := username;
     TrainerSession.Password := password;
     TrainerSession.Location := location;
     TrainerSession.Feed := feed;
     TrainerSession.Session := emptySession;
     TrainerSession.Context := ctx;
     TrainerSession.Crypto := crypto |}.

(** Login initializes a (new) session. This can be used to login again,
    after the session is expired. *)
Definition Login `{Foreign} (t : TrainerSession.t)
  : prog HuntE (TrainerSession.t * option error) :=
  r <- trigger (NewProvider (TrainerSession.Provider t) (TrainerSession.Username t)
                            (TrainerSession.Password t));;
  match r with
  | inr err => Ret (t, Some err)
  | inl provider =>
      r <- trigger (SessionInit provider (TrainerSession.Location t) (TrainerSession.Feed t)
                                (TrainerSession.Crypto t) (TrainerSession.Context t));;
      match r with
      | inr err => Ret (t, Some err)
      | inl session => Ret (TrainerSession.setSession t session, None)
      end
  end.

(** LoadTrainers creates TrainerSessions for a slice of Accounts *)
Definition LoadTrainers `{Foreign} (accounts : list Account.t) (feed : api_Feed)
    (crypto : api_Crypto) (startLocation : Location) : list TrainerSession.t :=
  fold_left (fun trainers a =>
               trainers ++ [NewTrainerSession (Account.Provider a) (Account.Username a)
                                              (Account.Password a) startLocation feed crypto])
            accounts [].

Definition MoveTo `{Foreign} (t : TrainerSession.t) (location : Location)
  : prog HuntE TrainerSession.t :=
  let t := TrainerSession.setLocation t location in
  trigger (SessionMoveTo (TrainerSession.Session t) location);;
  Ret t.

(** [for i := lo; i < hi; i++ { ... }] with a body that may [break]: the
    body gives the state and whether it broke out; [n] counts the rounds
    left. *)
Fixpoint for_break {E St} (n : nat) (i : Z) (body : Z -> St -> prog E (St * bool)) (s : St)
  : prog E St :=
  match n with
  | O => Ret s
  | S n' =>
      r <- body i s;;
      if snd r then Ret (fst r) else for_break n' (Go.add i 1) body (fst r)
  end.

(** One round of the re-login loop of [Hunt]. *)
Definition loginAttempt `{Foreign} (i : Z) (t : TrainerSession.t)
  : prog HuntE (TrainerSession.t * bool) :=
  trigger Tick;;
  r <- Login t;;
  match snd r with
  | Some err =>
      trigger (Log (LoginFailed (TrainerSession.Username (fst r)) err));;
      trigger (Sleep (Go.mul i 10));;
      Ret (fst r, false)
  | None => Ret (fst r, true) (* break *)
  end.

(** [for i := 0; i < 5; i++ { ... }] *)
Definition relogin `{Foreign} (t : TrainerSession.t) : prog HuntE TrainerSession.t :=
  for_break 5 0 loginAttempt t.

(** Check login status: [None] when [Hunt] returns. *)
Definition checkLogin `{Foreign} (t : TrainerSession.t)
  : prog HuntE (option TrainerSession.t) :=
  expired <- trigger (IsExpired (TrainerSession.Session t));;
  if expired : bool then
    trigger (Log (AuthTicketExpired (TrainerSession.Username t)));;
    t <- relogin t;;
    (* Abandon hunt if all retries failed *)
    expired <- trigger (IsExpired (TrainerSession.Session t));;
    if expired : bool then
      trigger (Log (AllLoginAttemptsFailed (TrainerSession.Username t)));;
      Ret None
    else Ret (Some t)
  else Ret (Some t).

(** The closure [f] of [Hunt]: requesting map objects. *)
Definition requestMapObjects `{Foreign} (db : mapsql.DbConnection) (t : TrainerSession.t)
  : prog HuntE (option error) :=
  r <- trigger (GetPlayerMap (TrainerSession.Session t) (TrainerSession.Context t));;
  match r with
  | inl r =>
      trigger (SendResult r);;
      err <- trigger (AddScannedLocation db (Lat (TrainerSession.Location t))
                                         (Lon (TrainerSession.Location t)));;
      match err with
      | Some err => Ret (Some err)
      | None => Ret None
      end
  | inr err => Ret (Some err)
  end.

(** The scan of one round: the call of [f], the retry and the log. *)
Definition scan `{Foreign} (db : mapsql.DbConnection) (t : TrainerSession.t)
  : prog HuntE unit :=
  err <- requestMapObjects db t;;
  (* Retry after receiving new API URL *)
  err <- match err with
         | Some e =>
             if decide (e = ErrNewRPCURL) then
               (* Need to wait before retry *)
               trigger Tick;;
               requestMapObjects db t
             else Ret err
         | None => Ret err
         end;;
  match err with
  | Some e => trigger (Log (LogError e))
  | None => Ret tt
  end.

(** Wait for the time slot and for a location, then scan there and sleep:
    [None] when [Hunt] returns. *)
Definition huntAt `{Foreign} (ScanDelay : Z) (db : mapsql.DbConnection)
    (t : TrainerSession.t) : prog HuntE (option TrainerSession.t) :=
  (* Wait for your timeslot to shine! *)
  trigger Tick;;
  (* Try to get new location from channel (wait 30s) *)
  l <- trigger (RecvLocation (Go.mul 30 time.Second));;
  match l with
  | None =>
      trigger (Log FailedToGetNewLocation);;
      Ret None
  | Some l =>
      let t := TrainerSession.setLocation t l in
      t <- MoveTo t (TrainerSession.Location t);;
      trigger (Log (HuntingAt (Lat (TrainerSession.Location t))
                              (Lon (TrainerSession.Location t))
                              (TrainerSession.Username t)));;
      scan db t;;
      (* Sleep *)
      trigger (Sleep (Go.mul ScanDelay time.Second));;
      Ret (Some t)
  end.

(** One round of the loop of [Hunt]: [None] when [Hunt] returns. *)
Definition huntRound `{Foreign} (ScanDelay : Z) (db : mapsql.DbConnection)
    (t : TrainerSession.t) : prog HuntE (option TrainerSession.t) :=
  r <- checkLogin t;;
  match r with
  | None => Ret None
  | Some t => huntAt ScanDelay db t
  end.

(** How a bounded run of [Hunt] ends: it returned, or it is still hunting. *)
Inductive outcome `{Foreign} : Type :=
| Returned
| Hunting (t : TrainerSession.t).

(** The loop [for { ... }] of [Hunt], [n] rounds of it. *)
Fixpoint huntLoop `{Foreign} (n : nat) (ScanDelay : Z) (db : mapsql.DbConnection)
    (t : TrainerSession.t) : prog HuntE outcome :=
  match n with
  | O => Ret (Hunting t)
  | S n' =>
      r <- huntRound ScanDelay db t;;
      match r with
      | None => Ret Returned
      | Some t => huntLoop n' ScanDelay db t
      end
  end.

(** Hunt sends the trainer to scan for pokemon: the login, then [n] rounds
    of the loop. The channels are the events [RecvLocation], [SendResult]
    and [Tick]; [ScanDelay] is the package's variable, 10 unless set. *)
Definition Hunt `{Foreign} (n : nat) (ScanDelay : Z) (db : mapsql.DbConnection)
    (t : TrainerSession.t) : prog HuntE outcome :=
  (* Stagger logins, too *)
  trigger Tick;;
  r <- Login t;;
  huntLoop n ScanDelay db (fst r).


(** ** Sequences of calls *)

(** [n] calls of [NextLocation] in a row: the locations they return. *)
Fixpoint nextLocations `{RandSource} {P} `{!LocationProvider P} (n : nat) (p : P) (g : Rand)
  : result (list Location) :=
  match n with
  | O => Ok []
  | S n' =>
      match NextLocation p g with
      | Panic => Panic
      | Ok (p, l, g) =>
          match nextLocations n' p g with
          | Panic => Panic
          | Ok ls => Ok (l :: ls)
          end
      end
  end.

(** ** Stand-ins for the collaborators, for the examples

    The examples below run the code against these; none of the theorems
    depends on them. *)

(** A geometry in which no point moves, every two points are a quarter of a
    kilometre apart and every polygon contains every point. *)
Definition still : GeoLibrary :=
  {| PointAtDistanceAndBearing := fun p _ _ => p;
     GreatCircleDistance := fun _ _ => 0.25%float;
     Contains := fun _ _ => true |}.

(** A random source that counts its draws: draw number [g] is [g] modulo
    the bound. *)
Definition counting : RandSource :=
  {| Rand := Z;
     Intn := fun g n => (g mod n, g + 1);
     Intn_range := fun g n Hn => Z.mod_pos_bound g n Hn |}.

(** Errors, sessions, responses and bodies are numbers ([ErrNewRPCURL] is
    error 0); a float is rendered as nothing. *)
Definition numbered : Foreign :=
  {| error := nat;
     ErrNewRPCURL := 0%nat;
     api_Session := nat;
     auth_Provider := unit;
     api_Feed := unit;
     api_Crypto := unit;
     context_Context := unit;
     protos_GetMapObjectsResponse := nat;
     http_Response := nat;
     HttpBody := nat;
     Sprintf_f := fun _ => EmptyString;
     emptySession := 0%nat;
     Background := tt |}.

Definition origin : Location :=
  {| Lat := 0; Lon := 0; Alt := 0; Accuracy := 0 |}.

(** What [SetCorrectAltitudes] makes of the result of [GetAltitude]. *)
Definition altitudesSet `{Foreign} (locations : list Location)
    (r : result (list float64 * option error)) : result (list Location * option error) :=
  match r with
  | Panic => Panic
  | Ok (_, Some err) => Ok (locations, Some err)
  | Ok (elevations, None) =>
      match setAlts elevations 0 locations with
      | Some locations => Ok (locations, None)
      | None => Panic
      end
  end.

(** The batch of round [k]: at most [rateLimit] pairs, from pair
    [rateLimit * k] on. *)
Definition batchAt (latLngPairs : list string) (k : nat) : list string :=
  take 405 (drop (405 * k) latLngPairs).

(** ** Reading a trace of [GetAltitude] *)

(** The error of a lookup step that failed. *)
Definition lookupFailure `{Foreign} (o : obs HttpE) : option error :=
  match o with
  | Obs e x =>
      match e in HttpE X return X -> option error with
      | HttpGet _ => fun x => match x with inr err => Some err | inl _ => None end
      | ReadAll _ => fun x => match x with inr err => Some err | inl _ => None end
      | Unmarshal _ => fun x => match x with inr err => Some err | inl _ => None end
      | BodyClose _ => fun _ => None
      end x
  end.

(** Some lookup step of the trace failed with [err]. *)
Definition lookupFailed `{Foreign} (tr : list (obs HttpE)) (err : error) : Prop :=
  In (Some err) (map lookupFailure tr).

(** The URLs requested, in order. *)
Definition requested `{Foreign} (tr : list (obs HttpE)) : list string :=
  omap (fun o => match o with
                 | Obs e _ => match e with HttpGet url => Some url | _ => None end
                 end) tr.

(** The results of the responses that were parsed, in order. *)
Definition parsed `{Foreign} (tr : list (obs HttpE)) : list (list ElevationApiResult.t) :=
  omap (fun o => match o with
                 | Obs e x =>
                     match e in HttpE X return X -> option (list ElevationApiResult.t) with
                     | Unmarshal _ => fun x =>
                         match x with
                         | inl response => Some (ElevationApiResults.Results response)
                         | inr _ => None
                         end
                     | _ => fun _ => None
                     end x
                 end) tr.

(** A length of 250 full batches. *)
Definition checkedLen : Z := 101250.

(** An elevation service that is down: every request fails with error 7. *)
Definition down : handler (@HttpE numbered) nat :=
  fun X e w =>
    match e in HttpE X return X * nat with
    | HttpGet _ => (inr 7%nat, S w)
    | ReadAll _ => (inr 7%nat, S w)
    | Unmarshal _ => (inr 7%nat, S w)
    | BodyClose _ => (tt, S w)
    end.

(** An elevation service that answers every request with one result of
    elevation 1 (the response and the body are numbered 0). *)
Definition flat : handler (@HttpE numbered) nat :=
  fun X e w =>
    match e in HttpE X return X * nat with
    | HttpGet _ => (inl 0%nat, S w)
    | ReadAll _ => (inl 0%nat, S w)
    | Unmarshal _ =>
        (inl {| ElevationApiResults.Results :=
                  [ {| ElevationApiResult.Elevation := 1;
                       ElevationApiResult.Location := origin;
                       ElevationApiResult.Resolution := 1 |} ];
                ElevationApiResults.Status := "OK" |}, S w)
    | BodyClose _ => (tt, S w)
    end.

(** ** Reading a trace of [Hunt] *)

Fixpoint countObs {E} (p : obs E -> bool) (tr : list (obs E)) : nat :=
  match tr with
  | [] => 0
  | o :: tr => (if p o then 1 else 0) + countObs p tr
  end.

(** A rate permit was taken. *)
Definition isTick `{Foreign} (o : obs HuntE) : bool :=
  match o with Obs e _ => match e with Tick => true | _ => false end end.

(** A call of [Login] started: each starts with its one call of
    [auth.NewProvider]. *)
Definition isLoginStart `{Foreign} (o : obs HuntE) : bool :=
  match o with Obs e _ => match e with NewProvider _ _ _ => true | _ => false end end.

(** A call to the remote service: the session's login and its map-objects
    call. *)
Definition isRemoteCall `{Foreign} (o : obs HuntE) : bool :=
  match o with
  | Obs e _ =>
      match e with
      | SessionInit _ _ _ _ _ => true
      | GetPlayerMap _ _ => true
      | _ => false
      end
  end.

(** A map-objects call. *)
Definition isMapCall `{Foreign} (o : obs HuntE) : bool :=
  match o with Obs e _ => match e with GetPlayerMap _ _ => true | _ => false end end.

(** A response was published to the results. *)
Definition isPublish `{Foreign} (o : obs HuntE) : bool :=
  match o with Obs e _ => match e with SendResult _ => true | _ => false end end.

(** The log line of the scan, if any. *)
Definition scanLog `{Foreign} (err : option error) : list (obs HuntE) :=
  match err with
  | Some e => [Obs (Log (LogError e)) tt]
  | None => []
  end.

(** The observations of one call of [Login] by [t], and how it ended: no
    provider, a session that did not initialise, or a new session. *)
Inductive LoginObs `{Foreign} (t : TrainerSession.t)
  : list (obs HuntE) -> api_Session + error -> Prop :=
| login_no_provider err :
    LoginObs t
      [Obs (NewProvider (TrainerSession.Provider t) (TrainerSession.Username t)
                        (TrainerSession.Password t)) (inr err)]
      (inr err)
| login_init_failed provider err :
    LoginObs t
      [Obs (NewProvider (TrainerSession.Provider t) (TrainerSession.Username t)
                        (TrainerSession.Password t)) (inl provider);
       Obs (SessionInit provider (TrainerSession.Location t) (TrainerSession.Feed t)
                        (TrainerSession.Crypto t) (TrainerSession.Context t)) (inr err)]
      (inr err)
| login_succeeded provider session :
    LoginObs t
      [Obs (NewProvider (TrainerSession.Provider t) (TrainerSession.Username t)
                        (TrainerSession.Password t)) (inl provider);
       Obs (SessionInit provider (TrainerSession.Location t) (TrainerSession.Feed t)
                        (TrainerSession.Crypto t) (TrainerSession.Context t)) (inl session)]
      (inl session).

(** The re-login of the specification, from attempt [i] on: each attempt
    takes one permit and logs in; a failed attempt [i] is logged and followed
    by a pause of [i * 10]; the first success ends it, and so does the fifth
    failure. The flag tells whether an attempt succeeded. *)
Inductive Relogin `{Foreign} (t : TrainerSession.t)
  : Z -> list (obs HuntE) -> bool -> Prop :=
| relogin_exhausted : Relogin t 5 [] false
| relogin_success i ltr session :
    0 <= i < 5 ->
    LoginObs t ltr (inl session) ->
    Relogin t i (Obs Tick tt :: ltr) true
| relogin_failure i ltr err tr ok :
    0 <= i < 5 ->
    LoginObs t ltr (inr err) ->
    Relogin t (i + 1) tr ok ->
    Relogin t i
      (Obs Tick tt :: ltr
         ++ [Obs (Log (LoginFailed (TrainerSession.Username t) err)) tt;
             Obs (Sleep (i * 10)) tt]
         ++ tr)
      ok.

(** The events of the login check of a round. *)
Definition loginCheckEvent `{Foreign} {X} (e : HuntE X) : bool :=
  match e with
  | Tick | NewProvider _ _ _ | SessionInit _ _ _ _ _ | IsExpired _ | Sleep _ | Log _ => true
  | _ => false
  end.

(** Session [session] is expired in state [w] of the environment. *)
Definition expired `{Foreign} {W} (h : handler HuntE W) (session : api_Session) (w : W)
  : Prop :=
  fst (h _ (IsExpired session) w) = true.

(** A session that is expired stays so while the login is checked. *)
Definition ExpiryStable `{Foreign} {W} (h : handler HuntE W) : Prop :=
  forall (session : api_Session) (w : W) X (e : HuntE X),
    loginCheckEvent e = true ->
    expired h session w ->
    expired h session (snd (h X e w)).

(** A scripted environment of [Hunt]: the answers that the session
    initialisations, the waits for a location, the map-objects calls and the
    scan store will give, in order; where a script has run out, the answer is
    a failure with error 1, no location, or no error from the store. Session
    0 is expired and no other is. *)
Record script : Type := mkScript {
  inits : list (nat + nat);
  waits : list (option Location);
  maps : list (nat + nat);
  stores : list (option nat)
}.

Definition scripted : handler (@HuntE numbered) script :=
  fun X e w =>
    match e in HuntE X return X * script with
    | Tick => (tt, w)
    | NewProvider _ _ _ => (inl tt, w)
    | SessionInit _ _ _ _ _ =>
        match inits w with
        | [] => (inr 1%nat, w)
        | a :: rest =>
            (a, {| inits := rest; waits := waits w; maps := maps w; stores := stores w |})
        end
    | IsExpired session => (Nat.eqb session 0, w)
    | Sleep _ => (tt, w)
    | RecvLocation _ =>
        match waits w with
        | [] => (None, w)
        | a :: rest =>
            (a, {| inits := inits w; waits := rest; maps := maps w; stores := stores w |})
        end
    | SessionMoveTo _ _ => (tt, w)
    | GetPlayerMap _ _ =>
        match maps w with
        | [] => (inr 1%nat, w)
        | a :: rest =>
            (a, {| inits := inits w; waits := waits w; maps := rest; stores := stores w |})
        end
    | SendResult _ => (tt, w)
    | AddScannedLocation _ _ _ =>
        match stores w with
        | [] => (None, w)
        | a :: rest =>
            (a, {| inits := inits w; waits := waits w; maps := maps w; stores := rest |})
        end
    | Log _ => (tt, w)
    end.

(** A trainer of the scripted environment with session [session]. *)
Definition trainer (session : nat) : @TrainerSession.t numbered :=
  @TrainerSession.mk numbered "ptc" "ash" "pikachu" origin tt session tt tt.

Definition database : mapsql.DbConnection :=
  {| mapsql.Username := "root"; mapsql.Password := "secret";
     mapsql.Host := "localhost"; mapsql.Port := 3306; mapsql.Database := "map" |}.

(** A wait for a location. *)
Definition isWait `{Foreign} (o : obs HuntE) : bool :=
  match o with Obs e _ => match e with RecvLocation _ => true | _ => false end end.

(** An observation of the login check of a round. *)
Definition isLoginCheck `{Foreign} (o : obs HuntE) : bool :=
  match o with Obs e _ => loginCheckEvent e end.

(** ** Reading a trace of [Hunt]: pace, publications, the account *)

(** A map-objects call that returned a response. *)
Definition isMapSuccess `{Foreign} (o : obs HuntE) : bool :=
  match o with
  | Obs e x =>
      match e in HuntE X return X -> bool with
      | GetPlayerMap _ _ => fun x => match x with inl _ => true | inr _ => false end
      | _ => fun _ => false
      end x
  end.

(** A scanned location was handed to the scan store. *)
Definition isRecord `{Foreign} (o : obs HuntE) : bool :=
  match o with
  | Obs e _ => match e with AddScannedLocation _ _ _ => true | _ => false end
  end.

(** Following a trace with or without a permit in hand: a permit taken is in
    hand until a remote call spends it, and a remote call made with none in
    hand is out of pace ([None]). The result is whether a permit is in hand
    at the end. *)
Fixpoint pace `{Foreign} (permit : bool) (tr : list (obs HuntE)) : option bool :=
  match tr with
  | [] => Some permit
  | o :: tr =>
      if isTick o then pace true tr
      else if isRemoteCall o then (if permit then pace false tr else None)
      else pace permit tr
  end.

(** The pauses made, in order: the durations handed to [time.Sleep], in
    nanoseconds. *)
Definition pauses `{Foreign} (tr : list (obs HuntE)) : list Z :=
  omap (fun o => match o with
                 | Obs e _ => match e with Sleep d => Some d | _ => None end
                 end) tr.

(** A trace in pace whether or not a permit is in hand when it starts. *)
Definition inPace `{Foreign} (tr : list (obs HuntE)) : Prop :=
  forall p, pace p tr <> None.

(** [t'] is the account of [t]: the credentials and the handles given at
    construction are the same. *)
Definition sameAccount `{Foreign} (t t' : TrainerSession.t) : Prop :=
  TrainerSession.Provider t' = TrainerSession.Provider t /\
  TrainerSession.Username t' = TrainerSession.Username t /\
  TrainerSession.Password t' = TrainerSession.Password t /\
  TrainerSession.Feed t' = TrainerSession.Feed t /\
  TrainerSession.Context t' = TrainerSession.Context t /\
  TrainerSession.Crypto t' = TrainerSession.Crypto t.

(** Neither a response of a map-objects call, nor a publication, nor a
    record of a scanned location. *)
Definition isQuiet `{Foreign} (o : obs HuntE) : bool :=
  negb (isMapSuccess o) && negb (isPublish o) && negb (isRecord o).

(** A trace in which every response of a map-objects call is at once
    published, that very response, and then recorded in the scan store, and
    in which nothing else is published or recorded. *)
Inductive Published `{Foreign} : list (obs HuntE) -> Prop :=
| published_nil : Published []
| published_quiet o tr :
    isQuiet o = true -> Published tr -> Published (o :: tr)
| published_response session ctx r db latitude longitude ans tr :
    Published tr ->
    Published (Obs (GetPlayerMap session ctx) (inl r)
                 :: Obs (SendResult r) tt
                 :: Obs (AddScannedLocation db latitude longitude) ans
                 :: tr).

(** In a balanced trace the publications and the records of a scanned
    location are as many as the map-objects calls that returned a
    response. *)
Definition balanced `{Foreign} (tr : list (obs HuntE)) : Prop :=
  countObs isPublish tr = countObs isMapSuccess tr /\
  countObs isRecord tr = countObs isMapSuccess tr.

(** ** Reading a honeycomb and a provider's answers *)

(** [l] has the altitude and the accuracy of [center]. *)
Definition levelWith (center l : Location) : Prop :=
  Alt l = Alt center /\ Accuracy l = Accuracy center.

(** The walk is level with the center where it stands and where it has
    been. *)
Definition level (center : Location) (st : comb) : Prop :=
  levelWith center (fst st) /\ Forall (levelWith center) (snd st).

(** [l] is at the spot of [l0]: latitude, longitude and altitude. *)
Definition sameSpot (l0 l : Location) : Prop :=
  Lat l = Lat l0 /\ Lon l = Lon l0 /\ Alt l = Alt l0.

(** The step that the honeycomb and the polygon provider both take in
    [NextLocation], on the list and the cursor alone: the new list, the new
    cursor, the location returned and the random source. *)
Definition cursorStep `{RandSource} (locations : list Location) (cursor : Z) (g : Rand)
  : result (list Location * Z * Location * Rand) :=
  let step := Go.add cursor 1 in
  let step := if step >=? len locations then 0 else step in
  match index locations step with
  | None => Panic
  | Some l =>
      match setRandomAccuracy l g with
      | Panic => Panic
      | Ok (l, g) => Ok (<[Z.to_nat step := l]> locations, step, l, g)
      end
  end.

(** [n] such steps in a row: the locations returned. *)
Fixpoint cursorSteps `{RandSource} (n : nat) (locations : list Location) (cursor : Z)
    (g : Rand) : result (list Location) :=
  match n with
  | O => Ok []
  | S n' =>
      match cursorStep locations cursor g with
      | Panic => Panic
      | Ok (locations, cursor, l, g) =>
          match cursorSteps n' locations cursor g with
          | Panic => Panic
          | Ok ls => Ok (l :: ls)
          end
      end
  end.

(** ** Reading a trace of [GetAltitude]: responses opened and closed *)

(** The responses that [http.Get] returned, in order. *)
Definition opened `{Foreign} (tr : list (obs HttpE)) : list http_Response :=
  omap (fun o => match o with
                 | Obs e x =>
                     match e in HttpE X return X -> option http_Response with
                     | HttpGet _ => fun x =>
                         match x with inl resp => Some resp | inr _ => None end
                     | _ => fun _ => None
                     end x
                 end) tr.

(** The responses whose body was closed, in order. *)
Definition closed `{Foreign} (tr : list (obs HttpE)) : list http_Response :=
  omap (fun o => match o with
                 | Obs e _ => match e with BodyClose resp => Some resp | _ => None end
                 end) tr.

(** The close of a response's body. *)
Definition closeOf `{Foreign} (resp : http_Response) : obs HttpE := Obs (BodyClose resp) tt.

(** [l] with altitude [e]. *)
Definition withAlt (l : Location) (e : float64) : Location :=
  {| Lat := Lat l; Lon := Lon l; Alt := e; Accuracy := Accuracy l |}.

(** The errors of the lookup steps that failed, in order. *)
Definition failures `{Foreign} (tr : list (obs HttpE)) : list error :=
  omap lookupFailure tr.

(** The [Status] of the responses that were parsed, in order. *)
Definition statuses `{Foreign} (tr : list (obs HttpE)) : list string :=
  omap (fun o => match o with
                 | Obs e x =>
                     match e in HttpE X return X -> option string with
                     | Unmarshal _ => fun x =>
                         match x with
                         | inl response => Some (ElevationApiResults.Status response)
                         | inr _ => None
                         end
                     | _ => fun _ => None
                     end x
                 end) tr.

(** A geometry in which no point moves, every two points are a kilometre
    and a half apart and every polygon contains every point: the honeycomb
    of a polygon has 12 rings, 468 points. *)
Definition wide : GeoLibrary :=
  {| PointAtDistanceAndBearing := fun p _ _ => p;
     GreatCircleDistance := fun _ _ => 1.5%float;
     Contains := fun _ _ => true |}.

(** An elevation service that answers its first request in full, 405
    results of elevation 7, and refuses every later one: no error, a
    response with status OVER_QUERY_LIMIT and no result. The state counts
    the calls. *)
Definition refusing : handler (@HttpE numbered) nat :=
  fun X e w =>
    match e in HttpE X return X * nat with
    | HttpGet _ => (inl w, S w)
    | ReadAll _ => (inl w, S w)
    | Unmarshal _ =>
        (inl (if Nat.ltb w 3
              then {| ElevationApiResults.Results :=
                        replicate 405
                          {| ElevationApiResult.Elevation := 7;
                             ElevationApiResult.Location := origin;
                             ElevationApiResult.Resolution := 1 |};
                      ElevationApiResults.Status := "OK" |}
              else {| ElevationApiResults.Results := [];
                      ElevationApiResults.Status := "OVER_QUERY_LIMIT" |}), S w)
    | BodyClose _ => (tt, S w)
    end.

(** An elevation service that answers every request with two results. *)
Definition generous : handler (@HttpE numbered) nat :=
  fun X e w =>
    match e in HttpE X return X * nat with
    | HttpGet _ => (inl w, S w)
    | ReadAll _ => (inl 0%nat, S w)
    | Unmarshal _ =>
        (inl {| ElevationApiResults.Results :=
                  [ {| ElevationApiResult.Elevation := 1;
                       ElevationApiResult.Location := origin;
                       ElevationApiResult.Resolution := 1 |};
                    {| ElevationApiResult.Elevation := 2;
                       ElevationApiResult.Location := origin;
                       ElevationApiResult.Resolution := 1 |} ];
                ElevationApiResults.Status := "OK" |}, S w)
    | BodyClose _ => (tt, S w)
    end.

(** ** ProvideLocations *)

(** A value of the interface [LocationProvider]: a provider of some type
    with its methods. *)
Record AnyProvider `{RandSource} : Type := anyProvider {
  carrier : Type;
  methods : LocationProvider carrier;
  provider : carrier
}.

(** [provider.NextLocation()] on a value of the interface. *)
Definition nextOf `{RandSource} (p : AnyProvider) (g : Rand)
  : result (AnyProvider * Location * Rand) :=
  match @NextLocation _ (carrier p) (methods p) (provider p) g with
  | Panic => Panic
  | Ok (st, l, g) =>
      Ok ({| carrier := carrier p; methods := methods p; provider := st |}, l, g)
  end.

(** The calls of [ProvideLocations]:
    - [PollProviders]: the [select] on [<-providers] with its [default];
      [None] is the default branch;
    - [LogPrintln]: [log.Println];
    - [SendLocation]: [locations <- l]; the event carries the content of
      the location when it is sent. *)
Inductive ProvideE `{RandSource} : Type -> Type :=
| PollProviders : ProvideE (option AnyProvider)
| LogPrintln (line : string) : ProvideE unit
| SendLocation (l : Location) : ProvideE unit.

(** ProvideLocations is a helper function to continuously send locations
    from a LocationProvider to a channel: [n] rounds of its loop, with the
    state of math/rand's source passed along. The result is the provider
    and the source as the rounds leave them, or the panic of
    [NextLocation]. *)
Fixpoint ProvideLocations `{RandSource} (n : nat) (p : AnyProvider) (g : Rand)
  : prog ProvideE (result (AnyProvider * Rand)) :=
  match n with
  | O => Ret (Ok (p, g))
  | S n' =>
      (* Check if we got a new location provider *)
      q <- trigger PollProviders;;
      p <- match q with
           | Some q =>
               trigger (LogPrintln "Switching to new LocationProvider");;
               Ret q
           | None => Ret p
           end;;
      match nextOf p g with
      | Panic => Ret Panic
      | Ok (p, l, g) =>
          trigger (SendLocation l);;
          ProvideLocations n' p g
      end
  end.

(** The locations sent, in order. *)
Definition sent `{RandSource} (tr : list (obs ProvideE)) : list Location :=
  omap (fun o => match o with
                 | Obs e _ => match e with SendLocation l => Some l | _ => None end
                 end) tr.

(** The providers received, in order. *)
Definition received `{RandSource} (tr : list (obs ProvideE)) : list AnyProvider :=
  omap (fun o => match o with
                 | Obs e x =>
                     match e in ProvideE X return X -> option AnyProvider with
                     | PollProviders => fun x => x
                     | _ => fun _ => None
                     end x
                 end) tr.

(** [n] calls of [NextLocation] in a row on a value of the interface: the
    locations they return, as far as they go, and whether all returned. *)
Fixpoint served `{RandSource} (n : nat) (p : AnyProvider) (g : Rand)
  : list Location * bool :=
  match n with
  | O => ([], true)
  | S n' =>
      match nextOf p g with
      | Panic => ([], false)
      | Ok (p, l, g) => let (ls, ok) := served n' p g in (l :: ls, ok)
      end
  end.

(** An environment in which no provider ever arrives. *)
Definition steady : handler (@ProvideE counting) nat :=
  fun X e w =>
    match e in ProvideE X return X * nat with
    | PollProviders => (None, S w)
    | LogPrintln _ => (tt, S w)
    | SendLocation _ => (tt, S w)
    end.

(** ** Package mapsql

    The scan store itself: the methods of [DbConnection], of which [Hunt]
    calls [AddScannedLocation] (its event of that name). *)

Module sql.

(** database/sql and time, as far as package mapsql calls them: the handle
    of a database, the result of a statement and the rows of a query (each
    with its nil), a time, the conversion to UTC, the rendering of a time under
    the layout "2006-01-2 15:04:05", and [fmt]'s rendering of an [int] under
    [%d] and of a [float64] under [%.14f]. *)
Class Library : Type := {
  DB : Type;
  Result : Type;
  Rows : Type;
  nilResult : Result;
  nilRows : Rows;
  Time : Type;
  UTC : Time -> Time;
  Format : Time -> string;
  Sprintf_d : Z -> string;
  Sprintf_14f : float64 -> string
}.

End sql.

(** The calls of package mapsql: [sql.Open], the methods [Exec], [Query]
    and [Close] of the handle, and [time.Now]. *)
Inductive SqlE `{Foreign} `{sql.Library} : Type -> Type :=
| SqlOpen (driverName dataSourceName : string) : SqlE (sql.DB * option error)
| DbExec (db : sql.DB) (statement : string) : SqlE (sql.Result * option error)
| DbQuery (db : sql.DB) (query : string) : SqlE (sql.Rows * option error)
| DbClose (db : sql.DB) : SqlE (option error)
| TimeNow : SqlE sql.Time.

Definition openDb `{Foreign} `{sql.Library} (conn : mapsql.DbConnection)
  : prog SqlE (sql.DB * option error) :=
  let sourceName :=
    (mapsql.Username conn ++ ":" ++ mapsql.Password conn ++ "@tcp(" ++ mapsql.Host conn
       ++ ":" ++ sql.Sprintf_d (mapsql.Port conn) ++ ")/" ++ mapsql.Database conn)%string in
  trigger (SqlOpen "mysql" sourceName).

(** The data source that [openDb] names. *)
Definition dataSource `{Foreign} `{sql.Library} (conn : mapsql.DbConnection) : string :=
  (mapsql.Username conn ++ ":" ++ mapsql.Password conn ++ "@tcp(" ++ mapsql.Host conn
     ++ ":" ++ sql.Sprintf_d (mapsql.Port conn) ++ ")/" ++ mapsql.Database conn)%string.

(** The methods of [DbConnection]. *)
Module DbConnection.

Definition ExecuteStatement `{Foreign} `{sql.Library} (d : mapsql.DbConnection)
    (statement : string) : prog SqlE (sql.Result * option error) :=
  r <- openDb d;;
  match snd r with
  | Some err => Ret (sql.nilResult, Some err)
  | None =>
      let db := fst r in
      r <- trigger (DbExec db statement);;
      trigger (DbClose db);;
      Ret r
  end.

Definition ExecuteQuery `{Foreign} `{sql.Library} (d : mapsql.DbConnection)
    (query : string) : prog SqlE (sql.Rows * option error) :=
  r <- openDb d;;
  match snd r with
  | Some err => Ret (sql.nilRows, Some err)
  | None => trigger (DbQuery (fst r) query)
  end.

Definition AddPokemon `{Foreign} `{sql.Library} (d : mapsql.DbConnection)
    (encounterId spawnpointId : string) (pokemonId : Z) (latitude longitude : float64)
    (disappearTime : sql.Time) : prog SqlE (option error) :=
  let insert :=
    ("INSERT INTO `pokemon` (encounter_id,spawnpoint_id,pokemon_id,latitude,longitude,disappear_time) "
       ++ "VALUES ('" ++ encounterId ++ "', '" ++ spawnpointId ++ "', "
       ++ sql.Sprintf_d pokemonId ++ ", " ++ sql.Sprintf_14f latitude ++ ", "
       ++ sql.Sprintf_14f longitude ++ ", '" ++ sql.Format disappearTime ++ "')")%string in
  r <- ExecuteStatement d insert;;
  Ret (snd r).

(** The INSERT and the UPDATE of [AddScannedLocation] at time [now]. *)
Definition insertScanned `{Foreign} `{sql.Library} (latitude longitude : float64)
    (now : sql.Time) : string :=
  ("INSERT INTO scannedlocation (latitude, longitude, last_modified) VALUES ("
     ++ Sprintf_f latitude ++ ", " ++ Sprintf_f longitude ++ ", '"
     ++ sql.Format (sql.UTC now) ++ "')")%string.

Definition updateScanned `{Foreign} `{sql.Library} (latitude longitude : float64)
    (now : sql.Time) : string :=
  ("UPDATE scannedlocation SET last_modified = '" ++ sql.Format (sql.UTC now)
     ++ "' WHERE latitude=" ++ Sprintf_f latitude ++ " and longitude="
     ++ Sprintf_f longitude)%string.

Definition AddScannedLocation `{Foreign} `{sql.Library} (d : mapsql.DbConnection)
    (latitude longitude : float64) : prog SqlE (option error) :=
  now <- trigger TimeNow;;
  let insert := insertScanned latitude longitude now in
  r <- ExecuteStatement d insert;;
  match snd r with
  | Some _ =>
      now <- trigger TimeNow;;
      let insert := updateScanned latitude longitude now in
      r <- ExecuteStatement d insert;;
      Ret (snd r)
  | None => Ret (snd r)
  end.

End DbConnection.

(** *** Reading a trace of package mapsql *)

(** The handles that [sql.Open] returned with no error, in order. *)
Definition handles `{Foreign} `{sql.Library} (tr : list (obs SqlE)) : list sql.DB :=
  omap (fun o => match o with
                 | Obs e x =>
                     match e in SqlE X return X -> option sql.DB with
                     | SqlOpen _ _ => fun x =>
                         match snd x with None => Some (fst x) | Some _ => None end
                     | _ => fun _ => None
                     end x
                 end) tr.

(** The handles closed, in order. *)
Definition released `{Foreign} `{sql.Library} (tr : list (obs SqlE)) : list sql.DB :=
  omap (fun o => match o with
                 | Obs e _ => match e with DbClose db => Some db | _ => None end
                 end) tr.

(** The statements run with their errors, in order. *)
Definition statements `{Foreign} `{sql.Library} (tr : list (obs SqlE))
  : list (string * option error) :=
  omap (fun o => match o with
                 | Obs e x =>
                     match e in SqlE X return X -> option (string * option error) with
                     | DbExec _ statement => fun x => Some (statement, snd x)
                     | _ => fun _ => None
                     end x
                 end) tr.

(** The times read, in order. *)
Definition clockReads `{Foreign} `{sql.Library} (tr : list (obs SqlE)) : list sql.Time :=
  omap (fun o => match o with
                 | Obs e x =>
                     match e in SqlE X return X -> option sql.Time with
                     | TimeNow => fun x => Some x
                     | _ => fun _ => None
                     end x
                 end) tr.

(** ** Reading a trace of [Hunt]: where it moves and what it records *)

(** The answer of the last wait for a location, [here] if there was none. *)
Fixpoint lastReceived `{Foreign} (here : option Location) (tr : list (obs HuntE))
  : option Location :=
  match tr with
  | [] => here
  | Obs e x :: tr =>
      match e in HuntE X return X -> option Location with
      | RecvLocation _ => fun x => lastReceived x tr
      | _ => fun _ => lastReceived here tr
      end x
  end.

(** Every move of the session and every record of a scanned location is at
    the location received last, [here] before any is received. *)
Fixpoint tracks `{Foreign} (here : option Location) (tr : list (obs HuntE)) : Prop :=
  match tr with
  | [] => True
  | Obs e x :: tr =>
      match e in HuntE X return X -> Prop with
      | RecvLocation _ => fun x => tracks x tr
      | SessionMoveTo _ l => fun _ => here = Some l /\ tracks here tr
      | AddScannedLocation _ latitude longitude => fun _ =>
          (exists l, here = Some l /\ latitude = Lat l /\ longitude = Lon l) /\
          tracks here tr
      | _ => fun _ => tracks here tr
      end x
  end.
(** * Properties *)

(** ** Running a tree *)

Lemma run_bind {E R T W} (h : handler E W) (p : prog E R) (f : R -> prog E T) (w : W) :
  run h (bind p f) w =
  let '(tr1, r, w1) := run h p w in
  let '(tr2, t, w2) := run h (f r) w1 in
  (tr1 ++ tr2, t, w2).
Proof.
  revert w. induction p as [r | X e k IH]; intros w; simpl.
  - destruct (run h (f r) w) as [[tr2 t] w2]. reflexivity.
  - destruct (h X e w) as [x w1]. rewrite IH.
    destruct (run h (k x) w1) as [[tr1 r] w1'].
    destruct (run h (f r) w1') as [[tr2 t] w2]. reflexivity.
Qed.

Lemma run_trigger {E X W} (h : handler E W) (e : E X) (w : W) :
  run h (trigger e) w = ([Obs e (fst (h X e w))], fst (h X e w), snd (h X e w)).
Proof. unfold trigger. simpl. destruct (h X e w). reflexivity. Qed.

Lemma run_bind_ret {E R T W} (h : handler E W) (p : prog E R) (k : R -> prog E T)
    (f : R -> T) (w : W) :
  (forall r, k r = Ret (f r)) ->
  run h (bind p k) w = let '(tr, r, w') := run h p w in (tr, f r, w').
Proof.
  intros Hk. rewrite run_bind. destruct (run h p w) as [[tr r] w'].
  rewrite Hk. simpl. rewrite app_nil_r. reflexivity.
Qed.

(** ** The honeycomb *)

Lemma grows_refl st : grows 0 st st.
Proof. exists []. split; [symmetry; apply app_nil_r | reflexivity]. Qed.

Lemma grows_trans j k st1 st2 st3 :
  grows j st1 st2 -> grows k st2 st3 -> grows (j + k) st1 st3.
Proof.
  intros [s1 [E1 L1]] [s2 [E2 L2]]. exists (s1 ++ s2). split.
  - rewrite E2, E1, app_assoc. reflexivity.
  - rewrite length_app. lia.
Qed.

Lemma grows_move `{GeoLibrary} d b st : grows 0 st (move d b st).
Proof. exists []. split; [symmetry; apply app_nil_r | reflexivity]. Qed.

Lemma grows_emit st : grows 1 st (emit st).
Proof. exists [fst st]. split; reflexivity. Qed.

Lemma grows_for_steps (body : Z -> comb -> comb) k :
  (forall i st, grows k st (body i st)) ->
  forall n i st, grows (n * k) st (for_steps n i body st).
Proof.
  intros Hb. induction n as [| n IH]; intros i st; simpl.
  - apply grows_refl.
  - eapply grows_trans; [apply Hb | apply IH].
Qed.

Lemma grows_edge `{GeoLibrary} d1 b1 d2 b2 n i st :
  grows n st (for_steps n i (fun _ st => emit (move d2 b2 (move d1 b1 st))) st).
Proof.
  replace n with (n * 1)%nat at 1 by lia. apply grows_for_steps.
  intros _ st'. change 1%nat with (0 + (0 + 1))%nat.
  eapply grows_trans; [apply grows_move |].
  eapply grows_trans; [apply grows_move | apply grows_emit].
Qed.

Lemma grows_side `{GeoLibrary} d b n i st :
  grows n st (for_steps n i (fun _ st => emit (move d b st)) st).
Proof.
  replace n with (n * 1)%nat at 1 by lia. apply grows_for_steps.
  intros _ st'. change 1%nat with (0 + 1)%nat.
  eapply grows_trans; [apply grows_move | apply grows_emit].
Qed.

(** Ring [ring] contributes [6 * ring] locations. *)
Lemma grows_ringWalk `{GeoLibrary} dx dy ring st :
  grows (6 * Z.to_nat ring) st (ringWalk dx dy ring st).
Proof.
  unfold ringWalk, for_range. rewrite Z.sub_0_r.
  set (n := Z.to_nat ring).
  replace (6 * n)%nat with (0 + (n + (n + (n + (n + (n + n))))))%nat by lia.
  eapply grows_trans; [apply grows_move |].
  eapply grows_trans; [apply grows_edge |].
  eapply grows_trans; [apply grows_side |].
  eapply grows_trans; [apply grows_edge |].
  eapply grows_trans; [apply grows_edge |].
  eapply grows_trans; [apply grows_side | apply grows_edge].
Qed.

(** The outer loop from ring [i] on, [n] rings: one segment per ring. *)
Lemma rings_for_steps `{GeoLibrary} dx dy n :
  forall i st, 0 <= i ->
  exists segs : list (list Location),
    snd (for_steps n i (ringWalk dx dy) st) = snd st ++ concat segs /\
    length segs = n /\
    forall (k : nat) seg, segs !! k = Some seg -> length seg = (6 * (Z.to_nat i + k))%nat.
Proof.
  induction n as [| n IH]; intros i st Hi; simpl.
  - exists []. split; [symmetry; apply app_nil_r |]. split; [reflexivity |].
    intros k seg Hk. destruct k; discriminate Hk.
  - destruct (grows_ringWalk dx dy i st) as [seg [E L]].
    destruct (IH (i + 1) (ringWalk dx dy i st)) as [segs [E' [L' Hsegs]]]; [lia |].
    exists (seg :: segs). split; [| split].
    + rewrite E', E. simpl. rewrite app_assoc. reflexivity.
    + simpl. rewrite L'. reflexivity.
    + intros [| k] s Hk; simpl in Hk.
      * inversion Hk; subst. lia.
      * apply Hsegs in Hk. rewrite Hk. rewrite Z2Nat.inj_add by lia. simpl. lia.
Qed.

Lemma generateHoneyComb_rings `{GeoLibrary} center radius distance :
  exists segs : list (list Location),
    generateHoneyComb center radius distance = concat segs /\
    length segs = Z.to_nat (ringCount radius distance - 1) /\
    forall (k : nat) seg, segs !! k = Some seg -> length seg = (6 * (k + 1))%nat.
Proof.
  unfold generateHoneyComb, for_range.
  destruct (rings_for_steps (sqrt 3 * distance)%float (3 * (distance / 2))%float
              (Z.to_nat (ringCount radius distance - 1)) 1 (center, []))
    as [segs [E [L Hsegs]]]; [lia |].
  exists segs. split; [exact E | split; [exact L |]].
  intros k seg Hk. rewrite (Hsegs k seg Hk). simpl. lia.
Qed.


Lemma ringCount_100_70 : ringCount 100 70 = 1.
Proof. vm_compute. reflexivity. Qed.


Lemma generateHoneyComb_nil_iff `{GeoLibrary} center radius distance :
  generateHoneyComb center radius distance = [] <-> ringCount radius distance < 2.
Proof.
  destruct (generateHoneyComb_rings center radius distance) as [segs [E [L Hsegs]]].
  rewrite E. split.
  - intros Hnil. destruct segs as [| seg segs].
    + simpl in L. lia.
    + exfalso. pose proof (Hsegs 0%nat seg eq_refl) as Hlen.
      simpl in Hnil. apply app_eq_nil in Hnil. destruct Hnil as [Hseg _].
      rewrite Hseg in Hlen. discriminate Hlen.
  - intros Hlt. destruct segs as [| seg segs]; [reflexivity |].
    simpl in L. lia.
Qed.

(** C2, as the code has it. [generateHoneyComb] returns a non-empty sequence
    exactly when the ring count ceil(radius / (sqrt 3 * distance)) is at
    least 2; [NewHoneyCombProvider] has no failure: it always returns a
    provider, whose locations are those of [generateHoneyComb] and whose
    cursor is -1. *)
Theorem C2_honeycomb_nonempty_iff_two_rings :
  forall (geo : GeoLibrary) (center : Location) (radius distance : float64),
    (generateHoneyComb center radius distance <> [] <-> 2 <= ringCount radius distance) /\
    HoneyCombProvider.Locations (NewHoneyCombProvider center radius distance)
      = generateHoneyComb center radius distance /\
    HoneyCombProvider.CurrentStep (NewHoneyCombProvider center radius distance) = -1.
Proof.
  intros geo center radius distance. split; [| split; reflexivity].
  pose proof (generateHoneyComb_nil_iff center radius distance) as Hnil.
  split.
  - intros Hne. destruct (Z_lt_le_dec (ringCount radius distance) 2) as [Hlt | Hle].
    + exfalso. apply Hne. apply Hnil. exact Hlt.
    + exact Hle.
  - intros Hle Heq. apply Hnil in Heq. lia.
Qed.

(** C2 fails as stated: radius 100 and spacing 70 are positive, the ring
    count is 1, no ring is walked, and the provider is built all the same,
    with no location. *)
Lemma C2_counterexample :
  (0 <? 100)%float = true /\ (0 <? 70)%float = true /\
  ringCount 100 70 = 1 /\
  @generateHoneyComb still origin 100 70 = [] /\
  HoneyCombProvider.Locations (@NewHoneyCombProvider still origin 100 70) = [].
Proof.
  split; [reflexivity |]. split; [reflexivity |].
  split; [apply ringCount_100_70 |].
  assert (Hnil : @generateHoneyComb still origin 100 70 = [])
    by (apply generateHoneyComb_nil_iff; rewrite ringCount_100_70; lia).
  split; [exact Hnil |].
  unfold NewHoneyCombProvider. simpl. exact Hnil.
Qed.

(** ** The providers *)

Lemma index_Some {A} (l : list A) (i : Z) :
  0 <= i < len l -> exists x, index l i = Some x /\ l !! Z.to_nat i = Some x.
Proof.
  intros Hi. unfold index, len in *.
  destruct (lookup_lt_is_Some_2 l (Z.to_nat i)) as [x Hx]; [lia |].
  exists x. split; [| exact Hx].
  replace (0 <=? i) with true by (symmetry; apply Z.leb_le; lia).
  replace (i <? Z.of_nat (length l)) with true by (symmetry; apply Z.ltb_lt; lia).
  exact Hx.
Qed.

Lemma lookup_In {A} (l : list A) (i : nat) (x : A) : l !! i = Some x -> In x l.
Proof.
  intros Hx. apply list_elem_of_In. eapply list_elem_of_lookup_2. exact Hx.
Qed.

Lemma index_nil {A} (i : Z) : index (@nil A) i = None.
Proof. unfold index. destruct (_ && _); reflexivity. Qed.

Lemma wrap_small (z : Z) : min_int <= z <= max_int -> wrap z = z.
Proof.
  unfold wrap, min_int, max_int. intros Hz.
  rewrite Z.mod_small by lia. lia.
Qed.

(** What one resampling does: the accuracy becomes a member of [choices],
    the one the draw selects; nothing else changes. *)
Lemma setRandomAccuracy_spec `{RandSource} (location : Location) (g : Rand) :
  exists a,
    choices !! Z.to_nat (fst (Intn g 8)) = Some a /\
    setRandomAccuracy location g
      = Ok ({| Lat := Lat location; Lon := Lon location; Alt := Alt location;
               Accuracy := a |}, snd (Intn g 8)).
Proof.
  unfold setRandomAccuracy. change (len choices) with 8.
  pose proof (Intn_range g 8 ltac:(lia)) as Hr.
  destruct (Intn g 8) as [i g']. simpl in *.
  destruct (index_Some choices i) as [a [Hi Ha]]; [exact Hr |].
  exists a. rewrite Hi. split; [exact Ha | reflexivity].
Qed.

(** C8. Every call of a fixed provider's [NextLocation] returns the
    configured latitude and longitude with an accuracy drawn anew from
    [choices] = {5,5,5,10,10,30,50,65}: the one call in detail, and every
    location returned by any number of calls in a row. *)
Theorem C8_fixed_provider_locations :
  forall (rnd : RandSource) (d : DefaultLocationProvider.t) (g : Rand),
    (exists a,
        choices !! Z.to_nat (fst (Intn g 8)) = Some a /\
        let l := {| Lat := Lat (DefaultLocationProvider.StartLocation d);
                    Lon := Lon (DefaultLocationProvider.StartLocation d);
                    Alt := Alt (DefaultLocationProvider.StartLocation d);
                    Accuracy := a |} in
        DefaultLocationProvider.NextLocation d g
          = Ok ({| DefaultLocationProvider.StartLocation := l |}, l, snd (Intn g 8))) /\
    forall n : nat,
      exists ls,
        nextLocations n d g = Ok ls /\
        length ls = n /\
        forall l, In l ls ->
          Lat l = Lat (DefaultLocationProvider.StartLocation d) /\
          Lon l = Lon (DefaultLocationProvider.StartLocation d) /\
          In (Accuracy l) choices.
Proof.
  intros rnd d g. split.
  - destruct (setRandomAccuracy_spec (DefaultLocationProvider.StartLocation d) g)
      as [a [Ha E]].
    exists a. split; [exact Ha |]. simpl.
    unfold DefaultLocationProvider.NextLocation. rewrite E. reflexivity.
  - intros n. revert d g. induction n as [| n IH]; intros d g.
    + exists []. split; [reflexivity |]. split; [reflexivity |]. intros l [].
    + destruct (setRandomAccuracy_spec (DefaultLocationProvider.StartLocation d) g)
        as [a [Ha E]].
      set (l0 := {| Lat := Lat (DefaultLocationProvider.StartLocation d);
                    Lon := Lon (DefaultLocationProvider.StartLocation d);
                    Alt := Alt (DefaultLocationProvider.StartLocation d);
                    Accuracy := a |}) in *.
      destruct (IH {| DefaultLocationProvider.StartLocation := l0 |} (snd (Intn g 8)))
        as [ls [Els [Lls Hls]]].
      exists (l0 :: ls). split; [| split].
      * cbn [nextLocations NextLocation DefaultLocationProvider_provider].
        unfold DefaultLocationProvider.NextLocation. rewrite E, Els. reflexivity.
      * simpl. rewrite Lls. reflexivity.
      * intros l [<- | Hin].
        -- split; [reflexivity |]. split; [reflexivity |].
           apply (lookup_In _ _ _ Ha).
        -- apply Hls in Hin. exact Hin.
Qed.

(** On a provider with a location (and no more of them than an [int]
    counts) and its cursor in [-1, len), a call succeeds, moves the cursor
    one further, back to 0 from the end, and
    leaves it an index of the list, which keeps its length. *)
Lemma HoneyCombProvider_NextLocation_in_range `{RandSource}
    (h : HoneyCombProvider.t) (g : Rand) :
  HoneyCombProvider.Locations h <> [] ->
  len (HoneyCombProvider.Locations h) <= max_int ->
  -1 <= HoneyCombProvider.CurrentStep h < len (HoneyCombProvider.Locations h) ->
  exists h' l g',
    HoneyCombProvider.NextLocation h g = Ok (h', l, g') /\
    HoneyCombProvider.CurrentStep h'
      = (HoneyCombProvider.CurrentStep h + 1) mod len (HoneyCombProvider.Locations h) /\
    0 <= HoneyCombProvider.CurrentStep h' < len (HoneyCombProvider.Locations h') /\
    length (HoneyCombProvider.Locations h') = length (HoneyCombProvider.Locations h) /\
    HoneyCombProvider.Locations h' !! Z.to_nat (HoneyCombProvider.CurrentStep h') = Some l.
Proof.
  intros Hne Hmax Hc. unfold HoneyCombProvider.NextLocation.
  set (n := len (HoneyCombProvider.Locations h)) in *.
  assert (Hn : 0 < n).
  { unfold n, len. destruct (HoneyCombProvider.Locations h); [congruence | simpl; lia]. }
  unfold Go.add. rewrite wrap_small by (unfold min_int, max_int in *; lia).
  set (step := if HoneyCombProvider.CurrentStep h + 1 >=? n then 0
               else HoneyCombProvider.CurrentStep h + 1).
  assert (Hstep : 0 <= step < n /\
                  step = (HoneyCombProvider.CurrentStep h + 1) mod n).
  { unfold step. destruct (Z.geb_spec (HoneyCombProvider.CurrentStep h + 1) n) as [Hge | Hlt].
    - replace (HoneyCombProvider.CurrentStep h + 1) with n by lia.
      rewrite Z.mod_same by lia. lia.
    - rewrite Z.mod_small by lia. lia. }
  destruct Hstep as [Hs Hmod].
  destruct (index_Some (HoneyCombProvider.Locations h) step) as [l [Hi Hl]]; [exact Hs |].
  rewrite Hi.
  destruct (setRandomAccuracy_spec l g) as [a [_ E]]. rewrite E.
  eexists _, _, _. split; [reflexivity |]. simpl.
  split; [exact Hmod |]. unfold len. rewrite length_insert.
  split; [exact Hs |]. split; [reflexivity |].
  apply list_lookup_insert_eq. unfold n, len in Hs. lia.
Qed.

Lemma PolygonProvider_NextLocation_in_range `{RandSource}
    (p : PolygonProvider.t) (g : Rand) :
  PolygonProvider.Locations p <> [] ->
  len (PolygonProvider.Locations p) <= max_int ->
  -1 <= PolygonProvider.currentLocation p < len (PolygonProvider.Locations p) ->
  exists p' l g',
    PolygonProvider.NextLocation p g = Ok (p', l, g') /\
    PolygonProvider.currentLocation p'
      = (PolygonProvider.currentLocation p + 1) mod len (PolygonProvider.Locations p) /\
    0 <= PolygonProvider.currentLocation p' < len (PolygonProvider.Locations p') /\
    length (PolygonProvider.Locations p') = length (PolygonProvider.Locations p) /\
    PolygonProvider.Locations p' !! Z.to_nat (PolygonProvider.currentLocation p') = Some l.
Proof.
  intros Hne Hmax Hc. unfold PolygonProvider.NextLocation.
  set (n := len (PolygonProvider.Locations p)) in *.
  assert (Hn : 0 < n).
  { unfold n, len. destruct (PolygonProvider.Locations p); [congruence | simpl; lia]. }
  unfold Go.add.
  rewrite wrap_small by (unfold min_int, max_int in *; lia).
  set (cur := if PolygonProvider.currentLocation p + 1 >=? n then 0
              else PolygonProvider.currentLocation p + 1).
  assert (Hcur : 0 <= cur < n /\ cur = (PolygonProvider.currentLocation p + 1) mod n).
  { unfold cur. destruct (Z.geb_spec (PolygonProvider.currentLocation p + 1) n) as [Hge | Hlt].
    - replace (PolygonProvider.currentLocation p + 1) with n by lia.
      rewrite Z.mod_same by lia. lia.
    - rewrite Z.mod_small by lia. lia. }
  destruct Hcur as [Hs Hmod].
  destruct (index_Some (PolygonProvider.Locations p) cur) as [l [Hi Hl]]; [exact Hs |].
  rewrite Hi.
  destruct (setRandomAccuracy_spec l g) as [a [_ E]]. rewrite E.
  eexists _, _, _. split; [reflexivity |]. simpl.
  split; [exact Hmod |]. unfold len. rewrite length_insert.
  split; [exact Hs |]. split; [reflexivity |].
  apply list_lookup_insert_eq. unfold n, len in Hs. lia.
Qed.

(** C7 at the failing input. [NewHoneyCombProvider] with radius 100 and
    spacing 70 returns a provider with no location; its first call of
    [NextLocation] sets the cursor to 0, which is no index of the empty
    list, and panics. So does a call on any polygon provider with no
    location. *)
Theorem C7_NextLocation_panics_on_empty_provider :
  forall (rnd : RandSource) (geo : GeoLibrary) (center : Location) (g : Rand),
    HoneyCombProvider.Locations (NewHoneyCombProvider center 100 70) = [] /\
    HoneyCombProvider.NextLocation (NewHoneyCombProvider center 100 70) g = Panic /\
    forall polygon cursor,
      PolygonProvider.NextLocation
        {| PolygonProvider.Polygon := polygon;
           PolygonProvider.Locations := [];
           PolygonProvider.currentLocation := cursor |} g = Panic.
Proof.
  intros rnd geo center g.
  assert (Hnil : generateHoneyComb center 100 70 = [])
    by (apply generateHoneyComb_nil_iff; rewrite ringCount_100_70; lia).
  split; [| split].
  - unfold NewHoneyCombProvider. simpl. exact Hnil.
  - unfold HoneyCombProvider.NextLocation, NewHoneyCombProvider. simpl.
    rewrite Hnil. reflexivity.
  - intros polygon cursor. unfold PolygonProvider.NextLocation. simpl.
    rewrite index_nil. reflexivity.
Qed.

(** ** The altitudes *)

Section Altitudes.

Context `{Foreign} {W : Type} (h : handler HttpE W).

Lemma run_leave {R} (deferred : list http_Response) (r : R) (w : W) :
  result_of (run h (leave deferred r) w) = r /\
  map lookupFailure (trace_of (run h (leave deferred r) w))
    = map (fun _ => None) (trace_of (run h (leave deferred r) w)) /\
  requested (trace_of (run h (leave deferred r) w)) = [] /\
  parsed (trace_of (run h (leave deferred r) w)) = [].
Proof.
  revert w. induction deferred as [| resp rest IH]; intros w.
  - simpl. repeat split.
  - simpl. destruct (h unit (BodyClose resp) w) as [[] w1].
    specialize (IH w1).
    destruct (run h (leave rest r) w1) as [[tr r'] w2].
    unfold result_of, trace_of in *. simpl in *.
    destruct IH as [Hr [Hf [Hq Hp]]]. repeat split; try assumption.
    f_equal. exact Hf.
Qed.

Lemma not_lookupFailed_leave {R} (deferred : list http_Response) (r : R) (w : W) err :
  ~ lookupFailed (trace_of (run h (leave deferred r) w)) err.
Proof.
  unfold lookupFailed. destruct (run_leave deferred r w) as [_ [Hf _]].
  rewrite Hf. intros Hin. apply in_map_iff in Hin.
  destruct Hin as [o [Ho _]]. discriminate Ho.
Qed.

(** A lookup step that fails ends the loop with its error. *)
Lemma requestLoop_failed (key : string) (latLngPairs : list string) (n : nat) :
  forall i elevations deferred w err,
    lookupFailed (trace_of (run h (requestLoop n i latLngPairs key elevations deferred) w))
      err ->
    exists el,
      result_of (run h (requestLoop n i latLngPairs key elevations deferred) w)
        = Ok (el, Some err).
Proof.
  induction n as [| n IH]; intros i elevations deferred w err Hf.
  - exfalso. exact (not_lookupFailed_leave _ _ _ _ Hf).
  - cbn [requestLoop] in *.
    destruct (slice latLngPairs (i * rateLimit) _) as [batch |].
    2:{ exfalso. exact (not_lookupFailed_leave _ _ _ _ Hf). }
    cbn [bind trigger run] in *.
    destruct (h _ (HttpGet (requestURL batch key)) w) as [[resp | e1] w1].
    2:{ pose proof (run_leave deferred (Ok (elevations, Some e1)) w1) as [Hr _].
        pose proof (not_lookupFailed_leave deferred (Ok (elevations, Some e1)) w1 err) as Hn.
        destruct (run h (leave deferred (Ok (elevations, Some e1))) w1) as [[tr r] w2].
        unfold result_of, trace_of, lookupFailed in *. simpl in *.
        destruct Hf as [Hf | Hf]; [| contradiction].
        inversion Hf; subst. exists elevations. reflexivity. }
    cbn [bind run] in *.
    destruct (h _ (ReadAll resp) w1) as [[body | e2] w2].
    2:{ pose proof (run_leave (resp :: deferred) (Ok (elevations, Some e2)) w2) as [Hr _].
        pose proof (not_lookupFailed_leave (resp :: deferred)
                      (Ok (elevations, Some e2)) w2 err) as Hn.
        destruct (run h (leave (resp :: deferred) (Ok (elevations, Some e2))) w2)
          as [[tr r] w3].
        unfold result_of, trace_of, lookupFailed in *. simpl in *.
        destruct Hf as [Hf | [Hf | Hf]]; [discriminate Hf | | contradiction].
        inversion Hf; subst. exists elevations. reflexivity. }
    cbn [bind run] in *.
    destruct (h _ (Unmarshal body) w2) as [[response | e3] w3].
    2:{ pose proof (run_leave (resp :: deferred) (Ok (elevations, Some e3)) w3) as [Hr _].
        pose proof (not_lookupFailed_leave (resp :: deferred)
                      (Ok (elevations, Some e3)) w3 err) as Hn.
        destruct (run h (leave (resp :: deferred) (Ok (elevations, Some e3))) w3)
          as [[tr r] w4].
        unfold result_of, trace_of, lookupFailed in *. simpl in *.
        destruct Hf as [Hf | [Hf | [Hf | Hf]]];
          [discriminate Hf | discriminate Hf | | contradiction].
        inversion Hf; subst. exists elevations. reflexivity. }
    destruct (storeElevations _ 0 (rateLimit * i) elevations) as [el1 |].
    + specialize (IH (i + 1) el1 (resp :: deferred) w3 err).
      destruct (run h (requestLoop n (i + 1) latLngPairs key el1 (resp :: deferred)) w3)
        as [[tr r] w4].
      unfold result_of, trace_of, lookupFailed in *. simpl in *.
      destruct Hf as [Hf | [Hf | [Hf | Hf]]]; try discriminate Hf.
      exact (IH Hf).
    + pose proof (not_lookupFailed_leave (resp :: deferred)
                    (@Panic (list float64 * option error)) w3 err) as Hn.
      destruct (run h (leave (resp :: deferred) Panic) w3) as [[tr r] w4].
      unfold result_of, trace_of, lookupFailed in *. simpl in *.
      destruct Hf as [Hf | [Hf | [Hf | Hf]]]; try discriminate Hf.
      contradiction.
Qed.

End Altitudes.

Lemma run_SetCorrectAltitudes `{Foreign} {W} (h : handler HttpE W) locations key w :
  run h (SetCorrectAltitudes locations key) w =
  let '(tr, r, w') := run h (GetAltitude locations key) w in
  (tr, altitudesSet locations r, w').
Proof.
  unfold SetCorrectAltitudes. apply run_bind_ret.
  intros [[elevations [err |]] |]; simpl; try reflexivity.
  destruct (setAlts elevations 0 locations); reflexivity.
Qed.

Lemma slice_batchAt (latLngPairs : list string) (k : nat) :
  (405 * k < length latLngPairs)%nat ->
  slice latLngPairs (Z.of_nat k * rateLimit)
    (if Z.of_nat k * rateLimit + rateLimit >? len latLngPairs
     then len latLngPairs else Z.of_nat k * rateLimit + rateLimit)
  = Some (batchAt latLngPairs k).
Proof.
  intros Hk. unfold slice, batchAt, rateLimit, len.
  set (L := length latLngPairs) in *.
  destruct (Z.gtb_spec (Z.of_nat k * 405 + 405) (Z.of_nat L)) as [Hgt | Hle].
  - replace ((0 <=? Z.of_nat k * 405) && (Z.of_nat k * 405 <=? Z.of_nat L)
             && (Z.of_nat L <=? Z.of_nat L)) with true
      by (symmetry; rewrite !andb_true_iff, !Z.leb_le; lia).
    f_equal. replace (Z.to_nat (Z.of_nat k * 405)) with (405 * k)%nat by lia.
    rewrite !take_ge; [reflexivity | |]; rewrite length_drop; fold L; lia.
  - replace ((0 <=? Z.of_nat k * 405) && (Z.of_nat k * 405 <=? Z.of_nat k * 405 + 405)
             && (Z.of_nat k * 405 + 405 <=? Z.of_nat L)) with true
      by (symmetry; rewrite !andb_true_iff, !Z.leb_le; lia).
    f_equal. replace (Z.to_nat (Z.of_nat k * 405)) with (405 * k)%nat by lia.
    f_equal. lia.
Qed.

Lemma length_batchAt (latLngPairs : list string) (k : nat) :
  length (batchAt latLngPairs k) = Nat.min 405 (length latLngPairs - 405 * k).
Proof. unfold batchAt. rewrite length_take, length_drop. reflexivity. Qed.

Lemma concat_batches (latLngPairs : list string) (n : nat) :
  forall k, concat (map (batchAt latLngPairs) (seq k n))
            = take (405 * n) (drop (405 * k) latLngPairs).
Proof.
  induction n as [| n IH]; intros k.
  - reflexivity.
  - cbn [seq map concat]. rewrite IH. unfold batchAt.
    replace (405 * S k)%nat with (405 * k + 405)%nat by lia.
    rewrite <- drop_drop. rewrite take_take_drop. f_equal. lia.
Qed.

Lemma storeElevations_spec (results : list ElevationApiResult.t) :
  forall j base elevations el,
    0 <= j + base ->
    storeElevations results j base elevations = Some el ->
    el = take (Z.to_nat (j + base)) elevations
           ++ map ElevationApiResult.Elevation results
           ++ drop (Z.to_nat (j + base) + length results) elevations /\
    length el = length elevations /\
    (results <> [] -> (Z.to_nat (j + base) + length results <= length elevations)%nat).
Proof.
  induction results as [| e rest IH]; intros j base elevations el Hj Hs.
  - simpl in Hs. inversion Hs; subst. simpl. rewrite Nat.add_0_r, take_drop.
    split; [reflexivity |]. split; [reflexivity | congruence].
  - cbn [storeElevations] in Hs. unfold store in Hs.
    destruct ((0 <=? j + base) && (j + base <? len elevations)) eqn:Hin; [| discriminate Hs].
    apply andb_true_iff in Hin. destruct Hin as [_ Hlt]. apply Z.ltb_lt in Hlt.
    unfold len in Hlt.
    set (n := Z.to_nat (j + base)) in *.
    assert (Hn : (n < length elevations)%nat) by lia.
    apply IH in Hs; [| lia]. destruct Hs as [Hel [Hlen Hbound]].
    replace (Z.to_nat (j + 1 + base)) with (S n) in * by lia.
    rewrite length_insert in Hlen.
    split; [| split].
    + rewrite Hel.
      rewrite (take_S_r _ n (ElevationApiResult.Elevation e))
        by (apply list_lookup_insert_eq; exact Hn).
      rewrite take_insert_ge by lia.
      rewrite drop_insert_lt by lia.
      cbn [map length]. rewrite <- !app_assoc. simpl.
      replace (n + S (length rest))%nat with (S (n + length rest)) by lia.
      reflexivity.
    + exact Hlen.
    + intros _. cbn [length]. destruct rest as [| e' rest'].
      * simpl. lia.
      * rewrite length_insert in Hbound. specialize (Hbound ltac:(congruence)). lia.
Qed.

Lemma length_concat_results (bs : list (list string)) :
  forall rss : list (list ElevationApiResult.t),
    Forall2 (fun b rs => length rs = length b) bs rss ->
    length (concat (map (map ElevationApiResult.Elevation) rss)) = length (concat bs).
Proof.
  induction bs as [| b bs IH]; intros rss HF; inversion HF; subst.
  - reflexivity.
  - simpl. rewrite !length_app, length_map. rewrite (IH _ ltac:(eassumption)). lia.
Qed.

Section Batches.

Context `{Foreign} {W : Type} (h : handler HttpE W).

Lemma requested_get url x (tr : list (obs HttpE)) :
  requested (Obs (HttpGet url) x :: tr) = url :: requested tr.
Proof. reflexivity. Qed.

Lemma requested_read resp x (tr : list (obs HttpE)) :
  requested (Obs (ReadAll resp) x :: tr) = requested tr.
Proof. reflexivity. Qed.

Lemma requested_parse body x (tr : list (obs HttpE)) :
  requested (Obs (Unmarshal body) x :: tr) = requested tr.
Proof. reflexivity. Qed.

Lemma parsed_get url x (tr : list (obs HttpE)) :
  parsed (Obs (HttpGet url) x :: tr) = parsed tr.
Proof. reflexivity. Qed.

Lemma parsed_read resp x (tr : list (obs HttpE)) :
  parsed (Obs (ReadAll resp) x :: tr) = parsed tr.
Proof. reflexivity. Qed.

Lemma parsed_parse body response (tr : list (obs HttpE)) :
  parsed (Obs (Unmarshal body) (inl response) :: tr)
  = ElevationApiResults.Results response :: parsed tr.
Proof. reflexivity. Qed.

(** A round that ends the loop early, through [leave]: its batch was
    requested, and the result is not a success. *)
Ltac left_early l k n Hq :=
  split;
  [ exists [batchAt l k], (map (batchAt l) (seq (S k) n));
    split; [reflexivity |];
    rewrite ?requested_get, ?requested_read, ?requested_parse, Hq; reflexivity
  | intros el Hel; discriminate Hel ].

(** The request loop from round [k] on, [n] rounds, on slices that hold a
    pair for each of them. *)
Lemma requestLoop_batches (key : string) (latLngPairs : list string) (n : nat) :
  forall (k : nat) elevations deferred w,
    length elevations = length latLngPairs ->
    (n = 0 \/ 405 * (k + n - 1) < length latLngPairs)%nat ->
    (exists done rest,
        map (batchAt latLngPairs) (seq k n) = done ++ rest /\
        requested (trace_of (run h (requestLoop n (Z.of_nat k) latLngPairs key
                                      elevations deferred) w))
          = map (fun b => requestURL b key) done) /\
    forall el,
      result_of (run h (requestLoop n (Z.of_nat k) latLngPairs key elevations deferred) w)
        = Ok (el, None) ->
      requested (trace_of (run h (requestLoop n (Z.of_nat k) latLngPairs key
                                    elevations deferred) w))
        = map (fun b => requestURL b key) (map (batchAt latLngPairs) (seq k n)) /\
      length el = length elevations /\
      (Forall2 (fun b rs => length rs = length b)
         (map (batchAt latLngPairs) (seq k n))
         (parsed (trace_of (run h (requestLoop n (Z.of_nat k) latLngPairs key
                                     elevations deferred) w))) ->
       let written :=
         concat (map (map ElevationApiResult.Elevation)
                   (parsed (trace_of (run h (requestLoop n (Z.of_nat k) latLngPairs key
                                               elevations deferred) w)))) in
       el = take (405 * k) elevations ++ written
              ++ drop (405 * k + length written) elevations).
Proof.
  induction n as [| n IH]; intros k elevations deferred w Hlen Hvalid.
  - cbn [requestLoop seq map].
    destruct (run_leave h deferred (Ok (elevations, @None error)) w) as [Hr [_ [Hq Hp]]].
    rewrite Hr, Hq, Hp. split.
    + exists [], []. split; reflexivity.
    + intros el Hel. inversion Hel; subst el. split; [reflexivity |].
      split; [reflexivity |]. intros _. cbn [map concat length app].
      rewrite Nat.add_0_r, take_drop. reflexivity.
  - assert (Hk : (405 * k < length latLngPairs)%nat) by lia.
    cbn [requestLoop seq map]. rewrite (slice_batchAt latLngPairs k Hk).
    set (batch := batchAt latLngPairs k).
    cbn [bind trigger run].
    destruct (h _ (HttpGet (requestURL batch key)) w) as [[resp | e1] w1].
    2:{ destruct (run_leave h deferred (Ok (elevations, Some e1)) w1) as [Hr [_ [Hq Hp]]].
        destruct (run h (leave deferred (Ok (elevations, Some e1))) w1) as [[tr r] w2].
        unfold result_of, trace_of in *. cbn [fst snd] in *. subst r.
        left_early latLngPairs k n Hq. }
    cbn [bind run].
    destruct (h _ (ReadAll resp) w1) as [[body | e2] w2].
    2:{ destruct (run_leave h (resp :: deferred) (Ok (elevations, Some e2)) w2)
          as [Hr [_ [Hq Hp]]].
        destruct (run h (leave (resp :: deferred) (Ok (elevations, Some e2))) w2)
          as [[tr r] w3].
        unfold result_of, trace_of in *. cbn [fst snd] in *. subst r.
        left_early latLngPairs k n Hq. }
    cbn [bind run].
    destruct (h _ (Unmarshal body) w2) as [[response | e3] w3].
    2:{ destruct (run_leave h (resp :: deferred) (Ok (elevations, Some e3)) w3)
          as [Hr [_ [Hq Hp]]].
        destruct (run h (leave (resp :: deferred) (Ok (elevations, Some e3))) w3)
          as [[tr r] w4].
        unfold result_of, trace_of in *. cbn [fst snd] in *. subst r.
        left_early latLngPairs k n Hq. }
    destruct (storeElevations (ElevationApiResults.Results response) 0
                (rateLimit * Z.of_nat k) elevations) as [el1 |] eqn:Hstore.
    2:{ destruct (run_leave h (resp :: deferred)
                    (@Panic (list float64 * option error)) w3) as [Hr [_ [Hq Hp]]].
        destruct (run h (leave (resp :: deferred) Panic) w3) as [[tr r] w4].
        unfold result_of, trace_of in *. cbn [fst snd] in *. subst r.
        left_early latLngPairs k n Hq. }
    apply storeElevations_spec in Hstore; [| unfold rateLimit; lia].
    replace (Z.to_nat (0 + rateLimit * Z.of_nat k)) with (405 * k)%nat in Hstore
      by (unfold rateLimit; lia).
    destruct Hstore as [Hel1 [Hlen1 Hbound]].
    replace (Z.of_nat k + 1) with (Z.of_nat (S k)) by lia.
    specialize (IH (S k) el1 (resp :: deferred) w3 ltac:(congruence) ltac:(lia)).
    destruct (run h (requestLoop n (Z.of_nat (S k)) latLngPairs key el1 (resp :: deferred)) w3)
      as [[tr r] w4].
    unfold result_of, trace_of in *. cbn [fst snd] in *.
    rewrite requested_get, requested_read, requested_parse.
    rewrite parsed_get, parsed_read, parsed_parse.
    destruct IH as [[done [rest [Hbs Hq]]] IH]. split.
    + exists (batch :: done), rest. split.
      * rewrite Hbs. reflexivity.
      * rewrite Hq. reflexivity.
    + intros el Hel. destruct (IH el Hel) as [Hq' [Hlen' Hform]].
      split; [rewrite Hq'; reflexivity |]. split; [congruence |].
      intros HF. apply Forall2_cons_1 in HF. destruct HF as [Hrs HF'].
      specialize (Hform HF'). cbv zeta in *.
      set (B := map ElevationApiResult.Elevation (ElevationApiResults.Results response)) in *.
      set (C := concat (map (map ElevationApiResult.Elevation) (parsed tr))) in *.
      cbn [map concat]. fold B C.
      assert (HB : length B = length batch) by (unfold B; rewrite length_map; exact Hrs).
      destruct n as [| n'].
      * (* the last round *)
        apply Forall2_nil_inv_l in HF'. unfold C in *. rewrite HF' in *.
        cbn [map concat length app] in *.
        rewrite Nat.add_0_r, take_drop in Hform. rewrite Hform, Hel1.
        rewrite app_nil_r. unfold B. rewrite length_map. reflexivity.
      * (* a full batch *)
        assert (Hfull : length batch = 405%nat)
          by (unfold batch; rewrite length_batchAt; lia).
        assert (HAB : (405 * S k)%nat
                      = length (take (405 * k) elevations ++ B)).
        { rewrite length_app, length_take, HB, Hfull. lia. }
        assert (Hel1' : el1 = (take (405 * k) elevations ++ B)
                                ++ drop (405 * k + 405) elevations).
        { rewrite Hel1, <- app_assoc. do 3 f_equal. rewrite Hrs, Hfull. reflexivity. }
        rewrite Hform. clear Hform Hel1. rewrite Hel1'.
        rewrite (take_app_length' _ _ _ HAB), (drop_app_add' _ _ _ _ HAB), drop_drop.
        rewrite length_app, <- !app_assoc.
        do 3 f_equal. rewrite HB, Hfull. f_equal. lia.
Qed.

End Batches.

(** ** The float ceiling of [numRequests] *)

Section FloatCeiling.

Lemma digits2_pos_size (p : positive) : digits2_pos p = Pos.size p.
Proof. induction p as [p IH | p IH |]; cbn; rewrite ?IH; reflexivity. Qed.

(** The number of binary digits of [p] is [d] exactly when
    [2 ^ (d - 1) <= p < 2 ^ d]. *)
Lemma digits2_pos_bounds (p : positive) :
  2 ^ (Z.pos (digits2_pos p) - 1) <= Z.pos p < 2 ^ Z.pos (digits2_pos p).
Proof.
  rewrite digits2_pos_size.
  pose proof (Pos.size_gt p) as Hgt. pose proof (Pos.size_le p) as Hle.
  apply Pos2Z.pos_lt_pos in Hgt. apply Pos2Z.pos_le_pos in Hle.
  rewrite Pos2Z.inj_pow in Hgt, Hle.
  pose proof (Z.pow_succ_r 2 (Z.pos (Pos.size p) - 1) ltac:(lia)) as Hs.
  replace (Z.succ (Z.pos (Pos.size p) - 1)) with (Z.pos (Pos.size p)) in Hs by lia.
  pose proof (Pos2Z.inj_xO p) as Hx. lia.
Qed.

Lemma digits2_pos_unique (p : positive) (d : Z) :
  2 ^ (d - 1) <= Z.pos p < 2 ^ d -> Z.pos (digits2_pos p) = d.
Proof.
  intros [Hlo Hhi]. pose proof (digits2_pos_bounds p) as [Hlo' Hhi'].
  assert (Hd : 0 < d).
  { destruct (Z_lt_le_dec 0 d) as [? | Hle]; [assumption |].
    exfalso. destruct (Z.eq_dec d 0) as [-> | Hne].
    - cbn in Hhi. lia.
    - rewrite Z.pow_neg_r in Hhi by lia. lia. }
  destruct (Z.lt_trichotomy (Z.pos (digits2_pos p)) d) as [Hlt | [Heq | Hgt]];
    [| exact Heq |].
  - exfalso.
    assert (2 ^ Z.pos (digits2_pos p) <= 2 ^ (d - 1)) by (apply Z.pow_le_mono_r; lia).
    lia.
  - exfalso.
    assert (2 ^ d <= 2 ^ (Z.pos (digits2_pos p) - 1)) by (apply Z.pow_le_mono_r; lia).
    lia.
Qed.


Lemma iter_xO_value (p k : positive) :
  Z.pos (Pos.iter xO p k) = Z.pos p * 2 ^ Z.pos k.
Proof.
  induction k as [| k IH] using Pos.peano_ind.
  - cbn [Pos.iter]. rewrite Pos2Z.inj_xO. change (2 ^ 1) with 2. lia.
  - rewrite Pos.iter_succ, Pos2Z.inj_xO, IH, Pos2Z.inj_succ, Z.pow_succ_r by lia. lia.
Qed.

Lemma iter_xO_digits (p k : positive) :
  digits2_pos (Pos.iter xO p k) = (digits2_pos p + k)%positive.
Proof.
  induction k as [| k IH] using Pos.peano_ind.
  - cbn [Pos.iter digits2_pos]. lia.
  - rewrite Pos.iter_succ. cbn [digits2_pos]. rewrite IH. lia.
Qed.

(** A mantissa of 53 digits with an exponent in range is a float as it
    stands. *)
Lemma binary_round_aux_exact (m : positive) (e : Z) :
  Z.pos (digits2_pos m) = 53 ->
  -1074 <= e <= 971 ->
  binary_round_aux prec emax false (Z.pos m) e loc_Exact = S754_finite false m e.
Proof.
  intros Hd He.
  assert (Hshift : fexp prec emax (Zdigits2 (Z.pos m) + e) - e = 0).
  { unfold fexp, SpecFloat.emin, prec, emax, Zdigits2. rewrite Hd. lia. }
  unfold binary_round_aux, shr_fexp. rewrite Hshift.
  cbn [shr shr_record_of_loc shr_m loc_of_shr_record round_nearest_even].
  rewrite Hshift. cbn [shr shr_record_of_loc shr_m].
  replace (e <=? emax - prec) with true
    by (symmetry; apply Z.leb_le; unfold emax, prec; lia).
  reflexivity.
Qed.

(** [float64(n)] for a positive [n] below [2 ^ 53] is [n] itself, on a
    mantissa of 53 digits. *)
Lemma Prim2SF_float64_of_int (n : Z) :
  0 < n < 2 ^ 53 ->
  exists m e,
    Prim2SF (float64_of_int n) = S754_finite false m e /\
    Z.pos (digits2_pos m) = 53 /\
    -52 <= e <= 0 /\
    Z.pos m = n * 2 ^ (- e).
Proof.
  intros Hn. unfold float64_of_int.
  replace (n <? 0) with false by (symmetry; apply Z.ltb_ge; lia).
  rewrite of_uint63_spec, Uint63.of_Z_spec.
  rewrite Z.mod_small by (change Uint63Axioms.wB with (2 ^ 63); split; [lia |];
                          apply (Z.lt_trans _ (2 ^ 53)); [lia | reflexivity]).
  destruct n as [| p |]; try lia.
  pose proof (digits2_pos_bounds p) as [Hlo Hhi].
  set (d := Z.pos (digits2_pos p)) in *.
  assert (Hd : 1 <= d <= 53).
  { split; [unfold d; lia |].
    destruct (Z_le_gt_dec d 53) as [? | Hgt]; [assumption |]. exfalso.
    assert (2 ^ 53 <= 2 ^ (d - 1)) by (apply Z.pow_le_mono_r; lia). lia. }
  cbn [binary_normalize]. unfold binary_round.
  assert (Hfexp : fexp prec emax (Z.pos (digits2_pos p) + 0) = d - 53).
  { unfold fexp, SpecFloat.emin, prec, emax. fold d. lia. }
  rewrite Hfexp. unfold shl_align.
  destruct (d - 53 - 0) as [| k | k] eqn:Hk; try lia.
  - exists p, 0. split; [apply binary_round_aux_exact; [fold d; lia | lia] |].
    split; [fold d; lia |]. split; [lia |]. cbn. lia.
  - exists (Pos.iter xO p k), (d - 53).
    split.
    { apply binary_round_aux_exact; [| lia].
      rewrite iter_xO_digits, Pos2Z.inj_add. fold d. lia. }
    split; [rewrite iter_xO_digits, Pos2Z.inj_add; fold d; lia |].
    split; [lia |].
    rewrite iter_xO_value. f_equal. f_equal. lia.
Qed.


(** The second alignment of a rounding: a mantissa of 53 digits stays, and
    [2 ^ 53] becomes [2 ^ 52] one exponent up. *)
Lemma shr_fexp_rounded (mr e : Z) :
  2 ^ 52 <= mr <= 2 ^ 53 ->
  -1074 <= e ->
  exists mf ef,
    shr_fexp prec emax mr e loc_Exact
      = ({| shr_m := Z.pos mf; shr_r := false; shr_s := false |}, ef) /\
    Z.pos mf * 2 ^ (ef - e) = mr /\
    e <= ef <= e + 1.
Proof.
  intros Hmr He. destruct mr as [| p |]; try lia.
  destruct (Z.eq_dec (Z.pos p) (2 ^ 53)) as [Heq | Hne].
  - assert (Hp : p = 9007199254740992%positive) by lia. subst p.
    exists 4503599627370496%positive, (e + 1).
    unfold shr_fexp. change (Zdigits2 (Z.pos 9007199254740992)) with 54.
    replace (fexp prec emax (54 + e) - e) with 1
      by (unfold fexp, SpecFloat.emin, prec, emax; lia).
    cbn [shr SpecFloat.iter_pos shr_record_of_loc shr_1 orb].
    split; [reflexivity |]. split; [| lia].
    replace (e + 1 - e) with 1 by lia. reflexivity.
  - exists p, e. unfold shr_fexp.
    assert (Hd : Z.pos (digits2_pos p) = 53) by (apply digits2_pos_unique; lia).
    cbn [Zdigits2]. rewrite Hd.
    replace (fexp prec emax (53 + e) - e) with 0
      by (unfold fexp, SpecFloat.emin, prec, emax; lia).
    cbn [shr shr_record_of_loc].
    split; [reflexivity |]. split; [| lia].
    rewrite Z.sub_diag. cbn. lia.
Qed.

(** Rounding a quotient [q] of 53 or 54 digits at exponent [e]: the float
    is [q] when the quotient is exact (and even), and [q] or [q + 1]
    otherwise. *)
Lemma binary_round_aux_quotient (q e : Z) (l : location) :
  2 ^ 52 <= q < 2 ^ 54 ->
  -1074 <= e <= 900 ->
  l = loc_Exact \/ l = loc_Inexact Lt \/ l = loc_Inexact Gt ->
  (l = loc_Exact -> Z.even q = true) ->
  exists mf ef,
    binary_round_aux prec emax false q e l = S754_finite false mf ef /\
    e <= ef <= e + 2 /\
    q <= Z.pos mf * 2 ^ (ef - e) <= q + 1 /\
    (l = loc_Exact -> Z.pos mf * 2 ^ (ef - e) = q).
Proof.
  intros Hq He Hl Heven. destruct q as [| p |]; try lia.
  unfold binary_round_aux.
  destruct (Z_lt_le_dec (Z.pos p) (2 ^ 53)) as [Hlt | Hge].
  - (* 53 digits: no shift before the rounding *)
    assert (Hd : Z.pos (digits2_pos p) = 53) by (apply digits2_pos_unique; lia).
    unfold shr_fexp at 1. cbn [Zdigits2]. rewrite Hd.
    replace (fexp prec emax (53 + e) - e) with 0
      by (unfold fexp, SpecFloat.emin, prec, emax; lia).
    cbn [shr].
    set (mr := round_nearest_even (shr_m (shr_record_of_loc (Z.pos p) l))
                 (loc_of_shr_record (shr_record_of_loc (Z.pos p) l))).
    assert (Hmr : Z.pos p <= mr <= Z.pos p + 1 /\ (l = loc_Exact -> mr = Z.pos p)).
    { unfold mr. destruct Hl as [-> | [-> | ->]]; cbn; split; try lia; discriminate. }
    destruct Hmr as [Hmr Hexact].
    destruct (shr_fexp_rounded mr e ltac:(lia) ltac:(lia)) as [mf [ef [Hs [Hv Hef]]]].
    rewrite Hs. cbn [shr_m].
    replace (ef <=? emax - prec) with true
      by (symmetry; apply Z.leb_le; unfold emax, prec; lia).
    exists mf, ef. split; [reflexivity |]. split; [lia |]. rewrite Hv.
    split; [lia | exact Hexact].
  - (* 54 digits: one shift before the rounding *)
    assert (Hd : Z.pos (digits2_pos p) = 54) by (apply digits2_pos_unique; lia).
    unfold shr_fexp at 1. cbn [Zdigits2]. rewrite Hd.
    replace (fexp prec emax (54 + e) - e) with 1
      by (unfold fexp, SpecFloat.emin, prec, emax; lia).
    cbn [shr SpecFloat.iter_pos].
    set (mrs := shr_1 (shr_record_of_loc (Z.pos p) l)).
    set (mr := round_nearest_even (shr_m mrs) (loc_of_shr_record mrs)).
    assert (Hmr : Z.pos p <= 2 * mr <= Z.pos p + 1 /\ (l = loc_Exact -> 2 * mr = Z.pos p)).
    { unfold mr, mrs. destruct p as [p | p |]; [| | lia].
      - (* odd *)
        destruct Hl as [-> | [-> | ->]].
        + specialize (Heven eq_refl). discriminate Heven.
        + cbn. split; [lia | discriminate].
        + cbn. split; [lia | discriminate].
      - (* even *)
        destruct Hl as [-> | [-> | ->]]; cbn; split; try lia; discriminate. }
    destruct Hmr as [Hmr Hexact].
    destruct (shr_fexp_rounded mr (e + 1) ltac:(lia) ltac:(lia)) as [mf [ef [Hs [Hv Hef]]]].
    rewrite Hs. cbn [shr_m].
    replace (ef <=? emax - prec) with true
      by (symmetry; apply Z.leb_le; unfold emax, prec; lia).
    exists mf, ef. split; [reflexivity |]. split; [lia |].
    assert (Hval : Z.pos mf * 2 ^ (ef - e) = 2 * mr).
    { replace (ef - e) with (Z.succ (ef - (e + 1))) by lia.
      rewrite Z.pow_succ_r by lia. lia. }
    rewrite Hval. split; [lia | exact Hexact].
Qed.


(** [int(float64(c))] is [c] for a positive [c] below [2 ^ 53]. *)
Lemma int_of_float64_of_int (c : Z) :
  0 < c < 2 ^ 53 -> int_of_float64 (float64_of_int c) = c.
Proof.
  intros Hc. destruct (Prim2SF_float64_of_int c Hc) as [m [e [Hsf [_ [He Hm]]]]].
  unfold int_of_float64. rewrite Hsf.
  assert (Hv : (if 0 <=? e then Z.shiftl (Z.pos m) e else Z.shiftr (Z.pos m) (- e)) = c).
  { destruct (Z.leb_spec 0 e) as [Hle | Hlt].
    - assert (e = 0) by lia. subst e. rewrite Z.shiftl_0_r, Hm. cbn. lia.
    - rewrite Z.shiftr_div_pow2 by lia. rewrite Hm.
      apply Z.div_mul. apply Z.pow_nonzero; lia. }
  cbv zeta. rewrite Hv.
  replace ((min_int <=? c) && (c <=? max_int)) with true; [reflexivity |].
  symmetry. apply andb_true_iff. unfold min_int, max_int.
  split; [apply Z.leb_le | apply Z.leb_le]; lia.
Qed.

(** The division by [float64(405)], before its rounding. *)
Lemma SFdiv_rateLimit (m1 : positive) (e1 : Z) :
  Z.pos (digits2_pos m1) = 53 ->
  -52 <= e1 <= 0 ->
  SF64div (S754_finite false m1 e1) (Prim2SF (float64_of_int rateLimit))
  = binary_round_aux prec emax false
      ((Z.pos m1 * 2 ^ 53) / 7124835347988480) (e1 - 9)
      (new_location 7124835347988480 ((Z.pos m1 * 2 ^ 53) mod 7124835347988480)).
Proof.
  intros Hd He.
  replace (Prim2SF (float64_of_int rateLimit))
    with (S754_finite false 7124835347988480 (-44)) by (vm_compute; reflexivity).
  unfold SF64div, SFdiv, SFdiv_core_binary. cbn [xorb Zdigits2]. rewrite Hd.
  change (Z.pos (digits2_pos 7124835347988480)) with 53.
  replace (Z.min (fexp prec emax (53 + e1 - (53 + -44))) (e1 - -44)) with (e1 - 9)
    by (unfold fexp, SpecFloat.emin, prec, emax; lia).
  replace (e1 - -44 - (e1 - 9)) with 53 by lia.
  rewrite Z.shiftl_mul_pow2 by lia.
  unfold Z.div, Z.modulo.
  destruct (Z.div_eucl (Z.pos m1 * 2 ^ 53) 7124835347988480) as [q r]. reflexivity.
Qed.


(** On every length below [2 ^ 53] the float ceiling of [numRequests] is
    the exact one. *)
Lemma numRequests_ceiling (n : Z) :
  0 <= n < 2 ^ 53 -> numRequests n = (n + 404) / 405.
Proof.
  intros Hn. destruct (Z.eq_dec n 0) as [-> | Hne]; [vm_compute; reflexivity |].
  assert (Hpos : 0 < n < 2 ^ 53) by lia.
  destruct (Prim2SF_float64_of_int n Hpos) as [m1 [e1 [Hsf [Hd [He Hm]]]]].
  pose proof (digits2_pos_bounds m1) as Hm1. rewrite Hd in Hm1.
  change (2 ^ (53 - 1)) with 4503599627370496 in Hm1.
  change (2 ^ 53) with 9007199254740992 in *.
  set (T := 2 ^ (9 - e1)).
  assert (HT : 512 <= T).
  { change 512 with (2 ^ 9). apply Z.pow_le_mono_r; lia. }
  assert (HN : Z.pos m1 * 512 = n * T).
  { unfold T. replace (9 - e1) with (- e1 + 9) by lia.
    rewrite Z.pow_add_r by lia. change (2 ^ 9) with 512. rewrite Hm. ring. }
  set (q := (n * T) / 405). set (rho := (n * T) mod 405).
  pose proof (Z.div_mod (n * T) 405 ltac:(lia)) as Hdm. fold q rho in Hdm.
  pose proof (Z.mod_pos_bound (n * T) 405 ltac:(lia)) as Hrho. fold rho in Hrho.
  assert (Hq : Z.pos m1 * 9007199254740992 / 7124835347988480 = q).
  { unfold q. rewrite <- HN.
    replace (Z.pos m1 * 9007199254740992) with (Z.pos m1 * 512 * 17592186044416) by lia.
    change 7124835347988480 with (405 * 17592186044416).
    apply Z.div_mul_cancel_r; lia. }
  assert (Hr : (Z.pos m1 * 9007199254740992) mod 7124835347988480 = rho * 17592186044416).
  { unfold rho. rewrite <- HN.
    replace (Z.pos m1 * 9007199254740992) with (Z.pos m1 * 512 * 17592186044416) by lia.
    change 7124835347988480 with (405 * 17592186044416).
    apply Z.mul_mod_distr_r; lia. }
  set (l := new_location 7124835347988480 (rho * 17592186044416)).
  assert (Hl : (l = loc_Exact \/ l = loc_Inexact Lt \/ l = loc_Inexact Gt) /\
               (l = loc_Exact <-> rho = 0)).
  { unfold l, new_location. change (Z.even 7124835347988480) with true.
    unfold new_location_even.
    destruct (Z.eqb_spec (rho * 17592186044416) 0) as [Hz | Hnz].
    - split; [left; reflexivity |]. split; [lia | reflexivity].
    - destruct (Z.compare_spec (2 * (rho * 17592186044416)) 7124835347988480)
        as [Heq | Hlt | Hgt].
      + exfalso. lia.
      + split; [right; left; reflexivity |]. split; [discriminate | lia].
      + split; [right; right; reflexivity |]. split; [discriminate | lia]. }
  destruct Hl as [Hl Hexact].
  assert (Hqb : 4503599627370496 <= q < 18014398509481984) by lia.
  assert (Heven : l = loc_Exact -> Z.even q = true).
  { intros Hex. apply Hexact in Hex.
    destruct (Z.even q) eqn:Hev; [reflexivity |]. exfalso.
    assert (Hodd : Z.odd q = true) by (rewrite <- Z.negb_even, Hev; reflexivity).
    apply Z.odd_spec in Hodd. destruct Hodd as [q' Hq']. lia. }
  destruct (binary_round_aux_quotient q (e1 - 9) l ltac:(exact Hqb) ltac:(lia) Hl Heven)
    as [mf [ef [Hbra [Hef [HV HVexact]]]]].
  assert (Hx : Prim2SF (float64_of_int n / float64_of_int rateLimit)
               = S754_finite false mf ef).
  { rewrite div_spec, Hsf, (SFdiv_rateLimit m1 e1 Hd He).
    change (2 ^ 53) with 9007199254740992. rewrite Hq, Hr. exact Hbra. }
  (* the ceiling of the rounded quotient *)
  set (V := Z.pos mf * 2 ^ (ef - (e1 - 9))) in *.
  assert (Hc : 0 < 2 ^ (ef - (e1 - 9))) by (apply Z.pow_pos_nonneg; lia).
  assert (Hd2 : 0 < 2 ^ (- ef)) by (apply Z.pow_pos_nonneg; lia).
  assert (HTsplit : T = 2 ^ (- ef) * 2 ^ (ef - (e1 - 9))).
  { unfold T. rewrite <- Z.pow_add_r by lia. f_equal. lia. }
  assert (Hshift : Z.shiftr (- Z.pos mf) (- ef) = (- V) / T).
  { rewrite Z.shiftr_div_pow2 by lia. rewrite HTsplit. unfold V.
    rewrite <- Z.mul_opp_l. symmetry. apply Z.div_mul_cancel_r; lia. }
  pose proof (Z.div_mod n 405 ltac:(lia)) as Hnk.
  pose proof (Z.mod_pos_bound n 405 ltac:(lia)) as Hj.
  set (k := n / 405) in *. set (j := n mod 405) in *.
  assert (HnT : n * T = 405 * (k * T) + j * T) by (rewrite Hnk at 1; ring).
  clearbody k j V l q rho T.
  pose proof (Z.div_mod (n + 404) 405 ltac:(lia)) as HC1.
  pose proof (Z.mod_pos_bound (n + 404) 405 ltac:(lia)) as HC2.
  set (C := (n + 404) / 405) in *. clearbody C.
  assert (Hceil : - Z.shiftr (- Z.pos mf) (- ef) = C).
  { rewrite Hshift. destruct (Z.eq_dec j 0) as [Hj0 | Hjpos].
    - (* a multiple of 405: the quotient is exact *)
      rewrite Hj0 in HnT. assert (Hrho0 : rho = 0) by lia.
      rewrite (HVexact (proj2 Hexact Hrho0)).
      assert (Hqk : q = k * T) by lia. rewrite Hqk.
      replace (- (k * T)) with (- k * T) by ring.
      rewrite Z.div_mul by lia. lia.
    - assert (HjT : T <= j * T <= 404 * T) by nia.
      assert (HVk : k * T < V <= (k + 1) * T) by lia.
      assert (Hdiv : (- V) / T = - (k + 1)).
      { symmetry. apply (Z.div_unique (- V) T (- (k + 1)) ((k + 1) * T - V)); [lia | ring]. }
      rewrite Hdiv. lia. }
  unfold numRequests, Ceil. rewrite Hx.
  replace (0 <=? ef) with false by (symmetry; apply Z.leb_gt; lia).
  cbv zeta. change (- Z.shiftr (- Z.pos mf) (- ef)) with (- Z.shiftr (- Z.pos mf) (- ef)).
  rewrite Hceil.
  assert (HC : 0 < C < 9007199254740992) by lia.
  replace (C =? 0) with false by (symmetry; apply Z.eqb_neq; lia).
  apply int_of_float64_of_int. change (2 ^ 53) with 9007199254740992. exact HC.
Qed.

End FloatCeiling.

(** Far beyond, the float ceiling falls short: [float64] rounds the length
    405 * 2 ^ 45 + 1 down, and the ceiling is one below the exact one. *)
Example numRequests_beyond :
  numRequests (405 * 2 ^ 45 + 1) = 2 ^ 45 /\
  (405 * 2 ^ 45 + 1 + 404) / 405 = 2 ^ 45 + 1.
Proof. split; vm_compute; reflexivity. Qed.

(** On the lengths of up to 250 full batches the float ceiling of
    [numRequests] is exact. *)
Lemma numRequests_exact (n : Z) :
  0 <= n <= checkedLen -> numRequests n = (n + 404) / 405.
Proof.
  intros Hn. apply numRequests_ceiling. unfold checkedLen in Hn.
  change (2 ^ 53) with 9007199254740992. lia.
Qed.

(** ** The scan of a round *)

Section Scan.

Context `{Foreign} {W : Type} (h : handler HuntE W).

(** The run of the closure [f], by the answers it gets. *)
Lemma run_requestMapObjects (db : mapsql.DbConnection) (t : TrainerSession.t) (w : W) :
  let call := GetPlayerMap (TrainerSession.Session t) (TrainerSession.Context t) in
  let store := AddScannedLocation db (Lat (TrainerSession.Location t))
                                  (Lon (TrainerSession.Location t)) in
  run h (requestMapObjects db t) w =
  match fst (h _ call w) with
  | inr err => ([Obs call (inr err)], Some err, snd (h _ call w))
  | inl r =>
      let w1 := snd (h _ call w) in
      let w2 := snd (h _ (SendResult r) w1) in
      ([Obs call (inl r); Obs (SendResult r) tt; Obs store (fst (h _ store w2))],
       fst (h _ store w2), snd (h _ store w2))
  end.
Proof.
  unfold requestMapObjects. cbn [bind trigger run].
  destruct (h _ (GetPlayerMap _ _) w) as [[r | err] w1]; cbn [fst snd bind run]; [| reflexivity].
  destruct (h _ (SendResult r) w1) as [[] w2]. cbn [fst snd bind run].
  destruct (h _ (AddScannedLocation _ _ _) w2) as [[err |] w3]; reflexivity.
Qed.

(** The run of the scan, by the result of the first call of [f]. *)
Lemma run_scan (db : mapsql.DbConnection) (t : TrainerSession.t) (w : W) :
  let first := run h (requestMapObjects db t) w in
  trace_of (run h (scan db t) w) =
  match result_of first with
  | Some e =>
      if decide (e = ErrNewRPCURL) then
        let w1 := snd (h _ Tick (world_of first)) in
        let second := run h (requestMapObjects db t) w1 in
        trace_of first ++ Obs Tick tt :: trace_of second ++ scanLog (result_of second)
      else trace_of first ++ scanLog (Some e)
  | None => trace_of first
  end.
Proof.
  cbv zeta. unfold scan. rewrite run_bind.
  destruct (run h (requestMapObjects db t) w) as [[tr1 r1] w1].
  unfold trace_of, result_of, world_of. cbn [fst snd].
  destruct r1 as [e |].
  - destruct (decide (e = ErrNewRPCURL)) as [-> | Hne].
    + rewrite run_bind. cbn [bind trigger run].
      destruct (h _ Tick w1) as [[] w2]. cbn [fst snd].
      destruct (run h (requestMapObjects db t) w2) as [[tr2 r2] w3].
      cbn [fst snd].
      destruct r2 as [e2 |]; cbn [trigger run scanLog].
      * destruct (h _ (Log (LogError e2)) w3) as [[] w4]. cbn [fst app].
        reflexivity.
      * cbn [fst]. rewrite !app_nil_r. reflexivity.
    + rewrite run_bind. cbn [run trigger]. cbn [scanLog].
      destruct (h _ (Log (LogError e)) w1) as [[] w2]. cbn [fst app].
      reflexivity.
  - rewrite run_bind. cbn [run fst app]. rewrite !app_nil_r. reflexivity.
Qed.

(** The scan makes at most two map-objects calls. *)
Lemma scan_at_most_two_calls (db : mapsql.DbConnection) (t : TrainerSession.t) (w : W) :
  (countObs isMapCall (trace_of (run h (scan db t) w)) <= 2)%nat.
Proof.
  rewrite run_scan. cbv zeta. rewrite !run_requestMapObjects. cbv zeta.
  unfold trace_of, result_of, world_of.
  destruct (fst (h _ (GetPlayerMap _ _) w)) as [r1 | e1]; cbn [fst snd].
  - destruct (fst (h _ (AddScannedLocation _ _ _) _)) as [e1 |]; [| cbn; lia].
    destruct (decide (e1 = ErrNewRPCURL)); [| cbn; lia].
    destruct (fst (h _ (GetPlayerMap _ _) _)) as [r2 | e2]; cbn [fst snd].
    + destruct (fst (h _ (AddScannedLocation _ _ _) _)); cbn; lia.
    + cbn. lia.
  - destruct (decide (e1 = ErrNewRPCURL)); [| cbn; lia].
    destruct (fst (h _ (GetPlayerMap _ _) _)) as [r2 | e2]; cbn [fst snd].
    + destruct (fst (h _ (AddScannedLocation _ _ _) _)); cbn; lia.
    + cbn. lia.
Qed.

(** The run of a round from the wait for the time slot on. *)
Lemma run_huntAt (ScanDelay : Z) (db : mapsql.DbConnection) (t : TrainerSession.t) (w : W) :
  let recv := RecvLocation (Go.mul 30 time.Second) in
  let w1 := snd (h _ Tick w) in
  match fst (h _ recv w1) with
  | None =>
      run h (huntAt ScanDelay db t) w =
      ([Obs Tick tt; Obs recv None; Obs (Log FailedToGetNewLocation) tt], None,
       snd (h _ (Log FailedToGetNewLocation) (snd (h _ recv w1))))
  | Some l =>
      let t' := TrainerSession.setLocation t l in
      let w2 := snd (h _ (SessionMoveTo (TrainerSession.Session t) l) (snd (h _ recv w1))) in
      let w3 := snd (h _ (Log (HuntingAt (Lat l) (Lon l) (TrainerSession.Username t))) w2) in
      trace_of (run h (huntAt ScanDelay db t) w) =
        [Obs Tick tt; Obs recv (Some l);
         Obs (SessionMoveTo (TrainerSession.Session t) l) tt;
         Obs (Log (HuntingAt (Lat l) (Lon l) (TrainerSession.Username t))) tt]
        ++ trace_of (run h (scan db t') w3)
        ++ [Obs (Sleep (Go.mul ScanDelay time.Second)) tt] /\
      result_of (run h (huntAt ScanDelay db t) w) = Some t'
  end.
Proof.
  cbv zeta. unfold huntAt. cbn [bind trigger run].
  destruct (h _ Tick w) as [[] w1]. cbn [fst snd bind run].
  destruct (h _ (RecvLocation _) w1) as [[l |] w2]; cbn [fst snd bind run].
  - unfold MoveTo. cbn [bind trigger run TrainerSession.setLocation
                          TrainerSession.Session TrainerSession.Location
                          TrainerSession.Username].
    destruct (h _ (SessionMoveTo _ _) w2) as [[] w3]. cbn [fst snd bind run].
    destruct (h _ (Log (HuntingAt _ _ _)) w3) as [[] w4]. cbn [fst snd bind run].
    rewrite run_bind.
    destruct (run h (scan db _) w4) as [[trs []] w5].
    cbn [bind trigger run].
    destruct (h _ (Sleep _) w5) as [[] w6]. unfold trace_of, result_of. cbn [fst snd app].
    split; reflexivity.
  - destruct (h _ (Log FailedToGetNewLocation) w2) as [[] w3]. reflexivity.
Qed.

(** A round returns from the wait for a location only: no error of the
    scan ends it. *)
Lemma huntAt_returns_on_timeout_only (ScanDelay : Z) (db : mapsql.DbConnection)
    (t : TrainerSession.t) (w : W) :
  result_of (run h (huntAt ScanDelay db t) w) = None ->
  fst (h _ (RecvLocation (Go.mul 30 time.Second)) (snd (h _ Tick w))) = None.
Proof.
  intros Hr. pose proof (run_huntAt ScanDelay db t w) as Hrun. cbv zeta in Hrun.
  destruct (fst (h _ (RecvLocation _) (snd (h _ Tick w)))) as [l |]; [| reflexivity].
  destruct Hrun as [_ Hres]. rewrite Hres in Hr. discriminate Hr.
Qed.

End Scan.

(** C4. In the scan of a round: when the first map-objects call fails with
    [ErrNewRPCURL], the worker takes exactly one more permit and calls once
    more, and whatever that call answers, no further call or permit
    follows; a second failure is logged and nothing was published. Any other
    error of the first call is logged at once, with no retry and nothing
    published. The scan makes at most two calls in all, and no error of it
    makes the round return: a round that reached the wait for a location
    returns only when that wait times out. *)
Theorem C4_relocated_call_retried_once :
  forall (F : Foreign) (W : Type) (h : handler HuntE W) (db : mapsql.DbConnection)
         (t : TrainerSession.t) (w : W),
    let call := GetPlayerMap (TrainerSession.Session t) (TrainerSession.Context t) in
    let a1 := fst (h _ call w) in
    let a2 := fst (h _ call (snd (h _ Tick (snd (h _ call w))))) in
    (a1 = inr ErrNewRPCURL ->
     exists rest,
       trace_of (run h (scan db t) w) = Obs call a1 :: Obs Tick tt :: Obs call a2 :: rest /\
       countObs isMapCall rest = 0%nat /\
       countObs isTick rest = 0%nat /\
       forall e2, a2 = inr e2 -> rest = [Obs (Log (LogError e2)) tt]) /\
    (forall e1, a1 = inr e1 -> e1 <> ErrNewRPCURL ->
       trace_of (run h (scan db t) w) = [Obs call a1; Obs (Log (LogError e1)) tt]) /\
    (countObs isMapCall (trace_of (run h (scan db t) w)) <= 2)%nat /\
    (forall ScanDelay w0,
        result_of (run h (huntAt ScanDelay db t) w0) = None ->
        fst (h _ (RecvLocation (Go.mul 30 time.Second)) (snd (h _ Tick w0))) = None).
Proof.
  intros F W h db t w. cbv zeta.
  split; [| split; [| split]].
  - intros Ha1. rewrite run_scan. cbv zeta. rewrite !run_requestMapObjects. cbv zeta.
    rewrite Ha1. unfold trace_of, result_of, world_of. cbn [fst snd].
    destruct (decide (ErrNewRPCURL = ErrNewRPCURL)) as [_ | Hne]; [| congruence].
    destruct (fst (h _ (GetPlayerMap _ _) (snd (h _ Tick _)))) as [r2 | e2];
      cbn [fst snd app].
    + eexists. split; [reflexivity |].
      destruct (fst (h _ (AddScannedLocation _ _ _) _));
        (split; [reflexivity |]; split; [reflexivity |]; intros e2 He2; discriminate He2).
    + eexists. split; [reflexivity |]. split; [reflexivity |]. split; [reflexivity |].
      intros e He. inversion He; subst. reflexivity.
  - intros e1 Ha1 Hne. rewrite run_scan. cbv zeta. rewrite !run_requestMapObjects.
    cbv zeta. rewrite Ha1. unfold trace_of, result_of, world_of. cbn [fst snd].
    destruct (decide (e1 = ErrNewRPCURL)) as [He | _]; [contradiction |].
    reflexivity.
  - apply scan_at_most_two_calls.
  - intros ScanDelay w0. apply huntAt_returns_on_timeout_only.
Qed.

(** C4 at an input: the first call is relocated, the second fails with
    error 5. *)
Lemma C4_witness :
  trace_of (run scripted (scan database (trainer 1))
              {| inits := []; waits := []; maps := [inr 0%nat; inr 5%nat]; stores := [] |})
  = [Obs (@GetPlayerMap numbered 1%nat tt) (inr 0%nat); Obs (@Tick numbered) tt;
     Obs (@GetPlayerMap numbered 1%nat tt) (inr 5%nat);
     Obs (@Log numbered (@LogError numbered 5%nat)) tt].
Proof.
  destruct (proj1 (C4_relocated_call_retried_once numbered script scripted database
                     (trainer 1)
                     {| inits := []; waits := []; maps := [inr 0%nat; inr 5%nat];
                        stores := [] |}) eq_refl)
    as [rest [Htrace [_ [_ Hrest]]]].
  rewrite Htrace, (Hrest 5%nat eq_refl). reflexivity.
Defined.

(** C10. When the map-objects call succeeds and the scan store then fails,
    the response is already in the results: the closure [f] has published it
    before it calls the store, and returns the store's error as it returns
    an error of the call. The scan treats it alike: were it [ErrNewRPCURL],
    a permit would be taken and [f] called again; any other error is logged,
    and the round goes on to its pause (a round returns from the wait for a
    location only). *)
Theorem C10_store_error_after_publish :
  forall (F : Foreign) (W : Type) (h : handler HuntE W) (db : mapsql.DbConnection)
         (t : TrainerSession.t) (w : W) (r : protos_GetMapObjectsResponse) (e : error),
    let call := GetPlayerMap (TrainerSession.Session t) (TrainerSession.Context t) in
    let store := AddScannedLocation db (Lat (TrainerSession.Location t))
                                    (Lon (TrainerSession.Location t)) in
    let w2 := snd (h _ (SendResult r) (snd (h _ call w))) in
    let w3 := snd (h _ store w2) in
    fst (h _ call w) = inl r ->
    fst (h _ store w2) = Some e ->
    run h (requestMapObjects db t) w
      = ([Obs call (inl r); Obs (SendResult r) tt; Obs store (Some e)], Some e, w3) /\
    (e = ErrNewRPCURL ->
     exists rest,
       trace_of (run h (scan db t) w)
       = [Obs call (inl r); Obs (SendResult r) tt; Obs store (Some e); Obs Tick tt;
          Obs call (fst (h _ call (snd (h _ Tick w3))))] ++ rest) /\
    (e <> ErrNewRPCURL ->
     trace_of (run h (scan db t) w)
     = [Obs call (inl r); Obs (SendResult r) tt; Obs store (Some e);
        Obs (Log (LogError e)) tt]) /\
    (forall ScanDelay w0,
        result_of (run h (huntAt ScanDelay db t) w0) = None ->
        fst (h _ (RecvLocation (Go.mul 30 time.Second)) (snd (h _ Tick w0))) = None).
Proof.
  intros F W h db t w r e. cbv zeta. intros Hcall Hstore.
  assert (Hf : run h (requestMapObjects db t) w
               = ([Obs (GetPlayerMap (TrainerSession.Session t) (TrainerSession.Context t))
                       (inl r);
                   Obs (SendResult r) tt;
                   Obs (AddScannedLocation db (Lat (TrainerSession.Location t))
                                           (Lon (TrainerSession.Location t))) (Some e)],
                  Some e,
                  snd (h _ (AddScannedLocation db (Lat (TrainerSession.Location t))
                                               (Lon (TrainerSession.Location t)))
                         (snd (h _ (SendResult r)
                                 (snd (h _ (GetPlayerMap (TrainerSession.Session t)
                                              (TrainerSession.Context t)) w))))))).
  { rewrite run_requestMapObjects. cbv zeta. rewrite Hcall. cbv zeta.
    rewrite Hstore. reflexivity. }
  split; [exact Hf |]. split; [| split].
  - intros ->. rewrite run_scan. cbv zeta. rewrite Hf.
    unfold trace_of, result_of, world_of. cbn [fst snd].
    destruct (decide (ErrNewRPCURL = ErrNewRPCURL)) as [_ | Hne]; [| congruence].
    rewrite run_requestMapObjects. cbv zeta.
    destruct (fst (h _ (GetPlayerMap _ _) (snd (h _ Tick _)))) as [r2 | e2];
      cbn [fst snd app]; eexists; reflexivity.
  - intros Hne. rewrite run_scan. cbv zeta. rewrite Hf.
    unfold trace_of, result_of, world_of. cbn [fst snd].
    destruct (decide (e = ErrNewRPCURL)) as [He | _]; [contradiction |].
    reflexivity.
  - intros ScanDelay w0. apply huntAt_returns_on_timeout_only.
Qed.

(** C10 at an input: the call answers response 9, the store fails with
    error 3. *)
Lemma C10_witness :
  run scripted (requestMapObjects database (trainer 1))
      {| inits := []; waits := []; maps := [inl 9%nat]; stores := [Some 3%nat] |}
  = ([Obs (@GetPlayerMap numbered 1%nat tt) (inl 9%nat);
      Obs (@SendResult numbered 9%nat) tt;
      Obs (@AddScannedLocation numbered database 0%float 0%float) (Some 3%nat)],
     Some 3%nat,
     {| inits := []; waits := []; maps := []; stores := [] |}).
Proof.
  exact (proj1 (C10_store_error_after_publish numbered script scripted database (trainer 1)
                  {| inits := []; waits := []; maps := [inl 9%nat];
                     stores := [Some 3%nat] |} 9%nat 3%nat eq_refl eq_refl)).
Defined.

(** ** The login check of a round *)

Lemma countObs_app {E} (p : obs E -> bool) (tr1 tr2 : list (obs E)) :
  countObs p (tr1 ++ tr2) = (countObs p tr1 + countObs p tr2)%nat.
Proof. induction tr1 as [| o tr1 IH]; simpl; [reflexivity | rewrite IH; lia]. Qed.

Section LoginCheck.

Context `{Foreign} {W : Type} (h : handler HuntE W).

Lemma run_Login (t : TrainerSession.t) (w : W) :
  exists ltr out,
    LoginObs t ltr out /\
    trace_of (run h (Login t) w) = ltr /\
    result_of (run h (Login t) w)
      = match out with
        | inl session => (TrainerSession.setSession t session, None)
        | inr err => (t, Some err)
        end /\
    (ExpiryStable h ->
     forall session, expired h session w -> expired h session (world_of (run h (Login t) w))).
Proof.
  unfold Login. cbn [bind trigger run].
  pose proof (fun (Hs : ExpiryStable h) s => Hs s w _ (NewProvider (TrainerSession.Provider t)
                                      (TrainerSession.Username t)
                                      (TrainerSession.Password t)) eq_refl) as Hw1.
  destruct (h _ (NewProvider _ _ _) w) as [[provider | err] w1]; cbn [fst snd bind run] in *.
  - pose proof (fun (Hs : ExpiryStable h) s =>
                  Hs s w1 _ (SessionInit provider (TrainerSession.Location t)
                                         (TrainerSession.Feed t) (TrainerSession.Crypto t)
                                         (TrainerSession.Context t)) eq_refl) as Hw2.
    destruct (h _ (SessionInit _ _ _ _ _) w1) as [[session | err] w2];
      cbn [fst snd bind run] in *.
    + eexists _, (inl session). split; [apply login_succeeded |].
      split; [reflexivity |]. split; [reflexivity |].
      intros Hs s Hexp. apply (Hw2 Hs), (Hw1 Hs), Hexp.
    + eexists _, (inr err). split; [apply login_init_failed |].
      split; [reflexivity |]. split; [reflexivity |].
      intros Hs s Hexp. apply (Hw2 Hs), (Hw1 Hs), Hexp.
  - eexists _, (inr err). split; [apply login_no_provider |].
    split; [reflexivity |]. split; [reflexivity |].
    intros Hs s Hexp. apply (Hw1 Hs), Hexp.
Qed.

Lemma run_loginAttempt (i : Z) (t : TrainerSession.t) (w : W) :
  0 <= i < 5 ->
  exists ltr out,
    LoginObs t ltr out /\
    match out with
    | inl session =>
        trace_of (run h (loginAttempt i t) w) = Obs Tick tt :: ltr /\
        result_of (run h (loginAttempt i t) w) = (TrainerSession.setSession t session, true)
    | inr err =>
        trace_of (run h (loginAttempt i t) w)
          = Obs Tick tt :: ltr
              ++ [Obs (Log (LoginFailed (TrainerSession.Username t) err)) tt;
                  Obs (Sleep (i * 10)) tt] /\
        result_of (run h (loginAttempt i t) w) = (t, false)
    end /\
    (ExpiryStable h ->
     forall session, expired h session w ->
                     expired h session (world_of (run h (loginAttempt i t) w))).
Proof.
  intros Hi. unfold loginAttempt. cbn [bind trigger run].
  pose proof (fun (Hs : ExpiryStable h) s => Hs s w _ Tick eq_refl) as Hw1.
  destruct (h _ Tick w) as [[] w1]. cbn [fst snd] in *.
  rewrite run_bind.
  destruct (run_Login t w1) as [ltr [out [Hobs [Htr [Hres Hkeep]]]]].
  destruct (run h (Login t) w1) as [[ltr' r] w2].
  unfold trace_of, result_of, world_of in *. cbn [fst snd] in *. subst ltr' r.
  exists ltr, out. split; [exact Hobs |].
  destruct out as [session | err]; cbn [fst snd bind trigger run].
  - rewrite app_nil_r. split; [split; reflexivity |].
    intros Hs s Hexp. apply (Hkeep Hs), (Hw1 Hs), Hexp.
  - unfold Go.mul. rewrite wrap_small by (unfold min_int, max_int; lia).
    pose proof (fun (Hs : ExpiryStable h) s =>
                  Hs s w2 _ (Log (LoginFailed (TrainerSession.Username t) err))
                               eq_refl) as Hw3.
    destruct (h _ (Log _) w2) as [[] w3]. cbn [fst snd bind run] in *.
    pose proof (fun (Hs : ExpiryStable h) s => Hs s w3 _ (Sleep (i * 10)) eq_refl) as Hw4.
    destruct (h _ (Sleep _) w3) as [[] w4]. cbn [fst snd bind run] in *.
    split; [split; reflexivity |].
    intros Hs s Hexp. apply (Hw4 Hs), (Hw3 Hs), (Hkeep Hs), (Hw1 Hs), Hexp.
Qed.

(** The re-login loop does what [Relogin] says; when no attempt succeeded
    the trainer is as before, and an expired session is still expired in an
    environment where expiry is stable. *)
Lemma run_relogin_from (n : nat) :
  forall (i : Z) (t : TrainerSession.t) (w : W),
    0 <= i -> i + Z.of_nat n = 5 ->
    exists ok,
      Relogin t i (trace_of (run h (for_break n i loginAttempt t) w)) ok /\
      (ok = false -> result_of (run h (for_break n i loginAttempt t) w) = t) /\
      (ExpiryStable h ->
       forall session, expired h session w ->
                       expired h session (world_of (run h (for_break n i loginAttempt t) w))).
Proof.
  induction n as [| n IH]; intros i t w Hi Hn.
  - replace i with 5 by lia. exists false. cbn [for_break run].
    unfold trace_of, result_of, world_of. cbn [fst snd].
    split; [apply relogin_exhausted |]. split; [reflexivity |]. intros _ s Hexp. exact Hexp.
  - cbn [for_break]. rewrite run_bind.
    destruct (run_loginAttempt i t w ltac:(lia)) as [ltr [out [Hobs [Hout Hkeep]]]].
    destruct (run h (loginAttempt i t) w) as [[tr1 r1] w1].
    unfold trace_of, result_of, world_of in *. cbn [fst snd] in *.
    destruct out as [session | err]; destruct Hout as [-> ->]; cbn [fst snd run].
    + exists true. rewrite app_nil_r.
      split; [eapply relogin_success; [lia | exact Hobs] |].
      split; [discriminate |]. exact Hkeep.
    + unfold Go.add. rewrite wrap_small by (unfold min_int, max_int; lia).
      destruct (IH (i + 1) t w1 ltac:(lia) ltac:(lia)) as [ok [Hrel [Hres Hkeep']]].
      destruct (run h (for_break n (i + 1) loginAttempt t) w1) as [[tr2 r2] w2].
      cbn [fst snd] in *. exists ok.
      split; [| split].
      * change (Obs Tick () :: ltr ++ _) with
          (Obs (@Tick H) tt :: ltr
             ++ [Obs (Log (LoginFailed (TrainerSession.Username t) err)) tt;
                 Obs (Sleep (i * 10)) tt]).
        cbn [app]. rewrite <- app_assoc.
        eapply relogin_failure; [lia | exact Hobs | exact Hrel].
      * exact Hres.
      * intros Hs s Hexp. apply (Hkeep' Hs), (Hkeep Hs), Hexp.
Qed.

Lemma LoginObs_counts (t : TrainerSession.t) ltr out :
  LoginObs t ltr out ->
  countObs isTick ltr = 0%nat /\ countObs isLoginStart ltr = 1%nat /\
  countObs isWait ltr = 0%nat /\ countObs isMapCall ltr = 0%nat.
Proof. intros []; repeat split. Qed.

(** Attempts and permits of a re-login from attempt [i] on: as many permits
    as attempts, at most [5 - i] of them, and exactly so many when none
    succeeded; no wait for a location and no map-objects call. *)
Lemma Relogin_counts (t : TrainerSession.t) i tr ok :
  Relogin t i tr ok ->
  0 <= i <= 5 /\
  countObs isLoginStart tr = countObs isTick tr /\
  (countObs isTick tr <= Z.to_nat (5 - i))%nat /\
  (ok = false -> countObs isTick tr = Z.to_nat (5 - i)) /\
  countObs isWait tr = 0%nat /\ countObs isMapCall tr = 0%nat.
Proof.
  induction 1 as [| i ltr session Hi Hobs | i ltr err tr ok Hi Hobs Hrel IH].
  - repeat split; simpl; lia.
  - destruct (LoginObs_counts _ _ _ Hobs) as [Ht [Hl [Hw Hm]]].
    cbn [countObs isTick isLoginStart isWait isMapCall].
    rewrite Ht, Hl, Hw, Hm. repeat split; try lia; try discriminate.
  - destruct (LoginObs_counts _ _ _ Hobs) as [Ht [Hl [Hw Hm]]].
    destruct IH as [Hi' [Heq [Hle [Hall [Hw' Hm']]]]].
    cbn [countObs isTick isLoginStart isWait isMapCall].
    rewrite !countObs_app, Ht, Hl, Hw, Hm, Hw', Hm'.
    cbn [countObs isTick isLoginStart isWait isMapCall].
    repeat split; try lia. intros Hok. specialize (Hall Hok). lia.
Qed.

Lemma pauses_app (a b : list (obs HuntE)) : pauses (a ++ b) = pauses a ++ pauses b.
Proof. apply omap_app. Qed.

Lemma LoginObs_pauses (t : TrainerSession.t) ltr out :
  LoginObs t ltr out -> pauses ltr = [].
Proof. intros []; reflexivity. Qed.

(** The pauses of a re-login from attempt [i] on: one after each failed
    attempt, of 10 times its index, in nanoseconds. *)
Lemma Relogin_pauses (t : TrainerSession.t) i tr ok :
  Relogin t i tr ok ->
  exists k : nat,
    pauses tr = take k (drop (Z.to_nat i) [0; 10; 20; 30; 40]) /\
    (Z.to_nat i + k <= 5)%nat /\
    (ok = false -> (Z.to_nat i + k = 5)%nat).
Proof.
  induction 1 as [| i ltr session Hi Hobs | i ltr err tr ok Hi Hobs Hrel IH].
  - exists 0%nat. split; [reflexivity |]. split; [cbn; lia | intros _; cbn; lia].
  - exists 0%nat. change (Obs Tick tt :: ltr) with ([Obs (@Tick H) tt] ++ ltr).
    rewrite pauses_app, (LoginObs_pauses _ _ _ Hobs).
    split; [reflexivity |]. split; [lia | discriminate].
  - destruct IH as [k [Hp [Hle Hall]]]. exists (S k).
    change (Obs Tick tt :: ltr ++ ?x ++ tr) with ([Obs (@Tick H) tt] ++ ltr ++ x ++ tr).
    rewrite !pauses_app, (LoginObs_pauses _ _ _ Hobs), Hp.
    replace (Z.to_nat (i + 1)) with (S (Z.to_nat i)) in * by lia.
    split; [| split; [lia | intros Hok; specialize (Hall Hok); lia]].
    assert (Hcase : i = 0 \/ i = 1 \/ i = 2 \/ i = 3 \/ i = 4) by lia.
    destruct Hcase as [-> | [-> | [-> | [-> | ->]]]]; reflexivity.
Qed.

End LoginCheck.

Section Round.

Context `{Foreign} {W : Type} (h : handler HuntE W).

Lemma run_checkLogin_fresh (t : TrainerSession.t) (w : W) :
  fst (h _ (IsExpired (TrainerSession.Session t)) w) = false ->
  run h (checkLogin t) w
  = ([Obs (IsExpired (TrainerSession.Session t)) false], Some t,
     snd (h _ (IsExpired (TrainerSession.Session t)) w)).
Proof.
  intros Hfresh. unfold checkLogin. cbn [bind trigger run].
  destruct (h _ (IsExpired _) w) as [b w1]. cbn [fst snd] in *. subst b. reflexivity.
Qed.

Lemma run_checkLogin_expired (t : TrainerSession.t) (w : W) :
  expired h (TrainerSession.Session t) w ->
  exists tr ok t' b,
    Relogin t 0 tr ok /\
    (ok = false -> t' = t /\ (ExpiryStable h -> b = true)) /\
    trace_of (run h (checkLogin t) w)
      = Obs (IsExpired (TrainerSession.Session t)) true
          :: Obs (Log (AuthTicketExpired (TrainerSession.Username t))) tt
          :: tr
          ++ Obs (IsExpired (TrainerSession.Session t')) b
          :: (if b then [Obs (Log (AllLoginAttemptsFailed (TrainerSession.Username t'))) tt]
              else []) /\
    result_of (run h (checkLogin t) w) = (if b then None else Some t').
Proof.
  intros Hexp. unfold checkLogin. cbn [bind trigger run].
  pose proof (fun (Hs : ExpiryStable h) => Hs (TrainerSession.Session t) w _
                (IsExpired (TrainerSession.Session t)) eq_refl Hexp) as Hw1.
  unfold expired in Hexp.
  destruct (h _ (IsExpired _) w) as [b0 w1]. cbn [fst snd] in *. subst b0.
  cbn [bind run].
  pose proof (fun (Hs : ExpiryStable h) => Hs (TrainerSession.Session t) w1 _
                (Log (AuthTicketExpired (TrainerSession.Username t))) eq_refl (Hw1 Hs))
    as Hw2.
  destruct (h _ (Log _) w1) as [[] w2]. cbn [fst snd bind run] in *.
  rewrite run_bind. unfold relogin.
  destruct (run_relogin_from h 5 0 t w2 ltac:(lia) ltac:(lia)) as [ok [Hrel [Hsame Hkeep]]].
  destruct (run h (for_break 5 0 loginAttempt t) w2) as [[tr t'] w3].
  unfold trace_of, result_of, world_of in *. cbn [fst snd] in *.
  cbn [bind trigger run].
  destruct (h _ (IsExpired (TrainerSession.Session t')) w3) as [b w4] eqn:Hb.
  exists tr, ok, t', b. split; [exact Hrel |]. split.
  { intros Hok. specialize (Hsame Hok). subst t'. split; [reflexivity |].
    intros Hs. specialize (Hkeep Hs (TrainerSession.Session t) (Hw2 Hs)).
    unfold expired in Hkeep. rewrite Hb in Hkeep. exact Hkeep. }
  destruct b; cbn [bind trigger run].
  - destruct (h _ (Log _) w4) as [[] w5]. cbn [fst snd]. split; reflexivity.
  - cbn [fst snd]. split; reflexivity.
Qed.

(** The login check neither waits for a location nor calls for map
    objects. *)
Lemma checkLogin_quiet (t : TrainerSession.t) (w : W) :
  countObs isWait (trace_of (run h (checkLogin t) w)) = 0%nat /\
  countObs isMapCall (trace_of (run h (checkLogin t) w)) = 0%nat.
Proof.
  destruct (fst (h _ (IsExpired (TrainerSession.Session t)) w)) eqn:Hexp.
  - destruct (run_checkLogin_expired t w Hexp) as [tr [ok [t' [b [Hrel [_ [Htr _]]]]]]].
    rewrite Htr. apply Relogin_counts in Hrel.
    destruct Hrel as [_ [_ [_ [_ [Hw Hm]]]]].
    cbn [countObs isWait isMapCall]. rewrite !countObs_app, Hw, Hm.
    destruct b; split; reflexivity.
  - rewrite (run_checkLogin_fresh t w Hexp). split; reflexivity.
Qed.

(** The scan neither logs in nor waits for a location. *)
Lemma scan_quiet (db : mapsql.DbConnection) (t : TrainerSession.t) (w : W) :
  countObs isLoginStart (trace_of (run h (scan db t) w)) = 0%nat /\
  countObs isWait (trace_of (run h (scan db t) w)) = 0%nat.
Proof.
  rewrite run_scan. cbv zeta. rewrite !run_requestMapObjects. cbv zeta.
  unfold trace_of, result_of, world_of.
  destruct (fst (h _ (GetPlayerMap _ _) w)) as [r1 | e1]; cbn [fst snd].
  - destruct (fst (h _ (AddScannedLocation _ _ _) _)) as [e1 |]; [| split; reflexivity].
    destruct (decide (e1 = ErrNewRPCURL)); [| split; reflexivity].
    destruct (fst (h _ (GetPlayerMap _ _) (snd (h _ Tick _)))) as [r2 | e2]; cbn [fst snd].
    + destruct (fst (h _ (AddScannedLocation _ _ _)
                       (snd (h _ (SendResult r2) _)))); split; reflexivity.
    + split; reflexivity.
  - destruct (decide (e1 = ErrNewRPCURL)); [| split; reflexivity].
    destruct (fst (h _ (GetPlayerMap _ _) (snd (h _ Tick _)))) as [r2 | e2]; cbn [fst snd].
    + destruct (fst (h _ (AddScannedLocation _ _ _)
                       (snd (h _ (SendResult r2) _)))); split; reflexivity.
    + split; reflexivity.
Qed.

(** A round from the wait for the time slot on: one permit, one wait for a
    location bounded by 30 seconds, and then neither a login nor another
    wait. *)
Lemma huntAt_shape (ScanDelay : Z) (db : mapsql.DbConnection) (t : TrainerSession.t)
    (w : W) :
  let recv := RecvLocation 30000000000 in
  let ans := fst (h _ recv (snd (h _ Tick w))) in
  exists rest,
    trace_of (run h (huntAt ScanDelay db t) w) = Obs Tick tt :: Obs recv ans :: rest /\
    countObs isWait rest = 0%nat /\
    countObs isLoginStart rest = 0%nat /\
    (ans = None ->
     rest = [Obs (Log FailedToGetNewLocation) tt] /\
     result_of (run h (huntAt ScanDelay db t) w) = None).
Proof.
  cbv zeta. pose proof (run_huntAt h ScanDelay db t w) as Hrun. cbv zeta in Hrun.
  change (Go.mul 30 time.Second) with 30000000000 in Hrun.
  destruct (fst (h _ (RecvLocation 30000000000) (snd (h _ Tick w)))) as [l |].
  - destruct Hrun as [Htr Hres]. rewrite Htr. cbn [app].
    eexists. split; [reflexivity |].
    destruct (scan_quiet db (TrainerSession.setLocation t l)
                (snd (h _ (Log (HuntingAt (Lat l) (Lon l) (TrainerSession.Username t)))
                        (snd (h _ (SessionMoveTo (TrainerSession.Session t) l)
                                (snd (h _ (RecvLocation 30000000000)
                                        (snd (h _ Tick w))))))))) as [Hl Hw].
    cbn [countObs isWait isLoginStart]. rewrite !countObs_app, Hl, Hw.
    split; [reflexivity |]. split; [reflexivity |]. discriminate.
  - rewrite Hrun. unfold trace_of, result_of. cbn [fst snd].
    eexists. split; [reflexivity |]. split; [reflexivity |]. split; [reflexivity |].
    intros _. split; reflexivity.
Qed.

(** A round that returns ends the loop: nothing follows it. *)
Lemma huntLoop_returns (n : nat) (ScanDelay : Z) (db : mapsql.DbConnection)
    (t : TrainerSession.t) (w : W) :
  result_of (run h (huntRound ScanDelay db t) w) = None ->
  run h (huntLoop (S n) ScanDelay db t) w
  = (trace_of (run h (huntRound ScanDelay db t) w), Returned,
     world_of (run h (huntRound ScanDelay db t) w)).
Proof.
  intros Hr. cbn [huntLoop]. rewrite run_bind.
  destruct (run h (huntRound ScanDelay db t) w) as [[tr r] w1].
  unfold trace_of, result_of, world_of in *. cbn [fst snd] in *. subst r.
  cbn [run]. rewrite app_nil_r. reflexivity.
Qed.

(** A round: the login check, and the rest when the check lets it go on. *)
Lemma run_huntRound (ScanDelay : Z) (db : mapsql.DbConnection) (t : TrainerSession.t)
    (w : W) :
  run h (huntRound ScanDelay db t) w =
  match run h (checkLogin t) w with
  | (tr1, None, w1) => (tr1, None, w1)
  | (tr1, Some t1, w1) =>
      (tr1 ++ trace_of (run h (huntAt ScanDelay db t1) w1),
       result_of (run h (huntAt ScanDelay db t1) w1),
       world_of (run h (huntAt ScanDelay db t1) w1))
  end.
Proof.
  unfold huntRound. rewrite run_bind.
  destruct (run h (checkLogin t) w) as [[tr1 [t1 |]] w1].
  - destruct (run h (huntAt ScanDelay db t1) w1) as [[tr2 r2] w2]. reflexivity.
  - cbn [run]. rewrite app_nil_r. reflexivity.
Qed.

End Round.

(** C3. A round that finds the session expired logs it and re-logs in as
    [Relogin] says: at most 5 attempts, one permit before each, no attempt
    after a success; after the loop the round makes no further attempt.
    The pause after failed attempt [i] is [time.Sleep(time.Duration(i*10))]:
    10 times the index in nanoseconds, so the pauses of a re-login are the
    first of 0, 10, 20, 30, 40 ns (all five when every attempt failed) and
    each is far below one second, whereas the wait for a location that
    follows the login check in the same round is counted in seconds
    ([30 * time.Second]). When all 5 attempts failed the trainer holds the
    session it had, which an environment with stable expiry reports expired
    again; and when the session is found expired after the loop, the round
    logs it and returns: the loop of [Hunt] ends there, whatever number of
    rounds it was given, with nothing after that log line in its trace. *)
Theorem C3_relogin_backoff_in_nanoseconds :
  forall (F : Foreign) (W : Type) (h : handler HuntE W) (ScanDelay : Z)
         (db : mapsql.DbConnection) (t : TrainerSession.t) (w : W),
    expired h (TrainerSession.Session t) w ->
    exists tr ok t' b tail,
      trace_of (run h (huntRound ScanDelay db t) w)
        = Obs (IsExpired (TrainerSession.Session t)) true
            :: Obs (Log (AuthTicketExpired (TrainerSession.Username t))) tt
            :: tr ++ Obs (IsExpired (TrainerSession.Session t')) b :: tail /\
      Relogin t 0 tr ok /\
      (countObs isTick tr <= 5)%nat /\
      countObs isLoginStart tr = countObs isTick tr /\
      countObs isLoginStart tail = 0%nat /\
      (exists k : nat,
          pauses tr = take k [0; 10; 20; 30; 40] /\ (ok = false -> k = 5%nat)) /\
      Forall (fun d => 0 <= d <= 40 /\ d < time.Second) (pauses tr) /\
      (ok = false ->
       countObs isTick tr = 5%nat /\ t' = t /\ (ExpiryStable h -> b = true)) /\
      (b = true ->
       tail = [Obs (Log (AllLoginAttemptsFailed (TrainerSession.Username t'))) tt] /\
       result_of (run h (huntRound ScanDelay db t) w) = None /\
       forall n, exists w',
           run h (huntLoop (S n) ScanDelay db t) w
           = (trace_of (run h (huntRound ScanDelay db t) w), Returned, w')) /\
      (b = false ->
       exists ans rest,
         tail = Obs Tick tt
                  :: Obs (RecvLocation (Go.mul 30 time.Second)) ans :: rest).
Proof.
  intros F W h ScanDelay db t w Hexp.
  destruct (run_checkLogin_expired h t w Hexp)
    as [tr [ok [t' [b [Hrel [Hfail [Htr Hres]]]]]]].
  destruct (Relogin_counts _ _ _ _ Hrel) as [_ [Heq [Hle [Hall _]]]].
  destruct (Relogin_pauses _ _ _ _ Hrel) as [k [Hp [_ Hk]]].
  change (Z.to_nat 0) with 0%nat in Hp, Hk. rewrite drop_0 in Hp.
  assert (Hunit : Forall (fun d => 0 <= d <= 40 /\ d < time.Second) (pauses tr)).
  { rewrite Hp. apply Forall_take. unfold time.Second. repeat constructor; lia. }
  change (Z.to_nat (5 - 0)) with 5%nat in *.
  pose proof (run_huntRound h ScanDelay db t w) as Hround.
  pose proof (huntLoop_returns h) as Hloop.
  specialize (Hloop) with (ScanDelay := ScanDelay) (db := db) (t := t) (w := w).
  destruct (run h (checkLogin t) w) as [[tr1 r1] w1].
  unfold trace_of, result_of, world_of in Htr, Hres. cbn [fst snd] in Htr, Hres.
  subst tr1 r1.
  destruct b.
  - rewrite Hround in *. unfold trace_of, result_of, world_of in *. cbn [fst snd] in *.
    exists tr, ok, t', true, [Obs (Log (AllLoginAttemptsFailed (TrainerSession.Username t'))) tt].
    split; [reflexivity |]. split; [exact Hrel |]. split; [exact Hle |].
    split; [exact Heq |]. split; [reflexivity |].
    split; [exists k; split; [exact Hp | intros Hok; specialize (Hk Hok); lia] |].
    split; [exact Hunit |].
    split.
    { intros Hok. destruct (Hfail Hok) as [<- Hb]. split; [exact (Hall Hok) |].
      split; [reflexivity | exact Hb]. }
    split; [| discriminate].
    intros _. split; [reflexivity |]. split; [reflexivity |].
    intros n. eexists. apply (Hloop n). reflexivity.
  - rewrite Hround. unfold trace_of at 1. cbn [fst].
    destruct (huntAt_shape h ScanDelay db t' w1) as [rest [Hat [_ [Hlogins _]]]].
    exists tr, ok, t', false, (trace_of (run h (huntAt ScanDelay db t') w1)).
    split; [cbn [app]; rewrite <- app_assoc; reflexivity |].
    split; [exact Hrel |]. split; [exact Hle |]. split; [exact Heq |].
    split; [rewrite Hat; cbn [countObs isLoginStart]; rewrite Hlogins; reflexivity |].
    split; [exists k; split; [exact Hp | intros Hok; specialize (Hk Hok); lia] |].
    split; [exact Hunit |].
    split.
    { intros Hok. destruct (Hfail Hok) as [<- Hb]. split; [exact (Hall Hok) |].
      split; [reflexivity | exact Hb]. }
    split; [discriminate |].
    intros _. rewrite Hat. eexists _, rest. reflexivity.
Qed.

Lemma scripted_ExpiryStable : ExpiryStable scripted.
Proof. intros session w X e _ Hexp. exact Hexp. Qed.

(** C3 at an input: session 0 is expired and every login fails. The five
    pauses add up to 100 nanoseconds. *)
Lemma C3_witness :
  let h := scripted in
  let t := trainer 0 in
  let w := {| inits := []; waits := []; maps := []; stores := [] |} in
  expired h (TrainerSession.Session t) w /\
  pauses (trace_of (run h (huntRound 10 database t) w)) = [0; 10; 20; 30; 40] /\
  time.Second = 1000000000 /\
  exists tr ok t' b tail,
    trace_of (run h (huntRound 10 database t) w)
      = Obs (IsExpired (TrainerSession.Session t)) true
          :: Obs (Log (AuthTicketExpired (TrainerSession.Username t))) tt
          :: tr ++ Obs (IsExpired (TrainerSession.Session t')) b :: tail /\
    Relogin t 0 tr ok /\
    (countObs isTick tr <= 5)%nat /\
    countObs isLoginStart tr = countObs isTick tr /\
    countObs isLoginStart tail = 0%nat /\
    (exists k : nat,
        pauses tr = take k [0; 10; 20; 30; 40] /\ (ok = false -> k = 5%nat)) /\
    Forall (fun d => 0 <= d <= 40 /\ d < time.Second) (pauses tr) /\
    (ok = false ->
     countObs isTick tr = 5%nat /\ t' = t /\ (ExpiryStable h -> b = true)) /\
    (b = true ->
     tail = [Obs (Log (AllLoginAttemptsFailed (TrainerSession.Username t'))) tt] /\
     result_of (run h (huntRound 10 database t) w) = None /\
     forall n, exists w',
         run h (huntLoop (S n) 10 database t) w
         = (trace_of (run h (huntRound 10 database t) w), Returned, w')) /\
    (b = false ->
     exists ans rest,
       tail = Obs Tick tt
                :: Obs (RecvLocation (Go.mul 30 time.Second)) ans :: rest).
Proof.
  cbv zeta. split; [reflexivity |]. split; [reflexivity |]. split; [reflexivity |].
  exact (C3_relogin_backoff_in_nanoseconds numbered script scripted 10 database (trainer 0)
           {| inits := []; waits := []; maps := []; stores := [] |} eq_refl).
Defined.

(** C5. A round whose login check lets it go on takes one permit and waits
    for a location, once, for at most 30 seconds (30000000000 ns); the
    login check made no such wait and no map-objects call. When the wait
    times out the round logs it and returns, having made no map-objects
    call: the loop of [Hunt] ends there, whatever number of rounds it was
    given, with nothing after that log line in its trace. *)
Theorem C5_location_wait_bounded :
  forall (F : Foreign) (W : Type) (h : handler HuntE W) (ScanDelay : Z)
         (db : mapsql.DbConnection) (t t1 : TrainerSession.t) (w w1 : W)
         (tr1 : list (obs HuntE)),
    run h (checkLogin t) w = (tr1, Some t1, w1) ->
    let recv := RecvLocation 30000000000 in
    let ans := fst (h _ recv (snd (h _ Tick w1))) in
    Go.mul 30 time.Second = 30000000000 /\
    countObs isWait tr1 = 0%nat /\
    exists rest,
      trace_of (run h (huntRound ScanDelay db t) w)
        = tr1 ++ Obs Tick tt :: Obs recv ans :: rest /\
      countObs isWait rest = 0%nat /\
      (ans = None ->
       rest = [Obs (Log FailedToGetNewLocation) tt] /\
       result_of (run h (huntRound ScanDelay db t) w) = None /\
       countObs isMapCall (trace_of (run h (huntRound ScanDelay db t) w)) = 0%nat /\
       forall n, exists w',
           run h (huntLoop (S n) ScanDelay db t) w
           = (trace_of (run h (huntRound ScanDelay db t) w), Returned, w')).
Proof.
  intros F W h ScanDelay db t t1 w w1 tr1 Hcheck. cbv zeta.
  split; [reflexivity |].
  destruct (checkLogin_quiet h t w) as [Hwait Hmap]. rewrite Hcheck in Hwait, Hmap.
  unfold trace_of in Hwait, Hmap. cbn [fst] in Hwait, Hmap.
  split; [exact Hwait |].
  pose proof (run_huntRound h ScanDelay db t w) as Hround. rewrite Hcheck in Hround.
  pose proof (huntLoop_returns h) as Hloop.
  specialize (Hloop) with (ScanDelay := ScanDelay) (db := db) (t := t) (w := w).
  destruct (huntAt_shape h ScanDelay db t1 w1) as [rest [Hat [Hwaits [_ Hnone]]]].
  cbv zeta in Hnone.
  destruct (run h (huntAt ScanDelay db t1) w1) as [[tr2 r2] w2].
  rewrite Hround in *.
  unfold trace_of, result_of, world_of in *. cbn [fst snd] in *. subst tr2.
  exists rest. split; [reflexivity |]. split; [exact Hwaits |].
  intros Hans. destruct (Hnone Hans) as [-> Hres].
  split; [reflexivity |]. split; [exact Hres |].
  split.
  - rewrite countObs_app, Hmap. reflexivity.
  - intros n. eexists. apply (Hloop n). exact Hres.
Qed.

(** C5 at an input: session 1 is not expired and no location comes. *)
Lemma C5_witness :
  let h := scripted in
  let t := trainer 1 in
  let w := {| inits := []; waits := []; maps := []; stores := [] |} in
  run h (checkLogin t) w = ([Obs (@IsExpired numbered 1%nat) false], Some t, w) /\
  trace_of (run h (huntLoop 3 10 database t) w)
  = [Obs (@IsExpired numbered 1%nat) false; Obs (@Tick numbered) tt;
     Obs (@RecvLocation numbered 30000000000) None;
     Obs (@Log numbered (@FailedToGetNewLocation numbered)) tt] /\
  result_of (run h (huntLoop 3 10 database t) w) = Returned.
Proof.
  cbv zeta.
  assert (Hcheck : run scripted (checkLogin (trainer 1))
                     {| inits := []; waits := []; maps := []; stores := [] |}
                   = ([Obs (@IsExpired numbered 1%nat) false], Some (trainer 1),
                      {| inits := []; waits := []; maps := []; stores := [] |}))
    by reflexivity.
  split; [exact Hcheck |].
  destruct (C5_location_wait_bounded numbered script scripted 10 database
              (trainer 1) (trainer 1) _ _ _ Hcheck)
    as [_ [_ [rest [Htr [_ Hnone]]]]].
  destruct (Hnone eq_refl) as [Hrest [_ [_ Hloop]]].
  destruct (Hloop 2%nat) as [w' Hrun].
  rewrite Hrun. split; reflexivity.
Defined.

(** ** The loop of [Hunt] *)

Section Loop.

Context `{Foreign} {W : Type} (h : handler HuntE W).

(** Once the loop has returned, more rounds add nothing. *)
Lemma huntLoop_returned_stable (ScanDelay : Z) (db : mapsql.DbConnection) (n : nat) :
  forall (m : nat) (t : TrainerSession.t) (w : W),
    (n <= m)%nat ->
    result_of (run h (huntLoop n ScanDelay db t) w) = Returned ->
    run h (huntLoop m ScanDelay db t) w = run h (huntLoop n ScanDelay db t) w.
Proof.
  induction n as [| n IH]; intros m t w Hle Hret.
  - discriminate Hret.
  - destruct m as [| m]; [lia |].
    cbn [huntLoop] in *. rewrite !run_bind. rewrite run_bind in Hret.
    destruct (run h (huntRound ScanDelay db t) w) as [[tr [t1 |]] w1]; [| reflexivity].
    specialize (IH m t1 w1 ltac:(lia)).
    destruct (run h (huntLoop n ScanDelay db t1) w1) as [[tr2 r2] w2].
    unfold result_of in *. cbn [fst snd] in *.
    rewrite (IH Hret). reflexivity.
Qed.

(** [Hunt]: the permit and the login, then the loop. *)
Lemma run_Hunt (n : nat) (ScanDelay : Z) (db : mapsql.DbConnection)
    (t : TrainerSession.t) (w : W) :
  run h (Hunt n ScanDelay db t) w =
  let w0 := snd (h _ Tick w) in
  let '(tr1, r, w1) := run h (Login t) w0 in
  let '(tr2, o, w2) := run h (huntLoop n ScanDelay db (fst r)) w1 in
  (Obs Tick tt :: tr1 ++ tr2, o, w2).
Proof.
  unfold Hunt. cbn [bind trigger run].
  destruct (h _ Tick w) as [[] w0]. cbn [fst snd]. rewrite run_bind.
  destruct (run h (Login t) w0) as [[tr1 r] w1].
  destruct (run h (huntLoop n ScanDelay db (fst r)) w1) as [[tr2 o] w2].
  reflexivity.
Qed.

End Loop.

(** ** Runs against the stand-ins *)

(** Radius 200 and spacing 70 give one ring of six locations. *)
Example honeycomb_200_70 :
  length (@generateHoneyComb still origin 200 70) = 6%nat.
Proof. vm_compute. reflexivity. Qed.

(** On that ring the cursor goes 0, 1, ..., 5 and then back to 0. *)
Example honeycomb_cursor_wraps :
  let step := fun r =>
    match r with
    | Ok (p, _, g) => @HoneyCombProvider.NextLocation counting p g
    | Panic => Panic
    end in
  let cursor := fun r : result (HoneyCombProvider.t * Location * Z) =>
    match r with
    | Ok (p, _, _) => Some (HoneyCombProvider.CurrentStep p)
    | Panic => None
    end in
  let r1 := @HoneyCombProvider.NextLocation counting
              (@NewHoneyCombProvider still origin 200 70) 0 in
  cursor r1 = Some 0 /\
  cursor (step (step (step (step (step r1))))) = Some 5 /\
  cursor (step (step (step (step (step (step r1)))))) = Some 0.
Proof. vm_compute. repeat split. Qed.

(** A fixed provider called three times, the source counting from 2: the
    accuracies are [choices] 2, 3 and 4. *)
Example fixed_provider_three_calls :
  @nextLocations counting _ _ 3 {| DefaultLocationProvider.StartLocation := origin |} 2
  = Ok [ {| Lat := 0; Lon := 0; Alt := 0; Accuracy := 5 |};
         {| Lat := 0; Lon := 0; Alt := 0; Accuracy := 10 |};
         {| Lat := 0; Lon := 0; Alt := 0; Accuracy := 10 |} ].
Proof. vm_compute. reflexivity. Qed.

(** Session 0 is expired and no login succeeds: five attempts, each after a
    permit, pauses of 0, 10, 20, 30 and 40, and [Hunt] returns. *)
Example hunt_abandons_after_five_logins :
  let t := trainer 0 in
  let newProvider := Obs (@NewProvider numbered "ptc" "ash" "pikachu") (inl tt) in
  let sessionInit := Obs (@SessionInit numbered tt origin tt tt tt) (inr 1%nat) in
  let failed := Obs (@Log numbered (@LoginFailed numbered "ash" 1%nat)) tt in
  let tick := Obs (@Tick numbered) tt in
  let pause := fun d => Obs (@Sleep numbered d) tt in
  run scripted (Hunt 7 10 database t)
      {| inits := []; waits := []; maps := []; stores := [] |}
  = ([tick; newProvider; sessionInit;
      Obs (@IsExpired numbered 0%nat) true;
      Obs (@Log numbered (@AuthTicketExpired numbered "ash")) tt;
      tick; newProvider; sessionInit; failed; pause 0;
      tick; newProvider; sessionInit; failed; pause 10;
      tick; newProvider; sessionInit; failed; pause 20;
      tick; newProvider; sessionInit; failed; pause 30;
      tick; newProvider; sessionInit; failed; pause 40;
      Obs (@IsExpired numbered 0%nat) true;
      Obs (@Log numbered (@AllLoginAttemptsFailed numbered "ash")) tt],
     Returned,
     {| inits := []; waits := []; maps := []; stores := [] |}).
Proof. vm_compute. reflexivity. Qed.

(** One full round: the session is fresh, a location comes, the call is
    relocated once and then answers response 9, which is published and
    recorded; the round pauses 10 seconds and the loop goes on. *)
Example hunt_round_with_relocation :
  let t := trainer 1 in
  let call := @GetPlayerMap numbered 1%nat tt in
  trace_of (run scripted (huntLoop 1 10 database t)
              {| inits := []; waits := [Some origin];
                 maps := [inr 0%nat; inl 9%nat]; stores := [] |})
  = [Obs (@IsExpired numbered 1%nat) false;
     Obs (@Tick numbered) tt;
     Obs (@RecvLocation numbered 30000000000) (Some origin);
     Obs (@SessionMoveTo numbered 1%nat origin) tt;
     Obs (@Log numbered (@HuntingAt numbered 0 0 "ash")) tt;
     Obs call (inr 0%nat);
     Obs (@Tick numbered) tt;
     Obs call (inl 9%nat);
     Obs (@SendResult numbered 9%nat) tt;
     Obs (@AddScannedLocation numbered database 0 0) None;
     Obs (@Sleep numbered 10000000000) tt].
Proof. vm_compute. reflexivity. Qed.

(** * Further properties *)

(** ** Traces of [Hunt], block by block *)

Section HuntTraces.

Context `{Foreign} {W : Type} (h : handler HuntE W).

(** A property of traces that holds of the empty trace, of the login check
    and of the rest of a round, and of two traces put end to end, holds of
    every run of the loop. *)
Lemma huntLoop_trace_ind (P : list (obs HuntE) -> Prop) (ScanDelay : Z)
    (db : mapsql.DbConnection) :
  P [] ->
  (forall a b, P a -> P b -> P (a ++ b)) ->
  (forall t w, P (trace_of (run h (checkLogin t) w))) ->
  (forall t w, P (trace_of (run h (huntAt ScanDelay db t) w))) ->
  forall n t w, P (trace_of (run h (huntLoop n ScanDelay db t) w)).
Proof.
  intros Hnil Happ Hcheck Hat. induction n as [| n IH]; intros t w.
  - exact Hnil.
  - cbn [huntLoop]. rewrite run_bind, run_huntRound.
    specialize (Hcheck t w).
    destruct (run h (checkLogin t) w) as [[tr1 [t1 |]] w1];
      unfold trace_of in Hcheck; cbn [fst] in Hcheck.
    + specialize (Hat t1 w1).
      destruct (run h (huntAt ScanDelay db t1) w1) as [[tr2 [t2 |]] w2];
        unfold trace_of, result_of, world_of in *; cbn [fst snd] in *.
      * specialize (IH t2 w2).
        destruct (run h (huntLoop n ScanDelay db t2) w2) as [[tr3 r3] w3].
        cbn [fst snd] in *. apply Happ; [apply Happ; assumption | assumption].
      * cbn [run fst snd]. apply Happ; [apply Happ; assumption | exact Hnil].
    + cbn [run]. unfold trace_of. cbn [fst]. apply Happ; [assumption | exact Hnil].
Qed.

(** The observations of a re-login are those of a login check. *)
Lemma Relogin_loginCheck (t : TrainerSession.t) i tr ok :
  Relogin t i tr ok -> Forall (fun o => isLoginCheck o = true) tr.
Proof.
  induction 1 as [| i ltr session Hi Hobs | i ltr err tr ok Hi Hobs Hrel IH].
  - constructor.
  - constructor; [reflexivity |]. inversion Hobs; subst. repeat constructor.
  - constructor; [reflexivity |]. apply Forall_app. split.
    + inversion Hobs; subst; repeat constructor.
    + cbn [app]. repeat constructor. exact IH.
Qed.

Lemma checkLogin_loginCheck (t : TrainerSession.t) (w : W) :
  Forall (fun o => isLoginCheck o = true) (trace_of (run h (checkLogin t) w)).
Proof.
  destruct (fst (h _ (IsExpired (TrainerSession.Session t)) w)) eqn:Hexp.
  - destruct (run_checkLogin_expired h t w Hexp) as [tr [ok [t' [b [Hrel [_ [Htr _]]]]]]].
    rewrite Htr. constructor; [reflexivity |]. constructor; [reflexivity |].
    apply Forall_app. split; [exact (Relogin_loginCheck _ _ _ _ Hrel) |].
    constructor; [reflexivity |]. destruct b; repeat constructor.
  - rewrite (run_checkLogin_fresh h t w Hexp). repeat constructor.
Qed.

(** What no observation of a login check is, no login check counts. *)
Lemma countObs_loginCheck (p : obs HuntE -> bool) (tr : list (obs HuntE)) :
  (forall o, isLoginCheck o = true -> p o = false) ->
  Forall (fun o => isLoginCheck o = true) tr ->
  countObs p tr = 0%nat.
Proof.
  intros Hp. induction 1 as [| o tr Ho _ IH]; [reflexivity |].
  cbn [countObs]. rewrite (Hp o Ho), IH. reflexivity.
Qed.

End HuntTraces.

(** ** The pace of [Hunt] *)

Section Pace.

Context `{Foreign} {W : Type} (h : handler HuntE W).

Lemma pace_app (a b : list (obs HuntE)) :
  forall p, pace p (a ++ b) = match pace p a with
                              | Some q => pace q b
                              | None => None
                              end.
Proof.
  induction a as [| o a IH]; intros p; [reflexivity |].
  cbn [app pace]. destruct (isTick o); [apply IH |].
  destruct (isRemoteCall o); [| apply IH].
  destruct p; [apply IH | reflexivity].
Qed.

Lemma inPace_app (a b : list (obs HuntE)) : inPace a -> inPace b -> inPace (a ++ b).
Proof.
  intros Ha Hb p. rewrite pace_app. specialize (Ha p).
  destruct (pace p a) as [q |]; [apply Hb | congruence].
Qed.

Lemma inPace_attempt (t : TrainerSession.t) ltr out :
  LoginObs t ltr out -> inPace (Obs Tick tt :: ltr).
Proof. intros [] p; cbn; discriminate. Qed.

Lemma inPace_Relogin (t : TrainerSession.t) i tr ok : Relogin t i tr ok -> inPace tr.
Proof.
  induction 1 as [| i ltr session Hi Hobs | i ltr err tr ok Hi Hobs Hrel IH].
  - intros p. discriminate.
  - exact (inPace_attempt _ _ _ Hobs).
  - change (Obs Tick tt :: ltr ++ ?x ++ tr) with ((Obs (@Tick H) tt :: ltr) ++ x ++ tr).
    apply inPace_app; [exact (inPace_attempt _ _ _ Hobs) |].
    apply inPace_app; [| exact IH]. intros p. destruct p; discriminate.
Qed.

Lemma inPace_checkLogin (t : TrainerSession.t) (w : W) :
  inPace (trace_of (run h (checkLogin t) w)).
Proof.
  destruct (fst (h _ (IsExpired (TrainerSession.Session t)) w)) eqn:Hexp.
  - destruct (run_checkLogin_expired h t w Hexp) as [tr [ok [t' [b [Hrel [_ [Htr _]]]]]]].
    rewrite Htr.
    change (?a :: ?b :: tr ++ ?c) with ([a; b] ++ tr ++ c).
    apply inPace_app; [intros p; destruct p; discriminate |].
    apply inPace_app; [exact (inPace_Relogin _ _ _ _ Hrel) |].
    intros p. destruct b, p; discriminate.
  - rewrite (run_checkLogin_fresh h t w Hexp). intros p. destruct p; discriminate.
Qed.

(** With a permit in hand the scan is in pace. *)
Lemma pace_scan (db : mapsql.DbConnection) (t : TrainerSession.t) (w : W) :
  pace true (trace_of (run h (scan db t) w)) <> None.
Proof.
  rewrite run_scan. cbv zeta. rewrite !run_requestMapObjects. cbv zeta.
  unfold trace_of, result_of, world_of.
  destruct (fst (h _ (GetPlayerMap _ _) w)) as [r1 | e1]; cbn [fst snd].
  - destruct (fst (h _ (AddScannedLocation _ _ _) _)) as [e1 |]; [| discriminate].
    destruct (decide (e1 = ErrNewRPCURL)); [| discriminate].
    destruct (fst (h _ (GetPlayerMap _ _) (snd (h _ Tick _)))) as [r2 | e2]; cbn [fst snd].
    + destruct (fst (h _ (AddScannedLocation _ _ _)
                       (snd (h _ (SendResult r2) _)))); discriminate.
    + discriminate.
  - destruct (decide (e1 = ErrNewRPCURL)); [| discriminate].
    destruct (fst (h _ (GetPlayerMap _ _) (snd (h _ Tick _)))) as [r2 | e2]; cbn [fst snd].
    + destruct (fst (h _ (AddScannedLocation _ _ _)
                       (snd (h _ (SendResult r2) _)))); discriminate.
    + discriminate.
Qed.

Lemma inPace_huntAt (ScanDelay : Z) (db : mapsql.DbConnection) (t : TrainerSession.t)
    (w : W) :
  inPace (trace_of (run h (huntAt ScanDelay db t) w)).
Proof.
  pose proof (run_huntAt h ScanDelay db t w) as Hrun. cbv zeta in Hrun.
  destruct (fst (h _ (RecvLocation _) (snd (h _ Tick w)))) as [l |].
  - destruct Hrun as [Htr _]. rewrite Htr. intros p.
    rewrite pace_app. cbn [pace isTick isRemoteCall].
    rewrite pace_app.
    pose proof (pace_scan db (TrainerSession.setLocation t l)
                  (snd (h _ (Log (HuntingAt (Lat l) (Lon l) (TrainerSession.Username t)))
                          (snd (h _ (SessionMoveTo (TrainerSession.Session t) l)
                                  (snd (h _ (RecvLocation (Go.mul 30 time.Second))
                                          (snd (h _ Tick w))))))))) as Hscan.
    destruct (pace true (trace_of (run h (scan db _) _))) as [q |]; [| congruence].
    destruct q; discriminate.
  - rewrite Hrun. intros p. destruct p; discriminate.
Qed.

Lemma inPace_huntLoop (n : nat) (ScanDelay : Z) (db : mapsql.DbConnection)
    (t : TrainerSession.t) (w : W) :
  inPace (trace_of (run h (huntLoop n ScanDelay db t) w)).
Proof.
  apply (huntLoop_trace_ind h inPace ScanDelay db).
  - intros p. discriminate.
  - apply inPace_app.
  - apply inPace_checkLogin.
  - apply inPace_huntAt.
Qed.

(** In a trace in pace the remote calls are covered by permits. *)
Lemma pace_counts (tr : list (obs HuntE)) :
  forall p q, pace p tr = Some q ->
    (countObs isRemoteCall tr + Nat.b2n q <= countObs isTick tr + Nat.b2n p)%nat.
Proof.
  induction tr as [| o tr IH]; intros p q Hp.
  - inversion Hp; subst. cbn. lia.
  - cbn [pace countObs] in *.
    destruct (isTick o) eqn:Ht.
    + assert (Hr : isRemoteCall o = false)
        by (destruct o as [X e x]; destruct e; cbn in *; congruence).
      rewrite Hr. specialize (IH _ _ Hp). cbn in IH. destruct p; cbn; lia.
    + destruct (isRemoteCall o).
      * destruct p; [| discriminate Hp]. specialize (IH _ _ Hp). cbn in *. lia.
      * specialize (IH _ _ Hp). lia.
Qed.

End Pace.

(** X1. [Hunt] never makes a remote call (a session login or a map-objects
    call) without a rate permit of its own: followed from its start with no
    permit in hand, every run is in pace, each remote call spending a permit
    taken after the remote call before it. So at every moment of a run the
    remote calls made are no more than the permits taken. *)
Theorem Hunt_remote_calls_paced :
  forall (F : Foreign) (W : Type) (h : handler HuntE W) (n : nat) (ScanDelay : Z)
         (db : mapsql.DbConnection) (t : TrainerSession.t) (w : W),
    (exists q, pace false (trace_of (run h (Hunt n ScanDelay db t) w)) = Some q) /\
    forall before after,
      trace_of (run h (Hunt n ScanDelay db t) w) = before ++ after ->
      (countObs isRemoteCall before <= countObs isTick before)%nat.
Proof.
  intros F W h n ScanDelay db t w.
  assert (Hpace : exists q,
             pace false (trace_of (run h (Hunt n ScanDelay db t) w)) = Some q).
  { rewrite run_Hunt. cbv zeta.
    destruct (run_Login h t (snd (h _ Tick w))) as [ltr [out [Hobs [Htr _]]]].
    pose proof (fun t1 => inPace_huntLoop h n ScanDelay db t1) as Hloop.
    destruct (run h (Login t) (snd (h _ Tick w))) as [[tr1 r] w1].
    specialize (Hloop (fst r) w1).
    destruct (run h (huntLoop n ScanDelay db (fst r)) w1) as [[tr2 o] w2].
    unfold trace_of in *. cbn [fst snd] in *. subst tr1.
    change (Obs Tick tt :: ltr ++ tr2) with ((Obs (@Tick F) tt :: ltr) ++ tr2).
    pose proof (inPace_app _ _ (inPace_attempt t ltr out Hobs) Hloop false) as Hp.
    destruct (pace false _) as [q |]; [exists q; reflexivity | congruence]. }
  split; [exact Hpace |].
  intros before after Hsplit. destruct Hpace as [q Hq].
  rewrite Hsplit, pace_app in Hq.
  destruct (pace false before) as [q1 |] eqn:Hb; [| discriminate Hq].
  pose proof (pace_counts _ _ _ Hb) as Hc. cbn in Hc. lia.
Qed.

(** ** What [Hunt] publishes and records *)

Section Published.

Context `{Foreign} {W : Type} (h : handler HuntE W).

Lemma Published_app (a b : list (obs HuntE)) :
  Published a -> Published b -> Published (a ++ b).
Proof.
  induction 1 as [| o a Ho Ha IH | session ctx r db latitude longitude ans a Ha IH];
    intros Hb.
  - exact Hb.
  - cbn [app]. apply published_quiet; [exact Ho | exact (IH Hb)].
  - cbn [app]. apply published_response. exact (IH Hb).
Qed.

(** In such a trace the publications and the records are counted by the
    responses. *)
Lemma Published_balanced (tr : list (obs HuntE)) : Published tr -> balanced tr.
Proof.
  induction 1 as [| o tr Ho Htr [IH1 IH2] | session ctx r db latitude longitude ans tr Htr
                                               [IH1 IH2]].
  - split; reflexivity.
  - unfold isQuiet in Ho. apply andb_true_iff in Ho. destruct Ho as [Ho Hrec].
    apply andb_true_iff in Ho. destruct Ho as [Hmap Hpub].
    apply negb_true_iff in Hmap, Hpub, Hrec.
    unfold balanced. cbn [countObs]. rewrite Hmap, Hpub, Hrec. split; lia.
  - unfold balanced in *. cbn [countObs isPublish isMapSuccess isRecord]. split; lia.
Qed.

Lemma Published_loginCheck (tr : list (obs HuntE)) :
  Forall (fun o => isLoginCheck o = true) tr -> Published tr.
Proof.
  induction 1 as [| [X e x] tr Ho _ IH]; [constructor |].
  apply published_quiet; [| exact IH].
  destruct e; cbn in Ho; try discriminate Ho; reflexivity.
Qed.

Lemma Published_scan (db : mapsql.DbConnection) (t : TrainerSession.t) (w : W) :
  Published (trace_of (run h (scan db t) w)).
Proof.
  rewrite run_scan. cbv zeta. rewrite !run_requestMapObjects. cbv zeta.
  unfold trace_of, result_of, world_of.
  destruct (fst (h _ (GetPlayerMap _ _) w)) as [r1 | e1]; cbn [fst snd].
  - destruct (fst (h _ (AddScannedLocation _ _ _) _)) as [e1 |];
      [| apply published_response; constructor].
    destruct (decide (e1 = ErrNewRPCURL)).
    2:{ cbn [app scanLog]. apply published_response.
        apply published_quiet; [reflexivity | constructor]. }
    cbn [app]. apply published_response. apply published_quiet; [reflexivity |].
    destruct (fst (h _ (GetPlayerMap _ _) (snd (h _ Tick _)))) as [r2 | e2]; cbn [fst snd].
    + destruct (fst (h _ (AddScannedLocation _ _ _)
                       (snd (h _ (SendResult r2) _)))); cbn [app scanLog].
      * apply published_response. apply published_quiet; [reflexivity | constructor].
      * apply published_response. constructor.
    + cbn [app scanLog]. repeat (apply published_quiet; [reflexivity |]). constructor.
  - destruct (decide (e1 = ErrNewRPCURL)).
    2:{ cbn [app scanLog]. repeat (apply published_quiet; [reflexivity |]). constructor. }
    cbn [app]. do 2 (apply published_quiet; [reflexivity |]).
    destruct (fst (h _ (GetPlayerMap _ _) (snd (h _ Tick _)))) as [r2 | e2]; cbn [fst snd].
    + destruct (fst (h _ (AddScannedLocation _ _ _)
                       (snd (h _ (SendResult r2) _)))); cbn [app scanLog].
      * apply published_response. apply published_quiet; [reflexivity | constructor].
      * apply published_response. constructor.
    + cbn [app scanLog]. repeat (apply published_quiet; [reflexivity |]). constructor.
Qed.

Lemma Published_huntAt (ScanDelay : Z) (db : mapsql.DbConnection) (t : TrainerSession.t)
    (w : W) :
  Published (trace_of (run h (huntAt ScanDelay db t) w)).
Proof.
  pose proof (run_huntAt h ScanDelay db t w) as Hrun. cbv zeta in Hrun.
  destruct (fst (h _ (RecvLocation _) (snd (h _ Tick w)))) as [l |].
  - destruct Hrun as [Htr _]. rewrite Htr.
    apply Published_app; [repeat (apply published_quiet; [reflexivity |]); constructor |].
    apply Published_app; [apply Published_scan |].
    apply published_quiet; [reflexivity | constructor].
  - rewrite Hrun. unfold trace_of. cbn [fst].
    repeat (apply published_quiet; [reflexivity |]). constructor.
Qed.

Lemma Published_huntLoop (n : nat) (ScanDelay : Z) (db : mapsql.DbConnection)
    (t : TrainerSession.t) (w : W) :
  Published (trace_of (run h (huntLoop n ScanDelay db t) w)).
Proof.
  apply (huntLoop_trace_ind h Published ScanDelay db).
  - constructor.
  - apply Published_app.
  - intros t1 w1. apply Published_loginCheck, checkLogin_loginCheck.
  - apply Published_huntAt.
Qed.

End Published.

(** X2. In every run of [Hunt] each response of a map-objects call is at
    once published to the results, that very response, and then handed to
    the scan store, and nothing else is published or recorded: the trace is
    made of such triples (call answered, publication, record) and of
    observations that are none of the three. So the publications and the
    records of a scanned location are each as many as the map-objects calls
    that returned a response, whatever the environment answers and however
    many rounds are run. *)
Theorem Hunt_publishes_each_response_once :
  forall (F : Foreign) (W : Type) (h : handler HuntE W) (n : nat) (ScanDelay : Z)
         (db : mapsql.DbConnection) (t : TrainerSession.t) (w : W),
    let tr := trace_of (run h (Hunt n ScanDelay db t) w) in
    Published tr /\
    countObs isPublish tr = countObs isMapSuccess tr /\
    countObs isRecord tr = countObs isMapSuccess tr.
Proof.
  intros F W h n ScanDelay db t w. cbv zeta.
  assert (Hpub : Published (trace_of (run h (Hunt n ScanDelay db t) w))).
  { rewrite run_Hunt. cbv zeta.
    destruct (run_Login h t (snd (h _ Tick w))) as [ltr [out [Hobs [Htr _]]]].
    pose proof (fun t1 w1 => Published_huntLoop h n ScanDelay db t1 w1) as Hloop.
    destruct (run h (Login t) (snd (h _ Tick w))) as [[tr1 r] w1].
    specialize (Hloop (fst r) w1).
    destruct (run h (huntLoop n ScanDelay db (fst r)) w1) as [[tr2 o] w2].
    unfold trace_of in *. cbn [fst snd] in *. subst tr1.
    change (Obs Tick tt :: ltr ++ tr2) with ((Obs (@Tick F) tt :: ltr) ++ tr2).
    apply Published_app; [| exact Hloop].
    destruct Hobs; repeat (apply published_quiet; [reflexivity |]); constructor. }
  split; [exact Hpub |]. exact (Published_balanced _ Hpub).
Qed.

(** ** The account of a hunting trainer *)

Section AccountKept.

Context `{Foreign} {W : Type} (h : handler HuntE W).

Lemma sameAccount_refl (t : TrainerSession.t) : sameAccount t t.
Proof. repeat split. Qed.

Lemma sameAccount_trans (a b c : TrainerSession.t) :
  sameAccount a b -> sameAccount b c -> sameAccount a c.
Proof. unfold sameAccount. intuition congruence. Qed.

Lemma Login_account (t : TrainerSession.t) (w : W) :
  sameAccount t (fst (result_of (run h (Login t) w))).
Proof.
  destruct (run_Login h t w) as [ltr [out [_ [_ [Hres _]]]]]. rewrite Hres.
  destruct out; cbn [fst]; [destruct t |]; repeat split.
Qed.

Lemma loginAttempt_account (i : Z) (t : TrainerSession.t) (w : W) :
  sameAccount t (fst (result_of (run h (loginAttempt i t) w))).
Proof.
  unfold loginAttempt. cbn [bind trigger run].
  destruct (h _ Tick w) as [[] w1]. cbn [fst snd]. rewrite run_bind.
  pose proof (Login_account t w1) as Hacc.
  destruct (run h (Login t) w1) as [[ltr [t1 [err |]]] w2].
  - unfold result_of in *. cbn [fst snd bind trigger run] in *.
    destruct (h _ (Log _) w2) as [[] w3]. cbn [fst snd bind run].
    destruct (h _ (Sleep _) w3) as [[] w4]. cbn [fst snd]. exact Hacc.
  - unfold result_of in *. cbn [fst snd run] in *. exact Hacc.
Qed.

Lemma for_break_account (n : nat) :
  forall (i : Z) (t : TrainerSession.t) (w : W),
    sameAccount t (result_of (run h (for_break n i loginAttempt t) w)).
Proof.
  induction n as [| n IH]; intros i t w; [apply sameAccount_refl |].
  cbn [for_break]. rewrite run_bind.
  pose proof (loginAttempt_account i t w) as Hacc.
  destruct (run h (loginAttempt i t) w) as [[tr1 [t1 b]] w1].
  unfold result_of in *. cbn [fst snd] in *.
  destruct b.
  - cbn [run fst snd]. exact Hacc.
  - specialize (IH (Go.add i 1) t1 w1).
    destruct (run h (for_break n (Go.add i 1) loginAttempt t1) w1) as [[tr2 t2] w2].
    cbn [fst snd] in *. exact (sameAccount_trans _ _ _ Hacc IH).
Qed.

Lemma checkLogin_account (t : TrainerSession.t) (w : W) :
  match result_of (run h (checkLogin t) w) with
  | Some t' => sameAccount t t'
  | None => True
  end.
Proof.
  unfold checkLogin. cbn [bind trigger run].
  destruct (h _ (IsExpired _) w) as [[] w1]; cbn [fst snd bind run].
  - destruct (h _ (Log _) w1) as [[] w2]. cbn [fst snd bind run].
    rewrite run_bind. unfold relogin.
    pose proof (for_break_account 5 0 t w2) as Hacc.
    destruct (run h (for_break 5 0 loginAttempt t) w2) as [[tr t'] w3].
    unfold result_of in *. cbn [fst snd bind trigger run] in *.
    destruct (h _ (IsExpired _) w3) as [[] w4]; cbn [fst snd bind run].
    + destruct (h _ (Log _) w4) as [[] w5]. exact I.
    + exact Hacc.
  - apply sameAccount_refl.
Qed.

Lemma huntAt_account (ScanDelay : Z) (db : mapsql.DbConnection) (t : TrainerSession.t)
    (w : W) :
  match result_of (run h (huntAt ScanDelay db t) w) with
  | Some t' => sameAccount t t'
  | None => True
  end.
Proof.
  pose proof (run_huntAt h ScanDelay db t w) as Hrun. cbv zeta in Hrun.
  destruct (fst (h _ (RecvLocation _) (snd (h _ Tick w)))) as [l |].
  - destruct Hrun as [_ Hres]. rewrite Hres. destruct t. repeat split.
  - rewrite Hrun. exact I.
Qed.

Lemma huntLoop_account (ScanDelay : Z) (db : mapsql.DbConnection) (n : nat) :
  forall (t : TrainerSession.t) (w : W),
    match result_of (run h (huntLoop n ScanDelay db t) w) with
    | Hunting t' => sameAccount t t'
    | Returned => True
    end.
Proof.
  induction n as [| n IH]; intros t w; [apply sameAccount_refl |].
  cbn [huntLoop]. rewrite run_bind, run_huntRound.
  pose proof (checkLogin_account t w) as Hc.
  destruct (run h (checkLogin t) w) as [[tr1 [t1 |]] w1];
    unfold result_of in *; cbn [fst snd] in *; [| exact I].
  pose proof (huntAt_account ScanDelay db t1 w1) as Ha.
  destruct (run h (huntAt ScanDelay db t1) w1) as [[tr2 [t2 |]] w2];
    unfold result_of, world_of in *; cbn [fst snd] in *; [| exact I].
  specialize (IH t2 w2).
  destruct (run h (huntLoop n ScanDelay db t2) w2) as [[tr3 [| t3]] w3];
    cbn [fst snd] in *; [exact I |].
  exact (sameAccount_trans _ _ _ (sameAccount_trans _ _ _ Hc Ha) IH).
Qed.

End AccountKept.

(** X3. [Hunt] changes the session and the location of its trainer and
    nothing else: while it is hunting, after any number of rounds and
    whatever the environment answers (logins that fail, re-logins, new
    locations), the trainer holds the provider, the user name, the password,
    the feed, the context and the crypto handle it started with. *)
Theorem Hunt_keeps_account :
  forall (F : Foreign) (W : Type) (h : handler HuntE W) (n : nat) (ScanDelay : Z)
         (db : mapsql.DbConnection) (t : TrainerSession.t) (w : W),
    match result_of (run h (Hunt n ScanDelay db t) w) with
    | Hunting t' => sameAccount t t'
    | Returned => True
    end.
Proof.
  intros F W h n ScanDelay db t w. rewrite run_Hunt. cbv zeta.
  pose proof (Login_account h t (snd (h _ Tick w))) as Hl.
  destruct (run h (Login t) (snd (h _ Tick w))) as [[tr1 r] w1].
  unfold result_of in Hl. cbn [fst snd] in Hl.
  pose proof (huntLoop_account h ScanDelay db n (fst r) w1) as Hloop.
  destruct (run h (huntLoop n ScanDelay db (fst r)) w1) as [[tr2 [| t2]] w2];
    unfold result_of in *; cbn [fst snd] in *; [exact I |].
  exact (sameAccount_trans _ _ _ Hl Hloop).
Qed.

(** ** The size and the level of a honeycomb *)

Lemma length_concat_rings (segs : list (list Location)) :
  forall b : nat,
    (forall (k : nat) seg, segs !! k = Some seg -> length seg = (6 * (b + k + 1))%nat) ->
    length (concat segs)
    = (6 * b * length segs + 3 * length segs * (length segs + 1))%nat.
Proof.
  induction segs as [| seg segs IH]; intros b Hsegs; [cbn; lia |].
  cbn [concat length]. rewrite length_app.
  rewrite (Hsegs 0%nat seg eq_refl).
  rewrite (IH (S b)).
  - nia.
  - intros k s Hk. rewrite (Hsegs (S k) s Hk). lia.
Qed.

(** X4. The honeycomb of [n] rings (ring count [n + 1]) holds
    6 + 12 + ... + 6 n = 3 n (n + 1) locations, whatever the center and the
    projection. *)
Theorem generateHoneyComb_length :
  forall (geo : GeoLibrary) (center : Location) (radius distance : float64),
    let n := Z.to_nat (ringCount radius distance - 1) in
    length (generateHoneyComb center radius distance) = (3 * n * (n + 1))%nat.
Proof.
  intros geo center radius distance n.
  destruct (generateHoneyComb_rings center radius distance) as [segs [E [L Hsegs]]].
  rewrite E, (length_concat_rings segs 0).
  - fold n in L. rewrite L. lia.
  - intros k seg Hk. rewrite (Hsegs k seg Hk). lia.
Qed.

Section Level.

Context `{GeoLibrary} (center : Location).

Lemma level_move d b st : level center st -> level center (move d b st).
Proof. intros [Hc Hl]. split; [exact Hc | exact Hl]. Qed.

Lemma level_emit st : level center st -> level center (emit st).
Proof.
  intros [Hc Hl]. split; [exact Hc |]. cbn [emit snd].
  apply Forall_app. split; [exact Hl |]. constructor; [exact Hc | constructor].
Qed.

Lemma level_for_steps (body : Z -> comb -> comb) :
  (forall i st, level center st -> level center (body i st)) ->
  forall n i st, level center st -> level center (for_steps n i body st).
Proof.
  intros Hb. induction n as [| n IH]; intros i st Hst; [exact Hst |].
  cbn [for_steps]. apply IH, Hb, Hst.
Qed.

Lemma level_ringWalk dx dy ring st :
  level center st -> level center (ringWalk dx dy ring st).
Proof.
  intros Hst. unfold ringWalk, for_range.
  repeat (apply level_for_steps;
          [intros ? ? ?; apply level_emit; repeat apply level_move; assumption |]).
  apply level_move, Hst.
Qed.

End Level.

Lemma generateHoneyComb_levelWith `{GeoLibrary} (center : Location)
    (radius distance : float64) :
  Forall (levelWith center) (generateHoneyComb center radius distance).
Proof.
  unfold generateHoneyComb, for_range.
  apply (level_for_steps center).
  - intros i st. apply level_ringWalk.
  - split; [split; reflexivity | constructor].
Qed.

(** X5. Every location of a honeycomb has the altitude and the accuracy of
    its center: the walk changes latitudes and longitudes only. *)
Theorem generateHoneyComb_level :
  forall (geo : GeoLibrary) (center : Location) (radius distance : float64),
    Forall (fun l => Alt l = Alt center /\ Accuracy l = Accuracy center)
           (generateHoneyComb center radius distance).
Proof.
  intros geo center radius distance.
  exact (generateHoneyComb_levelWith center radius distance).
Qed.

(** ** The round of the honeycomb and of the polygon provider *)

Section Cursor.

Context `{RandSource}.

Lemma cursorStep_in_range (locations : list Location) (cursor : Z) (g : Rand) :
  locations <> [] ->
  len locations <= max_int ->
  -1 <= cursor < len locations ->
  exists l0 a,
    let step := (cursor + 1) mod len locations in
    let l := {| Lat := Lat l0; Lon := Lon l0; Alt := Alt l0; Accuracy := a |} in
    0 <= step < len locations /\
    locations !! Z.to_nat step = Some l0 /\
    In a choices /\
    cursorStep locations cursor g
      = Ok (<[Z.to_nat step := l]> locations, step, l, snd (Intn g 8)).
Proof.
  intros Hne Hmax Hc. unfold cursorStep.
  set (n := len locations) in *.
  assert (Hn : 0 < n) by (unfold n, len; destruct locations; [congruence | simpl; lia]).
  unfold Go.add. rewrite wrap_small by (unfold min_int, max_int in *; lia).
  assert (Hstep : (if cursor + 1 >=? n then 0 else cursor + 1) = (cursor + 1) mod n).
  { destruct (Z.geb_spec (cursor + 1) n) as [Hge | Hlt].
    - replace (cursor + 1) with n by lia. rewrite Z.mod_same by lia. reflexivity.
    - rewrite Z.mod_small by lia. reflexivity. }
  rewrite Hstep.
  pose proof (Z.mod_pos_bound (cursor + 1) n Hn) as Hs.
  destruct (index_Some locations ((cursor + 1) mod n)) as [l0 [Hi Hl]]; [exact Hs |].
  rewrite Hi.
  destruct (setRandomAccuracy_spec l0 g) as [a [Ha E]]. rewrite E.
  exists l0, a. cbv zeta. split; [exact Hs |]. split; [exact Hl |].
  split; [exact (lookup_In _ _ _ Ha) | reflexivity].
Qed.

(** From a list that holds the spots of [ref], [n] steps return the spots
    of [ref] in turn, from the one after the cursor on and around. *)
Lemma cursorSteps_round (ref : list Location) (n : nat) :
  forall (locations : list Location) (cursor : Z) (g : Rand),
    Forall2 sameSpot ref locations ->
    ref <> [] ->
    len ref <= max_int ->
    -1 <= cursor < len ref ->
    exists ls,
      cursorSteps n locations cursor g = Ok ls /\
      length ls = n /\
      forall (k : nat) l,
        ls !! k = Some l ->
        exists l0,
          ref !! Z.to_nat ((cursor + 1 + Z.of_nat k) mod len ref) = Some l0 /\
          sameSpot l0 l /\ In (Accuracy l) choices.
Proof.
  induction n as [| n IH]; intros locations cursor g Hsame Hne Hmax Hc.
  - exists []. split; [reflexivity |]. split; [reflexivity |].
    intros k l Hk. destruct k; discriminate Hk.
  - pose proof (Forall2_length _ _ _ Hsame) as Hlen.
    assert (Hlen' : len locations = len ref) by (unfold len; lia).
    assert (Hne' : locations <> [])
      by (intros ->; destruct ref; [congruence | discriminate Hlen]).
    destruct (cursorStep_in_range locations cursor g Hne' ltac:(lia) ltac:(lia))
      as [l0 [a [Hs [Hl0 [Ha E]]]]].
    rewrite Hlen' in *. set (step := (cursor + 1) mod len ref) in *.
    set (l1 := {| Lat := Lat l0; Lon := Lon l0; Alt := Alt l0; Accuracy := a |}) in *.
    destruct (Forall2_lookup_r _ _ _ _ _ Hsame Hl0) as [r0 [Hr0 Hspot]].
    assert (Hsame' : Forall2 sameSpot ref (<[Z.to_nat step := l1]> locations)).
    { rewrite <- (list_insert_id ref (Z.to_nat step) r0 Hr0).
      apply Forall2_insert; [exact Hsame | exact Hspot]. }
    destruct (IH (<[Z.to_nat step := l1]> locations) step (snd (Intn g 8))
                Hsame' Hne Hmax ltac:(lia)) as [ls [Els [Lls Hls]]].
    exists (l1 :: ls). split; [| split].
    + cbn [cursorSteps]. rewrite E, Els. reflexivity.
    + cbn [length]. rewrite Lls. reflexivity.
    + intros [| k] l Hk.
      * cbn in Hk. inversion Hk; subst l. exists r0.
        rewrite Z.add_0_r. fold step. split; [exact Hr0 |].
        split; [exact Hspot | exact Ha].
      * cbn in Hk. destruct (Hls k l Hk) as [r [Hr Hrl]]. exists r.
        split; [| exact Hrl]. rewrite <- Hr. do 2 f_equal.
        unfold step.
        replace ((cursor + 1) mod len ref + 1 + Z.of_nat k)
          with ((cursor + 1) mod len ref + (1 + Z.of_nat k)) by lia.
        rewrite Z.add_mod_idemp_l by lia. f_equal. lia.
Qed.

Lemma sameSpot_refl (ls : list Location) : Forall2 sameSpot ls ls.
Proof. apply Forall2_same_length_lookup_2; [reflexivity |].
  intros i x y Hx Hy. rewrite Hx in Hy. inversion Hy; subst. repeat split.
Qed.

Lemma HoneyCombProvider_cursorSteps (n : nat) :
  forall (h : HoneyCombProvider.t) (g : Rand),
    nextLocations n h g
    = cursorSteps n (HoneyCombProvider.Locations h) (HoneyCombProvider.CurrentStep h) g.
Proof.
  induction n as [| n IH]; intros h g; [reflexivity |].
  cbn [nextLocations cursorSteps NextLocation HoneyCombProvider_provider].
  unfold HoneyCombProvider.NextLocation, cursorStep.
  destruct (index _ _) as [l |]; [| reflexivity].
  destruct (setRandomAccuracy l g) as [[l' g'] |]; [| reflexivity].
  rewrite IH. reflexivity.
Qed.

Lemma PolygonProvider_cursorSteps (n : nat) :
  forall (p : PolygonProvider.t) (g : Rand),
    nextLocations n p g
    = cursorSteps n (PolygonProvider.Locations p) (PolygonProvider.currentLocation p) g.
Proof.
  induction n as [| n IH]; intros p g; [reflexivity |].
  cbn [nextLocations cursorSteps NextLocation PolygonProvider_provider].
  unfold PolygonProvider.NextLocation, cursorStep.
  destruct (index _ _) as [l |]; [| reflexivity].
  destruct (setRandomAccuracy l g) as [[l' g'] |]; [| reflexivity].
  rewrite IH. reflexivity.
Qed.

End Cursor.

(** X6. A honeycomb provider with at least one location (and no more than
    an [int] counts) and its cursor in [-1, len) serves its locations in a
    round: any number of calls of [NextLocation] in a row succeed, and call
    number [k] (from 0) returns the latitude, longitude and altitude of the
    location of index (cursor + 1 + k) mod len, with an accuracy drawn from
    [choices]. The accuracies written into the list on the way do not
    disturb the round. *)
Theorem HoneyCombProvider_round_robin :
  forall (rnd : RandSource) (h : HoneyCombProvider.t) (g : Rand) (n : nat),
    HoneyCombProvider.Locations h <> [] ->
    len (HoneyCombProvider.Locations h) <= max_int ->
    -1 <= HoneyCombProvider.CurrentStep h < len (HoneyCombProvider.Locations h) ->
    exists ls,
      nextLocations n h g = Ok ls /\
      length ls = n /\
      forall (k : nat) l,
        ls !! k = Some l ->
        exists l0,
          HoneyCombProvider.Locations h
            !! Z.to_nat ((HoneyCombProvider.CurrentStep h + 1 + Z.of_nat k)
                           mod len (HoneyCombProvider.Locations h)) = Some l0 /\
          Lat l = Lat l0 /\ Lon l = Lon l0 /\ Alt l = Alt l0 /\
          In (Accuracy l) choices.
Proof.
  intros rnd h g n Hne Hmax Hc. rewrite HoneyCombProvider_cursorSteps.
  destruct (cursorSteps_round (HoneyCombProvider.Locations h) n
              (HoneyCombProvider.Locations h) (HoneyCombProvider.CurrentStep h) g
              (sameSpot_refl _) Hne Hmax Hc) as [ls [E [L Hls]]].
  exists ls. split; [exact E |]. split; [exact L |].
  intros k l Hk. destruct (Hls k l Hk) as [l0 [Hl0 [[H1 [H2 H3]] Ha]]].
  exists l0. repeat split; assumption.
Qed.

(** X6 at an input: eight calls on the honeycomb of one ring. *)
Lemma HoneyCombProvider_round_robin_witness :
  exists ls,
    @nextLocations counting _ _ 8 (@NewHoneyCombProvider still origin 200 70) 0 = Ok ls /\
    length ls = 8%nat.
Proof.
  destruct (HoneyCombProvider_round_robin counting
              (@NewHoneyCombProvider still origin 200 70) 0 8) as [ls [E [L _]]].
  - intros Hnil. vm_compute in Hnil. discriminate Hnil.
  - vm_compute. discriminate.
  - vm_compute. split; [discriminate | reflexivity].
  - exists ls. split; [exact E | exact L].
Defined.

(** X7. A polygon provider with at least one location and its cursor in
    [-1, len) serves its locations in a round, as the honeycomb provider
    does: call number [k] of [NextLocation] returns the latitude, longitude
    and altitude of the location of index (cursor + 1 + k) mod len, with an
    accuracy drawn from [choices]. *)
Theorem PolygonProvider_round_robin :
  forall (rnd : RandSource) (p : PolygonProvider.t) (g : Rand) (n : nat),
    PolygonProvider.Locations p <> [] ->
    len (PolygonProvider.Locations p) <= max_int ->
    -1 <= PolygonProvider.currentLocation p < len (PolygonProvider.Locations p) ->
    exists ls,
      nextLocations n p g = Ok ls /\
      length ls = n /\
      forall (k : nat) l,
        ls !! k = Some l ->
        exists l0,
          PolygonProvider.Locations p
            !! Z.to_nat ((PolygonProvider.currentLocation p + 1 + Z.of_nat k)
                           mod len (PolygonProvider.Locations p)) = Some l0 /\
          Lat l = Lat l0 /\ Lon l = Lon l0 /\ Alt l = Alt l0 /\
          In (Accuracy l) choices.
Proof.
  intros rnd p g n Hne Hmax Hc. rewrite PolygonProvider_cursorSteps.
  destruct (cursorSteps_round (PolygonProvider.Locations p) n
              (PolygonProvider.Locations p) (PolygonProvider.currentLocation p) g
              (sameSpot_refl _) Hne Hmax Hc) as [ls [E [L Hls]]].
  exists ls. split; [exact E |]. split; [exact L |].
  intros k l Hk. destruct (Hls k l Hk) as [l0 [Hl0 [[H1 [H2 H3]] Ha]]].
  exists l0. repeat split; assumption.
Qed.

(** X7 at an input: five calls on a provider of two locations. *)
Lemma PolygonProvider_round_robin_witness :
  exists ls,
    @nextLocations counting _ _ 5
      {| PolygonProvider.Polygon := None;
         PolygonProvider.Locations := [origin; origin];
         PolygonProvider.currentLocation := -1 |} 0 = Ok ls /\
    length ls = 5%nat.
Proof.
  destruct (PolygonProvider_round_robin counting
              {| PolygonProvider.Polygon := None;
                 PolygonProvider.Locations := [origin; origin];
                 PolygonProvider.currentLocation := -1 |} 0 5) as [ls [E [L _]]].
  - discriminate.
  - vm_compute. discriminate.
  - vm_compute. split; [discriminate | reflexivity].
  - exists ls. split; [exact E | exact L].
Defined.

(** ** The responses [GetAltitude] opens and closes *)

Section Closes.

Context `{Foreign} {W : Type} (h : handler HttpE W).

Lemma run_leave_closes {R} (deferred : list http_Response) (r : R) (w : W) :
  trace_of (run h (leave deferred r) w) = map closeOf deferred.
Proof.
  revert w. induction deferred as [| resp rest IH]; intros w; [reflexivity |].
  cbn [leave bind trigger run]. destruct (h _ (BodyClose resp) w) as [[] w1].
  specialize (IH w1). destruct (run h (leave rest r) w1) as [[tr r'] w2].
  unfold trace_of in *. cbn [fst map] in *. rewrite IH. reflexivity.
Qed.

Lemma opened_closes (l : list http_Response) : opened (map closeOf l) = [].
Proof. induction l as [| resp l IH]; [reflexivity | exact IH]. Qed.

Lemma closed_closes (l : list http_Response) : closed (map closeOf l) = l.
Proof.
  induction l as [| resp l IH]; [reflexivity |].
  cbn [map]. change (closed (closeOf resp :: map closeOf l))
    with (resp :: closed (map closeOf l)). rewrite IH. reflexivity.
Qed.

(** Leaving a round: the work so far, then the deferred closes. *)
Ltac leaves deferred r w work :=
  let Hl := fresh "Hl" in
  let tr := fresh "tr" in
  pose proof (run_leave_closes deferred r w) as Hl;
  destruct (run h (leave deferred r) w) as [[tr ?] ?];
  unfold trace_of in *; cbn [fst] in *; subst tr;
  exists work; split; reflexivity.

(** The request loop works, then closes: what it opened, last opened
    first, then what was deferred before. *)
Lemma requestLoop_closes (key : string) (latLngPairs : list string) (n : nat) :
  forall i elevations deferred w,
    exists work,
      trace_of (run h (requestLoop n i latLngPairs key elevations deferred) w)
        = work ++ map closeOf (rev (opened work) ++ deferred) /\
      closed work = [].
Proof.
  induction n as [| n IH]; intros i elevations deferred w.
  - cbn [requestLoop].
    leaves deferred (Ok (elevations, @None error)) w (@nil (obs HttpE)).
  - cbn [requestLoop].
    destruct (slice latLngPairs (i * rateLimit) _) as [batch |].
    2:{ leaves deferred (@Panic (list float64 * option error)) w (@nil (obs HttpE)). }
    cbn [bind trigger run].
    destruct (h _ (HttpGet (requestURL batch key)) w) as [[resp | e1] w1].
    2:{ cbn [bind run].
        leaves deferred (Ok (elevations, Some e1)) w1
               [Obs (HttpGet (requestURL batch key)) (@inr http_Response error e1)]. }
    cbn [bind run].
    destruct (h _ (ReadAll resp) w1) as [[body | e2] w2].
    2:{ cbn [bind run].
        leaves (resp :: deferred) (Ok (elevations, Some e2)) w2
               [Obs (HttpGet (requestURL batch key)) (@inl http_Response error resp);
                Obs (ReadAll resp) (@inr HttpBody error e2)]. }
    cbn [bind run].
    destruct (h _ (Unmarshal body) w2) as [[response | e3] w3].
    2:{ cbn [bind run].
        leaves (resp :: deferred) (Ok (elevations, Some e3)) w3
               [Obs (HttpGet (requestURL batch key)) (@inl http_Response error resp);
                Obs (ReadAll resp) (@inl HttpBody error body);
                Obs (Unmarshal body) (@inr ElevationApiResults.t error e3)]. }
    cbn [bind run].
    destruct (storeElevations _ 0 (rateLimit * i) elevations) as [el1 |].
    + destruct (IH (i + 1) el1 (resp :: deferred) w3) as [work [Htr Hcl]].
      destruct (run h (requestLoop n (i + 1) latLngPairs key el1 (resp :: deferred)) w3)
        as [[tr r] w4].
      unfold trace_of in *. cbn [fst] in *. subst tr.
      exists (Obs (HttpGet (requestURL batch key)) (@inl http_Response error resp)
                :: Obs (ReadAll resp) (@inl HttpBody error body)
                :: Obs (Unmarshal body) (@inl ElevationApiResults.t error response)
                :: work).
      split; [| exact Hcl].
      change (opened (Obs (HttpGet (requestURL batch key)) (inl resp)
                        :: Obs (ReadAll resp) (inl body)
                        :: Obs (Unmarshal body) (inl response) :: work))
        with (resp :: opened work).
      cbn [rev app]. rewrite <- (app_assoc (rev (opened work)) [resp] deferred).
      reflexivity.
    + leaves (resp :: deferred) (@Panic (list float64 * option error)) w3
             [Obs (HttpGet (requestURL batch key)) (@inl http_Response error resp);
              Obs (ReadAll resp) (@inl HttpBody error body);
              Obs (Unmarshal body) (@inl ElevationApiResults.t error response)].
Qed.

End Closes.

(** X8. [GetAltitude] closes the body of every response it got, once, and
    only when it leaves: every run, however it ends (all batches done, a
    step failed, a panic), is the requests, readings and parsings with no
    close among them, followed by the closes of the responses obtained, the
    last obtained first. So all the responses of a lookup stay open until
    its last batch is done. *)
Theorem GetAltitude_closes_on_leaving :
  forall (F : Foreign) (W : Type) (h : handler HttpE W) (locations : list Location)
         (key : string) (w : W),
    let tr := trace_of (run h (GetAltitude locations key) w) in
    closed tr = rev (opened tr) /\
    exists work,
      tr = work ++ map closeOf (closed tr) /\
      closed work = [] /\
      opened work = opened tr.
Proof.
  intros F W h locations key w. cbv zeta. unfold GetAltitude.
  destruct (requestLoop_closes h key (map latLngPair locations)
              (Z.to_nat (numRequests (len locations))) 0
              (replicate (length locations) 0%float) [] w) as [work [Htr Hcl]].
  rewrite app_nil_r in Htr. rewrite Htr.
  assert (Hc : closed (work ++ map closeOf (rev (opened work))) = rev (opened work)).
  { unfold closed at 1. rewrite omap_app. fold (closed work).
    fold (closed (map closeOf (rev (opened work)))).
    rewrite Hcl, closed_closes. reflexivity. }
  assert (Ho : opened (work ++ map closeOf (rev (opened work))) = opened work).
  { unfold opened at 1. rewrite omap_app. fold (opened work).
    fold (opened (map closeOf (rev (opened work)))).
    rewrite opened_closes, app_nil_r. reflexivity. }
  rewrite Hc, Ho. split; [reflexivity |].
  exists work. split; [reflexivity |]. split; [exact Hcl | reflexivity].
Qed.

(** ** The altitudes written *)

Lemma storeElevations_length (results : list ElevationApiResult.t) :
  forall j base elevations el,
    storeElevations results j base elevations = Some el ->
    length el = length elevations.
Proof.
  induction results as [| e rest IH]; intros j base elevations el Hs.
  - inversion Hs. reflexivity.
  - cbn [storeElevations] in Hs. unfold store in Hs.
    destruct ((0 <=? j + base) && (j + base <? len elevations)); [| discriminate Hs].
    apply IH in Hs. rewrite length_insert in Hs. exact Hs.
Qed.

(** The writes of one response fail exactly when it holds a result beyond
    the end of the altitudes. *)
Lemma storeElevations_None (results : list ElevationApiResult.t) :
  forall j base elevations,
    0 <= j + base ->
    storeElevations results j base elevations = None <->
    results <> [] /\ (length elevations < Z.to_nat (j + base) + length results)%nat.
Proof.
  induction results as [| e rest IH]; intros j base elevations Hj.
  - cbn [storeElevations]. split; [discriminate | intros [Hne _]; congruence].
  - cbn [storeElevations length]. unfold store, len.
    destruct (Z.ltb_spec (j + base) (Z.of_nat (length elevations))) as [Hlt | Hge].
    + replace (0 <=? j + base) with true by (symmetry; apply Z.leb_le; exact Hj).
      cbn [andb]. rewrite (IH (j + 1) base _ ltac:(lia)), length_insert.
      replace (Z.to_nat (j + 1 + base)) with (S (Z.to_nat (j + base))) by lia.
      split.
      * intros [_ Hlen]. split; [discriminate | lia].
      * intros [_ Hlen]. split; [| lia]. intros ->. cbn [length] in Hlen. lia.
    + rewrite andb_false_r. split; [| reflexivity].
      intros _. split; [discriminate | lia].
Qed.

Lemma setAlts_from (elevations : list float64) :
  forall (done rest : list Location),
    (length elevations <= length rest)%nat ->
    setAlts elevations (Z.of_nat (length done)) (done ++ rest)
    = Some (done ++ zip_with withAlt rest elevations ++ drop (length elevations) rest).
Proof.
  induction elevations as [| e elevations IH]; intros done rest Hlen.
  - cbn [setAlts length drop]. destruct rest; reflexivity.
  - destruct rest as [| l rest]; [cbn [length] in Hlen; lia |].
    cbn [setAlts]. unfold index, store, len.
    replace ((0 <=? Z.of_nat (length done))
             && (Z.of_nat (length done) <? Z.of_nat (length (done ++ l :: rest))))
      with true
      by (symmetry; rewrite length_app; cbn [length];
          rewrite andb_true_iff, Z.leb_le, Z.ltb_lt; lia).
    rewrite Nat2Z.id, list_lookup_middle by reflexivity.
    replace (length done) with (length done + 0)%nat at 2 by lia.
    rewrite insert_app_r. cbn [insert list_insert].
    replace (Z.of_nat (length done) + 1) with (Z.of_nat (length (done ++ [withAlt l e])))
      by (rewrite length_app; cbn [length]; lia).
    change (done ++ {| Lat := Lat l; Lon := Lon l; Alt := e; Accuracy := Accuracy l |} :: rest)
      with (done ++ [withAlt l e] ++ rest).
    rewrite app_assoc, IH by (cbn [length] in Hlen; lia).
    rewrite <- app_assoc. reflexivity.
Qed.

(** With one altitude per location, every location gets its altitude. *)
Lemma setAlts_zip (elevations : list float64) (locations : list Location) :
  length elevations = length locations ->
  setAlts elevations 0 locations = Some (zip_with withAlt locations elevations).
Proof.
  intros Hlen.
  pose proof (setAlts_from elevations [] locations ltac:(lia)) as Hs.
  cbn [length app] in Hs. change (Z.of_nat 0) with 0 in Hs. rewrite Hs.
  rewrite drop_ge, app_nil_r by lia. reflexivity.
Qed.

Section AltitudesWritten.

Context `{Foreign} {W : Type} (h : handler HttpE W).

Ltac leaves_with deferred r w :=
  let Hr := fresh "Hr" in
  destruct (run_leave h deferred r w) as [Hr _]; rewrite Hr.

(** However the request loop returns, the altitudes are as many as
    before. *)
Lemma requestLoop_length (key : string) (latLngPairs : list string) (n : nat) :
  forall i elevations deferred w,
    match result_of (run h (requestLoop n i latLngPairs key elevations deferred) w) with
    | Ok (el, _) => length el = length elevations
    | Panic => True
    end.
Proof.
  induction n as [| n IH]; intros i elevations deferred w.
  - cbn [requestLoop]. leaves_with deferred (Ok (elevations, @None error)) w. reflexivity.
  - cbn [requestLoop].
    destruct (slice latLngPairs (i * rateLimit) _) as [batch |].
    2:{ leaves_with deferred (@Panic (list float64 * option error)) w. exact I. }
    rewrite run_bind, run_trigger. cbn [fst snd].
    destruct (fst (h _ (HttpGet (requestURL batch key)) w)) as [resp | e1].
    2:{ set (w1 := snd _).
        pose proof (run_leave h deferred (Ok (elevations, Some e1)) w1) as [Hr _].
        destruct (run h (leave deferred (Ok (elevations, Some e1))) w1) as [[tr r] w2].
        unfold result_of in *. cbn [fst snd] in *. subst r. reflexivity. }
    set (w1 := snd _). rewrite run_bind, run_trigger. cbn [fst snd].
    destruct (fst (h _ (ReadAll resp) w1)) as [body | e2].
    2:{ set (w2 := snd _).
        pose proof (run_leave h (resp :: deferred) (Ok (elevations, Some e2)) w2) as [Hr _].
        destruct (run h (leave (resp :: deferred) (Ok (elevations, Some e2))) w2)
          as [[tr r] w3].
        unfold result_of in *. cbn [fst snd] in *. subst r. reflexivity. }
    set (w2 := snd _). rewrite run_bind, run_trigger. cbn [fst snd].
    destruct (fst (h _ (Unmarshal body) w2)) as [response | e3].
    2:{ set (w3 := snd _).
        pose proof (run_leave h (resp :: deferred) (Ok (elevations, Some e3)) w3) as [Hr _].
        destruct (run h (leave (resp :: deferred) (Ok (elevations, Some e3))) w3)
          as [[tr r] w4].
        unfold result_of in *. cbn [fst snd] in *. subst r. reflexivity. }
    set (w3 := snd _).
    destruct (storeElevations _ 0 (rateLimit * i) elevations) as [el1 |] eqn:Hstore.
    + apply storeElevations_length in Hstore.
      specialize (IH (i + 1) el1 (resp :: deferred) w3).
      destruct (run h (requestLoop n (i + 1) latLngPairs key el1 (resp :: deferred)) w3)
        as [[tr r] w4].
      unfold result_of in *. cbn [fst snd] in *.
      destruct r as [[el err] |]; [congruence | exact I].
    + pose proof (run_leave h (resp :: deferred)
                    (@Panic (list float64 * option error)) w3) as [Hr _].
      destruct (run h (leave (resp :: deferred) Panic) w3) as [[tr r] w4].
      unfold result_of in *. cbn [fst snd] in *. subst r. exact I.
Qed.

Lemma GetAltitude_length (locations : list Location) (key : string) (w : W) :
  match result_of (run h (GetAltitude locations key) w) with
  | Ok (el, _) => length el = length locations
  | Panic => True
  end.
Proof.
  unfold GetAltitude.
  pose proof (requestLoop_length key (map latLngPair locations)
                (Z.to_nat (numRequests (len locations))) 0
                (replicate (length locations) 0%float) [] w) as Hl.
  destruct (result_of _) as [[el err] |]; [| exact I].
  rewrite length_replicate in Hl. exact Hl.
Qed.

(** What [SetCorrectAltitudes] returns, by what [GetAltitude] does. *)
Lemma SetCorrectAltitudes_result (locations : list Location) (key : string) (w : W) :
  match result_of (run h (GetAltitude locations key) w) with
  | Ok (elevations, None) =>
      length elevations = length locations /\
      result_of (run h (SetCorrectAltitudes locations key) w)
        = Ok (zip_with withAlt locations elevations, None)
  | Ok (elevations, Some err) =>
      length elevations = length locations /\
      result_of (run h (SetCorrectAltitudes locations key) w) = Ok (locations, Some err)
  | Panic => result_of (run h (SetCorrectAltitudes locations key) w) = Panic
  end.
Proof.
  rewrite run_SetCorrectAltitudes.
  pose proof (GetAltitude_length locations key w) as Hlen.
  destruct (run h (GetAltitude locations key) w) as [[tr r] w'].
  unfold result_of in *. cbn [fst snd] in *.
  destruct r as [[elevations [err |]] |]; cbn [altitudesSet].
  - split; [exact Hlen | reflexivity].
  - split; [exact Hlen |]. rewrite (setAlts_zip _ _ Hlen). reflexivity.
  - reflexivity.
Qed.

Lemma SetCorrectAltitudes_trace (locations : list Location) (key : string) (w : W) :
  trace_of (run h (SetCorrectAltitudes locations key) w)
  = trace_of (run h (GetAltitude locations key) w).
Proof.
  rewrite run_SetCorrectAltitudes.
  destruct (run h (GetAltitude locations key) w) as [[tr r] w']. reflexivity.
Qed.

End AltitudesWritten.

(** X9. [GetAltitude] returns one altitude per location whenever it
    returns, with or without an error; and [SetCorrectAltitudes] makes the
    calls of [GetAltitude] and no other, never panics on its own, and
    changes altitudes only: on success location [i] keeps its latitude,
    longitude and accuracy and gets altitude [i]; on an error the locations
    are returned as they were. *)
Theorem SetCorrectAltitudes_sets_altitudes_only :
  forall (F : Foreign) (W : Type) (h : handler HttpE W) (locations : list Location)
         (key : string) (w : W),
    trace_of (run h (SetCorrectAltitudes locations key) w)
      = trace_of (run h (GetAltitude locations key) w) /\
    match result_of (run h (GetAltitude locations key) w) with
    | Ok (elevations, None) =>
        length elevations = length locations /\
        result_of (run h (SetCorrectAltitudes locations key) w)
          = Ok (zip_with withAlt locations elevations, None)
    | Ok (elevations, Some err) =>
        length elevations = length locations /\
        result_of (run h (SetCorrectAltitudes locations key) w) = Ok (locations, Some err)
    | Panic => result_of (run h (SetCorrectAltitudes locations key) w) = Panic
    end.
Proof.
  intros F W h locations key w.
  split; [apply SetCorrectAltitudes_trace | apply SetCorrectAltitudes_result].
Qed.

(** ** When [GetAltitude] panics *)

Section Overfull.

Context `{Foreign} {W : Type} (h : handler HttpE W).

(** A round that returns through [leave] with an error: no panic, and
    nothing parsed from there on. *)
Ltac returns_error deferred r w :=
  let Hr := fresh "Hr" in
  let Hp := fresh "Hp" in
  let tr := fresh "tr" in
  let r' := fresh "r" in
  destruct (run_leave h deferred r w) as [Hr [_ [_ Hp]]];
  destruct (run h (leave deferred r) w) as [[tr r'] ?];
  unfold result_of, trace_of in *; cbn [fst snd] in *; subst r';
  rewrite ?parsed_get, ?parsed_read; try rewrite Hp;
  split; [discriminate | intros [j [rs [Hj _]]]; destruct j; discriminate Hj].

Lemma parsed_parse_failed body (err : error) (tr : list (obs HttpE)) :
  parsed (Obs (Unmarshal body) (inr err) :: tr) = parsed tr.
Proof. reflexivity. Qed.

(** The request loop from round [k] on panics exactly when a response
    holds more results than there are altitudes from its batch's start
    on. *)
Lemma requestLoop_panics (key : string) (latLngPairs : list string) (n : nat) :
  forall (k : nat) elevations deferred w,
    length elevations = length latLngPairs ->
    (n = 0 \/ 405 * (k + n - 1) < length latLngPairs)%nat ->
    result_of (run h (requestLoop n (Z.of_nat k) latLngPairs key elevations deferred) w)
      = Panic <->
    exists (j : nat) rs,
      parsed (trace_of (run h (requestLoop n (Z.of_nat k) latLngPairs key
                                 elevations deferred) w)) !! j = Some rs /\
      (length elevations < 405 * (k + j) + length rs)%nat.
Proof.
  induction n as [| n IH]; intros k elevations deferred w Hlen Hvalid.
  - cbn [requestLoop]. returns_error deferred (Ok (elevations, @None error)) w.
  - assert (Hk : (405 * k < length latLngPairs)%nat) by lia.
    cbn [requestLoop]. rewrite (slice_batchAt latLngPairs k Hk).
    set (batch := batchAt latLngPairs k).
    cbn [bind trigger run].
    destruct (h _ (HttpGet (requestURL batch key)) w) as [[resp | e1] w1].
    2:{ cbn [bind run]. returns_error deferred (Ok (elevations, Some e1)) w1. }
    cbn [bind run].
    destruct (h _ (ReadAll resp) w1) as [[body | e2] w2].
    2:{ cbn [bind run]. returns_error (resp :: deferred) (Ok (elevations, Some e2)) w2. }
    cbn [bind run].
    destruct (h _ (Unmarshal body) w2) as [[response | e3] w3].
    2:{ cbn [bind run].
        destruct (run_leave h (resp :: deferred) (Ok (elevations, Some e3)) w3)
          as [Hr [_ [_ Hp]]].
        destruct (run h (leave (resp :: deferred) (Ok (elevations, Some e3))) w3)
          as [[tr r] w4].
        unfold result_of, trace_of in *. cbn [fst snd] in *. subst r.
        rewrite parsed_get, parsed_read, parsed_parse_failed, Hp.
        split; [discriminate | intros [j [rs [Hj _]]]; destruct j; discriminate Hj]. }
    cbn [bind run].
    pose proof (storeElevations_None (ElevationApiResults.Results response) 0
                  (rateLimit * Z.of_nat k) elevations ltac:(unfold rateLimit; lia)) as Hnone.
    replace (Z.to_nat (0 + rateLimit * Z.of_nat k)) with (405 * k)%nat in Hnone
      by (unfold rateLimit; lia).
    destruct (storeElevations (ElevationApiResults.Results response) 0
                (rateLimit * Z.of_nat k) elevations) as [el1 |] eqn:Hstore.
    + apply storeElevations_length in Hstore.
      replace (Z.of_nat k + 1) with (Z.of_nat (S k)) by lia.
      specialize (IH (S k) el1 (resp :: deferred) w3 ltac:(congruence) ltac:(lia)).
      destruct (run h (requestLoop n (Z.of_nat (S k)) latLngPairs key el1
                         (resp :: deferred)) w3) as [[tr r] w4].
      unfold result_of, trace_of in *. cbn [fst snd] in *.
      rewrite parsed_get, parsed_read, parsed_parse. rewrite IH. split.
      * intros [j [rs [Hj Hover]]]. exists (S j), rs. split; [exact Hj | lia].
      * intros [[| j] [rs [Hj Hover]]].
        -- exfalso. cbn in Hj. inversion Hj; subst rs.
           assert (Hno : Some el1 = None); [| discriminate Hno].
           apply Hnone. split; [| lia].
           intros Hnil. rewrite Hnil in Hover. cbn [length] in Hover. lia.
        -- exists j, rs. split; [exact Hj | lia].
    + destruct (proj1 Hnone eq_refl) as [Hne Hover].
      destruct (run_leave h (resp :: deferred)
                  (@Panic (list float64 * option error)) w3) as [Hr [_ [_ Hp]]].
      destruct (run h (leave (resp :: deferred) Panic) w3) as [[tr r] w4].
      unfold result_of, trace_of in *. cbn [fst snd] in *. subst r.
      rewrite parsed_get, parsed_read, parsed_parse, Hp.
      split; [| reflexivity]. intros _.
      exists 0%nat, (ElevationApiResults.Results response).
      split; [reflexivity | lia].
Qed.

End Overfull.

(** X10. On a slice of at most 101250 locations [GetAltitude] panics (an
    index out of range in its write of the altitudes) exactly when some
    response holds more results than there are locations from the start of
    its batch on: response [j] (from 0), whose batch starts at location
    405 j, with more than len - 405 j results. Nothing else makes it panic:
    the batches it slices are always in range. *)
Theorem GetAltitude_panics_iff_overfull_response :
  forall (F : Foreign) (W : Type) (h : handler HttpE W) (locations : list Location)
         (key : string) (w : W),
    len locations <= checkedLen ->
    result_of (run h (GetAltitude locations key) w) = Panic <->
    exists (j : nat) rs,
      parsed (trace_of (run h (GetAltitude locations key) w)) !! j = Some rs /\
      (length locations < 405 * j + length rs)%nat.
Proof.
  intros F W h locations key w Hchecked. unfold GetAltitude.
  rewrite (numRequests_exact (len locations)) by (unfold len in *; lia).
  set (N := Z.to_nat ((len locations + 404) / 405)).
  assert (Hvalid : (N = 0 \/ 405 * (0 + N - 1) < length (map latLngPair locations))%nat).
  { pose proof (Z.div_mod (len locations + 404) 405 ltac:(lia)) as Hdm.
    pose proof (Z.mod_pos_bound (len locations + 404) 405 ltac:(lia)) as Hmod.
    unfold N, len in *. rewrite length_map.
    destruct (Z.to_nat ((Z.of_nat (length locations) + 404) / 405)) eqn:HN;
      [left; reflexivity |].
    right. lia. }
  pose proof (requestLoop_panics h key (map latLngPair locations) N 0
                (replicate (length locations) 0%float) [] w
                ltac:(rewrite length_replicate, length_map; reflexivity) Hvalid) as Hp.
  change (Z.of_nat 0) with 0 in Hp. rewrite length_replicate in Hp.
  exact Hp.
Qed.

(** X10 at an input: one location, a response with two results. *)
Lemma GetAltitude_panics_iff_overfull_response_witness :
  len [origin] <= checkedLen /\
  result_of (run generous (@GetAltitude numbered [origin] "key") 0%nat) = Panic.
Proof.
  assert (Hlen : len [origin] <= checkedLen) by (vm_compute; discriminate).
  split; [exact Hlen |].
  apply (GetAltitude_panics_iff_overfull_response numbered nat generous [origin] "key"
           0%nat Hlen).
  eexists 0%nat, _. split; [vm_compute; reflexivity | cbn; lia].
Defined.

(** ** The provider [NewPolygonProvider] builds *)

Lemma filtered_honeycomb `{GeoLibrary} (polygon : list (float64 * float64))
    (center : Location) (radius distance : float64) (elevations : list float64) :
  Forall (fun l => Contains polygon (Lat l, Lon l) = true /\ Accuracy l = Accuracy center)
    (zip_with withAlt
       (filter (fun l => Is_true (Contains polygon (Lat l, Lon l)))
               (generateHoneyComb center radius distance))
       elevations).
Proof.
  apply Forall_lookup_2. intros i l Hl.
  apply lookup_zip_with_Some in Hl. destruct Hl as [l0 [e [-> [Hl0 _]]]].
  apply list_elem_of_lookup_2, list_elem_of_filter in Hl0. destruct Hl0 as [Hin Hl0].
  cbn [withAlt Lat Lon Accuracy]. split.
  - apply Is_true_true. exact Hin.
  - pose proof (generateHoneyComb_levelWith center radius distance) as Hlevel.
    rewrite Forall_forall in Hlevel. exact (proj2 (Hlevel l0 Hl0)).
Qed.

(** The run of [NewPolygonProvider], by that of [GetAltitude]. *)
Lemma run_NewPolygonProvider :
  forall (F : Foreign) (geo : GeoLibrary) (W : Type) (h : handler HttpE W) (w : W)
         (first : Location) (others : list Location) (gmapsKey : string),
    let polygon := map (fun p => (Lat p, Lon p)) (first :: others) in
    let honey :=
      generateHoneyComb {| Lat := Lat first; Lon := Lon first;
                           Alt := 0%float; Accuracy := 0%float |}
                        (1000 * circumRadius (Lat first, Lon first) polygon)%float
                        70%float in
    let final := filter (fun l => Is_true (Contains polygon (Lat l, Lon l))) honey in
    trace_of (run h (NewPolygonProvider (first :: others) gmapsKey) w)
      = trace_of (run h (GetAltitude final gmapsKey) w) /\
    match result_of (run h (NewPolygonProvider (first :: others) gmapsKey) w) with
    | Ok (p, None) =>
        exists elevations,
          result_of (run h (GetAltitude final gmapsKey) w) = Ok (elevations, None) /\
          length elevations = length final /\
          p = {| PolygonProvider.Polygon := Some polygon;
                 PolygonProvider.Locations := zip_with withAlt final elevations;
                 PolygonProvider.currentLocation := -1 |} /\
          Forall (fun l => Contains polygon (Lat l, Lon l) = true /\
                           Accuracy l = 0%float)
                 (PolygonProvider.Locations p)
    | Ok (p, Some err) =>
        p = PolygonProvider.zero /\
        exists elevations,
          result_of (run h (GetAltitude final gmapsKey) w) = Ok (elevations, Some err)
    | Panic => result_of (run h (GetAltitude final gmapsKey) w) = Panic
    end /\
    run h (NewPolygonProvider [] gmapsKey) w = ([], Panic, w).
Proof.
  intros F geo W h w first others gmapsKey polygon honey final.
  split; [| split; [| reflexivity]].
  - unfold NewPolygonProvider.
    change (index (map (fun p => (Lat p, Lon p)) (first :: others)) 0)
      with (Some (Lat first, Lon first)).
    cbn [fst snd]. fold polygon. fold honey. fold final.
    rewrite (run_bind_ret h _ _
               (fun r => match r with
                         | Panic => Panic
                         | Ok (_, Some err) => Ok (PolygonProvider.zero, Some err)
                         | Ok (final, None) =>
                             Ok ({| PolygonProvider.Polygon := Some polygon;
                                    PolygonProvider.Locations := final;
                                    PolygonProvider.currentLocation := -1 |}, None)
                         end))
      by (intros [[? [? |]] |]; reflexivity).
    rewrite <- (SetCorrectAltitudes_trace h final gmapsKey w).
    destruct (run h (SetCorrectAltitudes final gmapsKey) w) as [[tr r] w']. reflexivity.
  - unfold NewPolygonProvider.
    change (index (map (fun p => (Lat p, Lon p)) (first :: others)) 0)
      with (Some (Lat first, Lon first)).
    cbn [fst snd]. fold polygon. fold honey. fold final.
    rewrite (run_bind_ret h _ _
               (fun r => match r with
                         | Panic => Panic
                         | Ok (_, Some err) => Ok (PolygonProvider.zero, Some err)
                         | Ok (final, None) =>
                             Ok ({| PolygonProvider.Polygon := Some polygon;
                                    PolygonProvider.Locations := final;
                                    PolygonProvider.currentLocation := -1 |}, None)
                         end))
      by (intros [[? [? |]] |]; reflexivity).
    pose proof (SetCorrectAltitudes_result h final gmapsKey w) as Hres.
    destruct (run h (GetAltitude final gmapsKey) w) as [[tr0 r0] w0].
    destruct (run h (SetCorrectAltitudes final gmapsKey) w) as [[tr r] w'].
    unfold result_of in *. cbn [fst snd] in *.
    destruct r0 as [[elevations [err |]] |].
    + destruct Hres as [Hlen ->]. split; [reflexivity |]. exists elevations. reflexivity.
    + destruct Hres as [Hlen ->]. exists elevations.
      split; [reflexivity |]. split; [exact Hlen |]. split; [reflexivity |].
      cbn [PolygonProvider.Locations].
      exact (filtered_honeycomb polygon
               {| Lat := Lat first; Lon := Lon first; Alt := 0%float; Accuracy := 0%float |}
               (1000 * circumRadius (Lat first, Lon first) polygon)%float 70%float
               elevations).
    + rewrite Hres. reflexivity.
Qed.

(** X11. What [NewPolygonProvider] returns for a polygon of at least one
    vertex: its calls are those of [GetAltitude] on the honeycomb points
    inside the polygon (the honeycomb of spacing 70 around the first
    vertex, as wide as the farthest vertex); when that succeeds, a provider
    on this polygon with cursor -1 whose locations are exactly these
    points, in order, each with its altitude and all inside the polygon;
    when it fails, the error and the empty provider; and it panics only
    where [GetAltitude] does. Without a vertex it panics before any call. *)
Theorem NewPolygonProvider_result :
  forall (F : Foreign) (geo : GeoLibrary) (W : Type) (h : handler HttpE W) (w : W)
         (first : Location) (others : list Location) (gmapsKey : string),
    let polygon := map (fun p => (Lat p, Lon p)) (first :: others) in
    let honey :=
      generateHoneyComb {| Lat := Lat first; Lon := Lon first;
                           Alt := 0%float; Accuracy := 0%float |}
                        (1000 * circumRadius (Lat first, Lon first) polygon)%float
                        70%float in
    let final := filter (fun l => Is_true (Contains polygon (Lat l, Lon l))) honey in
    trace_of (run h (NewPolygonProvider (first :: others) gmapsKey) w)
      = trace_of (run h (GetAltitude final gmapsKey) w) /\
    match result_of (run h (NewPolygonProvider (first :: others) gmapsKey) w) with
    | Ok (p, None) =>
        exists elevations,
          result_of (run h (GetAltitude final gmapsKey) w) = Ok (elevations, None) /\
          length elevations = length final /\
          p = {| PolygonProvider.Polygon := Some polygon;
                 PolygonProvider.Locations := zip_with withAlt final elevations;
                 PolygonProvider.currentLocation := -1 |} /\
          Forall (fun l => Contains polygon (Lat l, Lon l) = true /\
                           Accuracy l = 0%float)
                 (PolygonProvider.Locations p)
    | Ok (p, Some err) =>
        p = PolygonProvider.zero /\
        exists elevations,
          result_of (run h (GetAltitude final gmapsKey) w) = Ok (elevations, Some err)
    | Panic => result_of (run h (GetAltitude final gmapsKey) w) = Panic
    end /\
    run h (NewPolygonProvider [] gmapsKey) w = ([], Panic, w).
Proof. exact run_NewPolygonProvider. Qed.

(** ** ProvideLocations *)

Section Provide.

Context `{RandSource} {W : Type} (h : handler ProvideE W).

(** [served] against [nextLocations]. *)
Lemma served_nextLocations (n : nat) :
  forall (p : AnyProvider) (g : Rand),
    match @nextLocations _ (carrier p) (methods p) n (provider p) g with
    | Ok ls => served n p g = (ls, true)
    | Panic => snd (served n p g) = false /\ (length (fst (served n p g)) < n)%nat
    end.
Proof.
  induction n as [| n IH]; intros p g; [reflexivity |].
  cbn [nextLocations served]. unfold nextOf.
  destruct (@NextLocation _ (carrier p) (methods p) (provider p) g) as [[[st l] g1] |].
  - specialize (IH {| carrier := carrier p; methods := methods p; provider := st |} g1).
    cbn [carrier methods provider] in IH.
    destruct (@nextLocations _ (carrier p) (methods p) n st g1) as [ls |].
    + rewrite IH. reflexivity.
    + destruct (served n _ g1) as [ls ok]. cbn [fst snd length] in *.
      split; [apply IH | lia].
  - cbn [fst snd length]. split; [reflexivity | lia].
Qed.

(** While no provider arrives, the rounds send what the provider serves,
    and panic where it does. *)
Lemma ProvideLocations_served (n : nat) :
  forall (p : AnyProvider) (g : Rand) (w : W),
    received (trace_of (run h (ProvideLocations n p g) w)) = [] ->
    sent (trace_of (run h (ProvideLocations n p g) w)) = fst (served n p g) /\
    (if snd (served n p g)
     then exists p' g', result_of (run h (ProvideLocations n p g) w) = Ok (p', g')
     else result_of (run h (ProvideLocations n p g) w) = Panic).
Proof.
  induction n as [| n IH]; intros p g w Hrec.
  - split; [reflexivity |]. exists p, g. reflexivity.
  - cbn [ProvideLocations bind trigger run served] in *.
    destruct (h _ PollProviders w) as [[q |] w1]; cbn [bind trigger run] in *.
    + exfalso. destruct (h _ (LogPrintln _) w1) as [[] w2]. cbn [bind run] in Hrec.
      destruct (run h _ w2) as [[tr r] w3]. discriminate Hrec.
    + destruct (nextOf p g) as [[[p1 l] g1] |]; cbn [bind trigger run] in *.
      * destruct (h _ (SendLocation l) w1) as [[] w2].
        specialize (IH p1 g1 w2).
        destruct (run h (ProvideLocations n p1 g1) w2) as [[tr r] w3].
        unfold trace_of, result_of in *. cbn [fst snd] in *.
        change (received tr = []) in Hrec. destruct (IH Hrec) as [Hs Hr].
        destruct (served n p1 g1) as [ls ok]. cbn [fst snd] in *.
        split; [| exact Hr].
        change (sent (Obs PollProviders None :: Obs (SendLocation l) tt :: tr))
          with (l :: sent tr).
        rewrite Hs. reflexivity.
      * split; reflexivity.
Qed.

End Provide.

(** X12. While no new provider arrives, [ProvideLocations] sends the
    locations that successive calls of its provider's [NextLocation]
    return, in order and nothing else: over [n] rounds, all [n] of them
    when the calls succeed; and when a call panics (as on a provider with
    no location) it panics with it, having sent the locations of the calls
    before, fewer than [n]. *)
Theorem ProvideLocations_sends_next_locations :
  forall (rnd : RandSource) (W : Type) (h : handler ProvideE W) (n : nat)
         (p : AnyProvider) (g : Rand) (w : W),
    received (trace_of (run h (ProvideLocations n p g) w)) = [] ->
    match @nextLocations rnd (carrier p) (methods p) n (provider p) g with
    | Ok ls =>
        sent (trace_of (run h (ProvideLocations n p g) w)) = ls /\
        exists p' g', result_of (run h (ProvideLocations n p g) w) = Ok (p', g')
    | Panic =>
        result_of (run h (ProvideLocations n p g) w) = Panic /\
        sent (trace_of (run h (ProvideLocations n p g) w)) = fst (served n p g) /\
        (length (sent (trace_of (run h (ProvideLocations n p g) w))) < n)%nat
    end.
Proof.
  intros rnd W h n p g w Hrec.
  destruct (ProvideLocations_served h n p g w Hrec) as [Hs Hr].
  pose proof (served_nextLocations n p g) as Hn.
  destruct (@nextLocations rnd (carrier p) (methods p) n (provider p) g) as [ls |].
  - rewrite Hn in Hs, Hr. cbn [fst snd] in *. split; [exact Hs | exact Hr].
  - destruct Hn as [Hfalse Hlt]. rewrite Hfalse in Hr.
    split; [exact Hr |]. split; [exact Hs |]. rewrite Hs. exact Hlt.
Qed.

(** X12 at an input: four rounds on the honeycomb of one ring, and one on
    the honeycomb of none. *)
Lemma ProvideLocations_sends_next_locations_witness :
  length (sent (trace_of
                  (run steady
                     (@ProvideLocations counting 4
                        {| carrier := HoneyCombProvider.t;
                           methods := HoneyCombProvider_provider;
                           provider := @NewHoneyCombProvider still origin 200 70 |} 0)
                     0%nat))) = 4%nat /\
  result_of (run steady
               (@ProvideLocations counting 1
                  {| carrier := HoneyCombProvider.t;
                     methods := HoneyCombProvider_provider;
                     provider := @NewHoneyCombProvider still origin 100 70 |} 0)
               0%nat) = Panic.
Proof.
  split.
  - pose proof (ProvideLocations_sends_next_locations counting nat steady 4
                  {| carrier := HoneyCombProvider.t;
                     methods := HoneyCombProvider_provider;
                     provider := @NewHoneyCombProvider still origin 200 70 |} 0 0%nat
                  ltac:(vm_compute; reflexivity)) as Hsent.
    destruct (@nextLocations counting _ _ 4 _ 0) as [ls |] eqn:Hnext in Hsent.
    + destruct Hsent as [-> _].
      vm_compute in Hnext. inversion Hnext. reflexivity.
    + vm_compute in Hnext. discriminate Hnext.
  - exact (proj1 (ProvideLocations_sends_next_locations counting nat steady 1
                    {| carrier := HoneyCombProvider.t;
                       methods := HoneyCombProvider_provider;
                       provider := @NewHoneyCombProvider still origin 100 70 |} 0 0%nat
                    ltac:(vm_compute; reflexivity))).
Defined.

(** ** LoadTrainers *)

Lemma fold_left_snoc {A B} (f : A -> B) (l : list A) :
  forall acc : list B, fold_left (fun acc a => acc ++ [f a]) l acc = acc ++ map f l.
Proof.
  induction l as [| a l IH]; intros acc.
  - cbn. rewrite app_nil_r. reflexivity.
  - cbn [fold_left map]. rewrite IH, <- app_assoc. reflexivity.
Qed.

Lemma LoadTrainers_map `{Foreign} (accounts : list Account.t) (feed : api_Feed)
    (crypto : api_Crypto) (startLocation : Location) :
  LoadTrainers accounts feed crypto startLocation
  = map (fun a => NewTrainerSession (Account.Provider a) (Account.Username a)
                                    (Account.Password a) startLocation feed crypto)
        accounts.
Proof.
  unfold LoadTrainers.
  exact (fold_left_snoc
           (fun a => NewTrainerSession (Account.Provider a) (Account.Username a)
                                       (Account.Password a) startLocation feed crypto)
           accounts []).
Qed.

(** X13. [LoadTrainers] makes one trainer per account, in the order of the
    accounts: trainer [k] holds the provider, the user name and the
    password of account [k], the start location, the feed and the crypto
    handle given, a background context, and a session that is not logged
    in. *)
Theorem LoadTrainers_one_per_account :
  forall (F : Foreign) (accounts : list Account.t) (feed : api_Feed)
         (crypto : api_Crypto) (startLocation : Location),
    length (LoadTrainers accounts feed crypto startLocation) = length accounts /\
    forall (k : nat) (a : Account.t),
      accounts !! k = Some a ->
      exists t,
        LoadTrainers accounts feed crypto startLocation !! k = Some t /\
        TrainerSession.Provider t = Account.Provider a /\
        TrainerSession.Username t = Account.Username a /\
        TrainerSession.Password t = Account.Password a /\
        TrainerSession.Location t = startLocation /\
        TrainerSession.Feed t = feed /\
        TrainerSession.Crypto t = crypto /\
        TrainerSession.Context t = Background /\
        TrainerSession.Session t = emptySession.
Proof.
  intros F accounts feed crypto startLocation. rewrite LoadTrainers_map.
  split; [apply length_map |].
  intros k a Hk. eexists. rewrite list_lookup_fmap, Hk.
  split; [reflexivity |]. repeat split.
Qed.

(** ** Package mapsql: connections and statements *)

Section Sql.

Context `{Foreign} `{sql.Library} {W : Type} (h : handler SqlE W).

(** The run of [ExecuteStatement], by the answers it gets. *)
Lemma run_ExecuteStatement (d : mapsql.DbConnection) (statement : string) (w : W) :
    let source := dataSource d in
    let open := h _ (SqlOpen "mysql" source) w in
    let db := fst (fst open) in
    run h (DbConnection.ExecuteStatement d statement) w =
    match snd (fst open) with
    | Some err => ([Obs (SqlOpen "mysql" source) (db, Some err)],
                   (sql.nilResult, Some err), snd open)
    | None =>
        let exec := h _ (DbExec db statement) (snd open) in
        let close := h _ (DbClose db) (snd exec) in
        ([Obs (SqlOpen "mysql" source) (db, None);
          Obs (DbExec db statement) (fst exec);
          Obs (DbClose db) (fst close)],
         fst exec, snd close)
    end.
Proof.
  unfold DbConnection.ExecuteStatement, openDb. cbv zeta.
  fold (dataSource d). cbn [bind trigger run].
  destruct (h _ (SqlOpen _ _) w) as [[db [err |]] w1]; cbn [fst snd bind run];
    [reflexivity |].
  destruct (h _ (DbExec db statement) w1) as [r w2]. cbn [fst snd bind run].
  destruct (h _ (DbClose db) w2) as [c w3]. reflexivity.
Qed.

(** What a run of [ExecuteStatement] leaves in the trace. *)
Lemma ExecuteStatement_trace (d : mapsql.DbConnection) (statement : string) (w : W) :
  let tr := trace_of (run h (DbConnection.ExecuteStatement d statement) w) in
  let r := result_of (run h (DbConnection.ExecuteStatement d statement) w) in
  released tr = handles tr /\
  clockReads tr = [] /\
  ((handles tr = [] /\ statements tr = [] /\ snd r <> None) \/
   (length (handles tr) = 1%nat /\ statements tr = [(statement, snd r)])).
Proof.
  cbv zeta. rewrite (run_ExecuteStatement d statement w). cbv zeta.
  destruct (h _ (SqlOpen "mysql" (dataSource d)) w) as [[db [err |]] w1]; cbn [fst snd].
  - split; [reflexivity |]. split; [reflexivity |]. left.
    split; [reflexivity |]. split; [reflexivity | discriminate].
  - split; [reflexivity |]. split; [reflexivity |]. right.
    split; reflexivity.
Qed.

End Sql.

(** X14. [AddPokemon] runs at most one statement, the INSERT of the
    sighting, on a connection of its own, which it closes whether or not
    the statement failed: every handle opened is closed; with no connection
    no statement is run and an error is returned; with one, the error
    returned is the statement's. [ExecuteQuery] closes nothing: the
    connection it opens stays open. *)
Theorem mapsql_connections :
  forall (F : Foreign) (L : sql.Library) (W : Type) (h : handler SqlE W)
         (d : mapsql.DbConnection) (w : W),
    (forall (encounterId spawnpointId : string) (pokemonId : Z)
            (latitude longitude : float64) (disappearTime : sql.Time),
        let p := DbConnection.AddPokemon d encounterId spawnpointId pokemonId
                   latitude longitude disappearTime in
        let tr := trace_of (run h p w) in
        released tr = handles tr /\
        ((handles tr = [] /\ statements tr = [] /\ result_of (run h p w) <> None) \/
         (length (handles tr) = 1%nat /\
          exists insert, statements tr = [(insert, result_of (run h p w))]))) /\
    (forall query : string,
        let tr := trace_of (run h (DbConnection.ExecuteQuery d query) w) in
        released tr = [] /\ statements tr = [] /\ (length (handles tr) <= 1)%nat /\
        (handles tr = [] ->
         snd (result_of (run h (DbConnection.ExecuteQuery d query) w)) <> None)).
Proof.
  intros F L W h d w. split.
  - intros encounterId spawnpointId pokemonId latitude longitude disappearTime.
    cbv zeta. unfold DbConnection.AddPokemon.
    set (insert := (_ ++ _)%string).
    rewrite (run_bind_ret h _ _ snd) by reflexivity.
    destruct (ExecuteStatement_trace h d insert w) as [Hrel [_ Hst]].
    destruct (run h (DbConnection.ExecuteStatement d insert) w) as [[tr r] w'].
    unfold trace_of, result_of in *. cbn [fst snd] in *.
    split; [exact Hrel |].
    destruct Hst as [Hnone | [Hone Hst]]; [left; exact Hnone |].
    right. split; [exact Hone |]. exists insert. exact Hst.
  - intros query. cbv zeta. unfold DbConnection.ExecuteQuery, openDb.
    cbn [bind trigger run].
    destruct (h _ (SqlOpen _ _) w) as [[db [err |]] w1]; cbn [fst snd bind trigger run].
    + split; [reflexivity |]. split; [reflexivity |].
      split; [cbn; lia | discriminate].
    + destruct (h _ (DbQuery db query) w1) as [r w2].
      unfold trace_of, result_of. cbn [fst snd].
      split; [reflexivity |]. split; [reflexivity |].
      split; [cbn; lia | discriminate].
Qed.

(** X15. [AddScannedLocation] is an insert-or-update: it reads the clock
    and tries the INSERT of the location; only when that attempt failed
    (no connection, or the statement's error) does it read the clock again
    and try the UPDATE, whose error it then returns. Each attempt opens at
    most one connection, runs one statement on it and closes it, so every
    handle opened is closed and as many statements are run as handles were
    opened; and the call returns no error exactly when the last statement
    run succeeded. *)
Theorem AddScannedLocation_upsert :
  forall (F : Foreign) (L : sql.Library) (W : Type) (h : handler SqlE W)
         (d : mapsql.DbConnection) (latitude longitude : float64) (w : W),
    let p := DbConnection.AddScannedLocation d latitude longitude in
    let tr := trace_of (run h p w) in
    let r := result_of (run h p w) in
    released tr = handles tr /\
    length (statements tr) = length (handles tr) /\
    (r = None <-> exists s, last (statements tr) = Some (s, None)) /\
    exists now1,
      (clockReads tr = [now1] /\
       statements tr = [(DbConnection.insertScanned latitude longitude now1, None)]) \/
      (exists now2 first second,
          clockReads tr = [now1; now2] /\
          statements tr = first ++ second /\
          (first = [] \/
           exists e1,
             first = [(DbConnection.insertScanned latitude longitude now1, Some e1)]) /\
          (second = [] \/
           second = [(DbConnection.updateScanned latitude longitude now2, r)])).
Proof.
  intros F L W h d latitude longitude w. cbv zeta.
  unfold DbConnection.AddScannedLocation. cbn [bind trigger run].
  destruct (h _ TimeNow w) as [now1 w1]. rewrite run_bind, run_ExecuteStatement.
  cbv zeta.
  destruct (h _ (SqlOpen "mysql" (dataSource d)) w1) as [[db1 [err1 |]] w2];
    cbn [fst snd bind trigger run].
  - (* no connection for the INSERT *)
    destruct (h _ TimeNow w2) as [now2 w3].
    rewrite (run_bind_ret h _ _ snd) by reflexivity.
    rewrite run_ExecuteStatement. cbv zeta.
    destruct (h _ (SqlOpen "mysql" (dataSource d)) w3) as [[db2 [err2 |]] w4];
      cbn [fst snd].
    + unfold trace_of, result_of. cbn [fst snd app].
      split; [reflexivity |]. split; [reflexivity |]. split.
      * split; [discriminate | intros [s Hs]; discriminate Hs].
      * exists now1. right. exists now2, [], [].
        split; [reflexivity |]. split; [reflexivity |]. split; left; reflexivity.
    + destruct (h _ (DbExec db2 _) w4) as [[res2 e2] w5]. cbn [fst snd].
      destruct (h _ (DbClose db2) w5) as [c2 w6].
      unfold trace_of, result_of. cbn [fst snd app].
      split; [reflexivity |]. split; [reflexivity |]. split.
      * split.
        -- intros ->. eexists. reflexivity.
        -- intros [s Hs]. cbn in Hs. congruence.
      * exists now1. right. exists now2, [], [(DbConnection.updateScanned latitude longitude now2, e2)].
        split; [reflexivity |]. split; [reflexivity |].
        split; [left; reflexivity | right; reflexivity].
  - destruct (h _ (DbExec db1 _) w2) as [[res1 [e1 |]] w3]; cbn [fst snd].
    + (* the INSERT failed *)
      destruct (h _ (DbClose db1) w3) as [c1 w4]. cbn [fst snd bind trigger run].
      destruct (h _ TimeNow w4) as [now2 w5].
      rewrite (run_bind_ret h _ _ snd) by reflexivity.
      rewrite run_ExecuteStatement. cbv zeta.
      destruct (h _ (SqlOpen "mysql" (dataSource d)) w5) as [[db2 [err2 |]] w6];
        cbn [fst snd].
      * unfold trace_of, result_of. cbn [fst snd app].
        split; [reflexivity |]. split; [reflexivity |]. split.
        -- split; [discriminate | intros [s Hs]; discriminate Hs].
        -- exists now1. right.
           exists now2, [(DbConnection.insertScanned latitude longitude now1, Some e1)], [].
           split; [reflexivity |]. split; [reflexivity |].
           split; [right; exists e1; reflexivity | left; reflexivity].
      * destruct (h _ (DbExec db2 _) w6) as [[res2 e2] w7]. cbn [fst snd].
        destruct (h _ (DbClose db2) w7) as [c2 w8].
        unfold trace_of, result_of. cbn [fst snd app].
        split; [reflexivity |]. split; [reflexivity |]. split.
        -- split.
           ++ intros ->. eexists. reflexivity.
           ++ intros [s Hs]. cbn in Hs. congruence.
        -- exists now1. right.
           exists now2, [(DbConnection.insertScanned latitude longitude now1, Some e1)],
             [(DbConnection.updateScanned latitude longitude now2, e2)].
           split; [reflexivity |]. split; [reflexivity |].
           split; [right; exists e1; reflexivity | right; reflexivity].
    + (* the INSERT succeeded *)
      destruct (h _ (DbClose db1) w3) as [c1 w4]. cbn [fst snd bind trigger run].
      unfold trace_of, result_of. cbn [fst snd app].
      split; [reflexivity |]. split; [reflexivity |]. split.
      * split; [intros _; eexists; reflexivity | reflexivity].
      * exists now1. left. split; reflexivity.
Qed.

(** ** Where [Hunt] moves and what it records *)

Section Tracks.

Context `{Foreign} {W : Type} (h : handler HuntE W).

Lemma tracks_app (a b : list (obs HuntE)) :
  forall here, tracks here a -> tracks (lastReceived here a) b -> tracks here (a ++ b).
Proof.
  induction a as [| [X e x] a IH]; intros here Ha Hb; [exact Hb |].
  destruct e; cbn [app tracks lastReceived] in *;
    try (apply IH; assumption);
    (split; [apply Ha | apply IH; [apply Ha | exact Hb]]).
Qed.

Lemma tracks_everywhere_app (a b : list (obs HuntE)) :
  (forall here, tracks here a) -> (forall here, tracks here b) ->
  forall here, tracks here (a ++ b).
Proof. intros Ha Hb here. apply tracks_app; [apply Ha | apply Hb]. Qed.

Lemma tracks_loginCheck (tr : list (obs HuntE)) :
  Forall (fun o => isLoginCheck o = true) tr -> forall here, tracks here tr.
Proof.
  induction 1 as [| [X e x] tr Ho _ IH]; intros here; [exact I |].
  destruct e; cbn in Ho; try discriminate Ho; cbn [tracks]; apply IH.
Qed.

(** The scan records at the trainer's location. *)
Lemma tracks_scan (db : mapsql.DbConnection) (t : TrainerSession.t) (w : W) :
  tracks (Some (TrainerSession.Location t)) (trace_of (run h (scan db t) w)).
Proof.
  assert (Hat : exists l, Some (TrainerSession.Location t) = Some l /\
                          Lat (TrainerSession.Location t) = Lat l /\
                          Lon (TrainerSession.Location t) = Lon l)
    by (eexists; repeat split).
  rewrite run_scan. cbv zeta. rewrite !run_requestMapObjects. cbv zeta.
  unfold trace_of, result_of, world_of.
  destruct (fst (h _ (GetPlayerMap _ _) w)) as [r1 | e1]; cbn [fst snd].
  - destruct (fst (h _ (AddScannedLocation _ _ _) _)) as [e1 |];
      [| cbn; split; [exact Hat | exact I]].
    destruct (decide (e1 = ErrNewRPCURL)); [| cbn; split; [exact Hat | exact I]].
    destruct (fst (h _ (GetPlayerMap _ _) (snd (h _ Tick _)))) as [r2 | e2]; cbn [fst snd].
    + destruct (fst (h _ (AddScannedLocation _ _ _)
                       (snd (h _ (SendResult r2) _)))); cbn; repeat split; exact Hat.
    + cbn. split; [exact Hat | exact I].
  - destruct (decide (e1 = ErrNewRPCURL)); [| exact I].
    destruct (fst (h _ (GetPlayerMap _ _) (snd (h _ Tick _)))) as [r2 | e2]; cbn [fst snd].
    + destruct (fst (h _ (AddScannedLocation _ _ _)
                       (snd (h _ (SendResult r2) _)))); cbn; repeat split; exact Hat.
    + exact I.
Qed.

Lemma tracks_huntAt (ScanDelay : Z) (db : mapsql.DbConnection) (t : TrainerSession.t)
    (w : W) :
  forall here, tracks here (trace_of (run h (huntAt ScanDelay db t) w)).
Proof.
  intros here. pose proof (run_huntAt h ScanDelay db t w) as Hrun. cbv zeta in Hrun.
  destruct (fst (h _ (RecvLocation _) (snd (h _ Tick w)))) as [l |].
  - destruct Hrun as [Htr _]. rewrite Htr.
    cbn [app tracks]. split; [reflexivity |].
    apply tracks_app; [| exact I].
    exact (tracks_scan db (TrainerSession.setLocation t l) _).
  - rewrite Hrun. exact I.
Qed.

Lemma tracks_huntLoop (n : nat) (ScanDelay : Z) (db : mapsql.DbConnection)
    (t : TrainerSession.t) (w : W) :
  forall here, tracks here (trace_of (run h (huntLoop n ScanDelay db t) w)).
Proof.
  apply (huntLoop_trace_ind h (fun tr => forall here, tracks here tr) ScanDelay db).
  - intros here. exact I.
  - apply tracks_everywhere_app.
  - intros t1 w1. apply tracks_loginCheck, checkLogin_loginCheck.
  - apply tracks_huntAt.
Qed.

End Tracks.

(** X16. [Hunt] scans where it was sent: in every run each move of the
    session goes to the location just received from the locations channel,
    and each scanned location handed to the scan store has the latitude and
    the longitude of the location received last. Nothing is moved or
    recorded before a location is received. *)
Theorem Hunt_scans_at_received_location :
  forall (F : Foreign) (W : Type) (h : handler HuntE W) (n : nat) (ScanDelay : Z)
         (db : mapsql.DbConnection) (t : TrainerSession.t) (w : W),
    tracks None (trace_of (run h (Hunt n ScanDelay db t) w)).
Proof.
  intros F W h n ScanDelay db t w. rewrite run_Hunt. cbv zeta.
  destruct (run_Login h t (snd (h _ Tick w))) as [ltr [out [Hobs [Htr _]]]].
  pose proof (fun t1 w1 => tracks_huntLoop h n ScanDelay db t1 w1 None) as Hloop.
  destruct (run h (Login t) (snd (h _ Tick w))) as [[tr1 r] w1].
  specialize (Hloop (fst r) w1).
  destruct (run h (huntLoop n ScanDelay db (fst r)) w1) as [[tr2 o] w2].
  unfold trace_of in *. cbn [fst snd] in *. subst tr1.
  change (Obs Tick tt :: ltr ++ tr2) with ((Obs (@Tick F) tt :: ltr) ++ tr2).
  apply tracks_app.
  - destruct Hobs; cbn; exact I.
  - destruct Hobs; exact Hloop.
Qed.

(** ** Honeycombs of growing radius *)

Lemma for_steps_add {St} (body : Z -> St -> St) (a b : nat) :
  forall i st,
    for_steps (a + b) i body st = for_steps b (i + Z.of_nat a) body (for_steps a i body st).
Proof.
  induction a as [| a IH]; intros i st.
  - cbn [for_steps Nat.add]. rewrite Z.add_0_r. reflexivity.
  - cbn [for_steps Nat.add]. rewrite IH. f_equal. lia.
Qed.

(** X17. A wider honeycomb extends a narrower one: with the same center
    and spacing, when the ring count of one radius is at most that of
    another, the locations of the first are the first locations of the
    second, in the same order. *)
Theorem generateHoneyComb_prefix :
  forall (geo : GeoLibrary) (center : Location) (r1 r2 distance : float64),
    ringCount r1 distance <= ringCount r2 distance ->
    exists more,
      generateHoneyComb center r2 distance = generateHoneyComb center r1 distance ++ more.
Proof.
  intros geo center r1 r2 distance Hle. unfold generateHoneyComb, for_range.
  set (dx := (sqrt 3 * distance)%float). set (dy := (3 * (distance / 2))%float).
  replace (Z.to_nat (ringCount r2 distance - 1))
    with (Z.to_nat (ringCount r1 distance - 1)
          + (Z.to_nat (ringCount r2 distance - 1) - Z.to_nat (ringCount r1 distance - 1)))%nat
    by lia.
  rewrite for_steps_add.
  destruct (rings_for_steps dx dy
              (Z.to_nat (ringCount r2 distance - 1) - Z.to_nat (ringCount r1 distance - 1))
              (1 + Z.of_nat (Z.to_nat (ringCount r1 distance - 1)))
              (for_steps (Z.to_nat (ringCount r1 distance - 1)) 1 (ringWalk dx dy)
                         (center, [])) ltac:(lia)) as [segs [E _]].
  exists (concat segs). exact E.
Qed.

(** X17 at an input: radius 200 within radius 300, spacing 70. *)
Lemma generateHoneyComb_prefix_witness :
  exists more,
    @generateHoneyComb still origin 300 70 = @generateHoneyComb still origin 200 70 ++ more.
Proof.
  apply (generateHoneyComb_prefix still origin 200 300 70).
  vm_compute. discriminate.
Defined.

(** ** How far [GetAltitude] gets *)

Section Progress.

Context `{Foreign} {W : Type} (h : handler HttpE W).

(** The request loop from round [k] on, [n] rounds: it asks for its first
    batch; it asks for a batch only when the responses to all the batches
    before are parsed; it succeeds only when it asked for all; and an error
    it returns is one that a lookup step returned. *)
Lemma requestLoop_progress (key : string) (latLngPairs : list string) (n : nat) :
  forall (k : nat) elevations deferred w,
    (n = 0 \/ 405 * (k + n - 1) < length latLngPairs)%nat ->
    let tr := trace_of (run h (requestLoop n (Z.of_nat k) latLngPairs key
                                 elevations deferred) w) in
    let r := result_of (run h (requestLoop n (Z.of_nat k) latLngPairs key
                                 elevations deferred) w) in
    (n <> 0%nat -> requested tr <> []) /\
    (length (parsed tr) <= length (requested tr) <= S (length (parsed tr)))%nat /\
    (forall el, r = Ok (el, None) -> length (requested tr) = n) /\
    (forall el err, r = Ok (el, Some err) -> lookupFailed tr err).
Proof.
  induction n as [| n IH]; intros k elevations deferred w Hvalid; cbv zeta.
  - cbn [requestLoop].
    destruct (run_leave h deferred (Ok (elevations, @None error)) w) as [Hr [_ [Hq Hp]]].
    rewrite Hr, Hq, Hp. split; [congruence |]. split; [cbn; lia |].
    split; [reflexivity | discriminate].
  - assert (Hk : (405 * k < length latLngPairs)%nat) by lia.
    cbn [requestLoop]. rewrite (slice_batchAt latLngPairs k Hk).
    set (batch := batchAt latLngPairs k).
    cbn [bind trigger run].
    destruct (h _ (HttpGet (requestURL batch key)) w) as [[resp | e1] w1].
    2:{ cbn [bind run].
        destruct (run_leave h deferred (Ok (elevations, Some e1)) w1) as [Hr [_ [Hq Hp]]].
        destruct (run h (leave deferred (Ok (elevations, Some e1))) w1) as [[tr r] w2].
        unfold result_of, trace_of in *. cbn [fst snd] in *. subst r.
        rewrite requested_get, parsed_get, Hq, Hp.
        split; [discriminate |]. split; [cbn; lia |].
        split; [discriminate |].
        intros el err Herr. inversion Herr; subst. left. reflexivity. }
    cbn [bind run].
    destruct (h _ (ReadAll resp) w1) as [[body | e2] w2].
    2:{ cbn [bind run].
        destruct (run_leave h (resp :: deferred) (Ok (elevations, Some e2)) w2)
          as [Hr [_ [Hq Hp]]].
        destruct (run h (leave (resp :: deferred) (Ok (elevations, Some e2))) w2)
          as [[tr r] w3].
        unfold result_of, trace_of in *. cbn [fst snd] in *. subst r.
        rewrite requested_get, requested_read, parsed_get, parsed_read, Hq, Hp.
        split; [discriminate |]. split; [cbn; lia |].
        split; [discriminate |].
        intros el err Herr. inversion Herr; subst. right. left. reflexivity. }
    cbn [bind run].
    destruct (h _ (Unmarshal body) w2) as [[response | e3] w3].
    2:{ cbn [bind run].
        destruct (run_leave h (resp :: deferred) (Ok (elevations, Some e3)) w3)
          as [Hr [_ [Hq Hp]]].
        destruct (run h (leave (resp :: deferred) (Ok (elevations, Some e3))) w3)
          as [[tr r] w4].
        unfold result_of, trace_of in *. cbn [fst snd] in *. subst r.
        rewrite requested_get, requested_read, requested_parse.
        rewrite parsed_get, parsed_read, parsed_parse_failed, Hq, Hp.
        split; [discriminate |]. split; [cbn; lia |].
        split; [discriminate |].
        intros el err Herr. inversion Herr; subst. right. right. left. reflexivity. }
    cbn [bind run].
    destruct (storeElevations (ElevationApiResults.Results response) 0
                (rateLimit * Z.of_nat k) elevations) as [el1 |].
    + replace (Z.of_nat k + 1) with (Z.of_nat (S k)) by lia.
      specialize (IH (S k) el1 (resp :: deferred) w3 ltac:(lia)). cbv zeta in IH.
      destruct (run h (requestLoop n (Z.of_nat (S k)) latLngPairs key el1
                         (resp :: deferred)) w3) as [[tr r] w4].
      unfold result_of, trace_of in *. cbn [fst snd] in *.
      rewrite requested_get, requested_read, requested_parse.
      rewrite parsed_get, parsed_read, parsed_parse.
      destruct IH as [_ [Hlen [Hall Herr]]].
      split; [discriminate |]. split; [cbn [length]; lia |].
      split.
      * intros el Hel. cbn [length]. rewrite (Hall el Hel). reflexivity.
      * intros el err Hel. right. right. right. exact (Herr el err Hel).
    + destruct (run_leave h (resp :: deferred)
                  (@Panic (list float64 * option error)) w3) as [Hr [_ [Hq Hp]]].
      destruct (run h (leave (resp :: deferred) Panic) w3) as [[tr r] w4].
      unfold result_of, trace_of in *. cbn [fst snd] in *. subst r.
      rewrite requested_get, requested_read, requested_parse.
      rewrite parsed_get, parsed_read, parsed_parse, Hq, Hp.
      split; [discriminate |]. split; [cbn; lia |].
      split; discriminate.
Qed.

End Progress.

(** ** The batches of [GetAltitude] *)

(** C9. For a slice of fewer than 2 ^ 53 locations (where [float64(n)] is
    the length itself and the float ceiling is proved exact; no slice of
    pointers that a Go program can hold comes near that length),
    [GetAltitude] splits the coordinate pairs into ceil(n / 405) batches:
    consecutive runs of at most 405 (and at least one) of the pairs, which
    put end to end are the pairs of all the locations in order. Every run
    asks for these batches in order, starting with the first, each one only
    when the responses to all the batches before are parsed, and stops
    before the last only on a failure: an error it returns is one that a
    lookup step returned, and it panics exactly on a response with more
    results than there are locations from its batch's start on. A run that
    succeeds has asked for all the batches and returns as many altitudes as
    there are locations; and when each response holds one result per pair
    of its batch, the altitudes returned are those results in the order of
    the locations. *)
Theorem C9_altitude_batches :
  forall (F : Foreign) (locations : list Location) (key : string),
    len locations < 2 ^ 53 ->
    numRequests (len locations) = (len locations + 404) / 405 /\
    exists batches : list (list string),
      concat batches = map latLngPair locations /\
      Forall (fun b => (0 < length b <= 405)%nat) batches /\
      len batches = (len locations + 404) / 405 /\
      forall (W : Type) (h : handler HttpE W) (w : W),
        let tr := trace_of (run h (GetAltitude locations key) w) in
        let r := result_of (run h (GetAltitude locations key) w) in
        (exists done rest,
            batches = done ++ rest /\
            requested tr = map (fun b => requestURL b key) done /\
            (batches <> [] -> done <> []) /\
            (length (parsed tr) <= length done <= S (length (parsed tr)))%nat /\
            (rest <> [] -> forall elevations, r <> Ok (elevations, None))) /\
        (forall elevations err, r = Ok (elevations, Some err) -> lookupFailed tr err) /\
        (r = Panic <->
         exists (j : nat) rs,
           parsed tr !! j = Some rs /\ (length locations < 405 * j + length rs)%nat) /\
        forall elevations,
          r = Ok (elevations, None) ->
          requested tr = map (fun b => requestURL b key) batches /\
          length elevations = length locations /\
          (Forall2 (fun b rs => length rs = length b) batches (parsed tr) ->
           elevations = concat (map (map ElevationApiResult.Elevation) (parsed tr))).
Proof.
  intros F locations key Hbound.
  assert (Hnum : numRequests (len locations) = (len locations + 404) / 405)
    by (apply numRequests_ceiling; unfold len in *; lia).
  split; [exact Hnum |].
  set (pairs := map latLngPair locations).
  set (N := Z.to_nat ((len locations + 404) / 405)).
  assert (Hpairs : length pairs = length locations) by (unfold pairs; apply length_map).
  assert (Hdiv : (length pairs <= 405 * N)%nat /\
                 (N = 0 \/ 405 * (0 + N - 1) < length pairs)%nat).
  { pose proof (Z.div_mod (len locations + 404) 405 ltac:(lia)) as Hdm.
    pose proof (Z.mod_pos_bound (len locations + 404) 405 ltac:(lia)) as Hmod.
    unfold N, len in *. rewrite Hpairs. split; [lia |].
    destruct (Z.to_nat ((Z.of_nat (length locations) + 404) / 405)) eqn:HN;
      [left; reflexivity |].
    right. lia. }
  destruct Hdiv as [Hcover Hvalid].
  assert (Hconcat : concat (map (batchAt pairs) (seq 0 N)) = pairs).
  { rewrite concat_batches. replace (405 * 0)%nat with 0%nat by lia.
    rewrite drop_0. apply take_ge. exact Hcover. }
  exists (map (batchAt pairs) (seq 0 N)).
  split; [exact Hconcat |]. split; [| split].
  - apply Forall_map, Forall_seq. intros j Hj. cbn beta.
    rewrite length_batchAt. lia.
  - unfold len. rewrite length_map, length_seq. unfold N.
    pose proof (Z.div_pos (len locations + 404) 405). unfold len in *. lia.
  - intros W h w. cbv zeta. unfold GetAltitude. rewrite Hnum. fold pairs N.
    destruct (requestLoop_batches h key pairs N 0
                (replicate (length locations) 0%float) [] w) as [Hprefix Hsuccess].
    { rewrite length_replicate. symmetry. exact Hpairs. }
    { exact Hvalid. }
    pose proof (requestLoop_progress h key pairs N 0
                  (replicate (length locations) 0%float) [] w Hvalid) as Hprogress.
    pose proof (requestLoop_panics h key pairs N 0
                  (replicate (length locations) 0%float) [] w
                  ltac:(rewrite length_replicate; symmetry; exact Hpairs) Hvalid)
      as Hpanic.
    cbv zeta in Hprogress. change (Z.of_nat 0) with 0 in *.
    rewrite length_replicate in Hpanic.
    destruct Hprogress as [Hfirst [Hstep [Hall Herror]]].
    destruct Hprefix as [done [rest [Hsplit Hq]]].
    assert (Hdone : length (requested
                      (trace_of (run h (requestLoop N 0 pairs key
                                          (replicate (length locations) 0%float) []) w)))
                    = length done) by (rewrite Hq; apply length_map).
    split; [| split; [exact Herror | split; [exact Hpanic |]]].
    + exists done, rest. split; [exact Hsplit |]. split; [exact Hq |].
      split; [| split].
      * intros Hne Hnil. subst done.
        assert (HN : N <> 0%nat) by (intros HN; rewrite HN in Hne; apply Hne; reflexivity).
        apply (Hfirst HN). rewrite Hq. reflexivity.
      * rewrite <- Hdone. exact Hstep.
      * intros Hrest elevations Hok. apply Hrest.
        pose proof (Hall elevations Hok) as Hlen. rewrite Hdone in Hlen.
        pose proof (f_equal length Hsplit) as Hl.
        rewrite length_map, length_seq, length_app in Hl.
        destruct rest; [reflexivity | cbn [length] in Hl; lia].
    + intros elevations Hok. destruct (Hsuccess elevations Hok) as [Hq' [Hlen Hform]].
      split; [exact Hq' |]. rewrite length_replicate in Hlen. split; [exact Hlen |].
      intros HF. specialize (Hform HF). cbv zeta in Hform.
      pose proof (length_concat_results _ _ HF) as Hwritten.
      rewrite Hconcat, Hpairs in Hwritten.
      rewrite Hform. replace (405 * 0)%nat with 0%nat by lia.
      rewrite take_0. cbn [app]. rewrite drop_ge, app_nil_r; [reflexivity |].
      rewrite length_replicate. lia.
Qed.

(** C9 at an input: 406 locations make two batches, of 405 pairs and of
    one; a service that answers each with one result is asked for both, and
    406 altitudes are returned. *)
Lemma C9_witness :
  len (replicate 406 origin) < 2 ^ 53 /\
  @numRequests (len (replicate 406 origin)) = 2 /\
  length (requested
            (trace_of (run flat (@GetAltitude numbered (replicate 406 origin) "key")
                           0%nat))) = 2%nat /\
  exists elevations,
    result_of (run flat (@GetAltitude numbered (replicate 406 origin) "key") 0%nat)
      = Ok (elevations, None) /\
    length elevations = 406%nat.
Proof.
  assert (Hlen : len (replicate 406 origin) < 2 ^ 53) by (vm_compute; reflexivity).
  split; [exact Hlen |].
  split; [exact (proj1 (C9_altitude_batches numbered (replicate 406 origin) "key" Hlen)) |].
  split; [vm_compute; reflexivity |].
  eexists. split; vm_compute; reflexivity.
Defined.

(** ** A batch that the elevation service refuses *)

Section Refused.

Context `{Foreign} {W : Type} (h : handler HttpE W).

Lemma lookupFailed_failures (tr : list (obs HttpE)) (err : error) :
  lookupFailed tr err <-> In err (failures tr).
Proof.
  unfold lookupFailed, failures. induction tr as [| o tr IH]; [reflexivity |].
  cbn [map omap list_omap]. destruct (lookupFailure o) as [e |] eqn:Ho.
  - cbn [In]. rewrite IH. split; (intros [Heq | Hin]; [left; congruence | right; exact Hin]).
  - cbn [In]. rewrite IH. split; [intros [Heq | Hin]; [discriminate | exact Hin] |].
    intros Hin. right. exact Hin.
Qed.

(** An error that the request loop returns is one that a lookup step
    returned. *)
Lemma requestLoop_error_from_step (key : string) (latLngPairs : list string) (n : nat) :
  forall i elevations deferred w el err,
    result_of (run h (requestLoop n i latLngPairs key elevations deferred) w)
      = Ok (el, Some err) ->
    lookupFailed (trace_of (run h (requestLoop n i latLngPairs key elevations deferred) w))
      err.
Proof.
  induction n as [| n IH]; intros i elevations deferred w el err.
  - cbn [requestLoop].
    destruct (run_leave h deferred (Ok (elevations, @None error)) w) as [Hr _].
    rewrite Hr. discriminate.
  - cbn [requestLoop].
    destruct (slice latLngPairs (i * rateLimit) _) as [batch |].
    2:{ destruct (run_leave h deferred (@Panic (list float64 * option error)) w)
          as [Hr _].
        rewrite Hr. discriminate. }
    cbn [bind trigger run].
    destruct (h _ (HttpGet (requestURL batch key)) w) as [[resp | e1] w1].
    2:{ cbn [bind run].
        destruct (run_leave h deferred (Ok (elevations, Some e1)) w1) as [Hr _].
        destruct (run h (leave deferred (Ok (elevations, Some e1))) w1) as [[tr r] w2].
        unfold result_of, trace_of in *. cbn [fst snd] in *. subst r.
        intros Herr. inversion Herr; subst. left. reflexivity. }
    cbn [bind run].
    destruct (h _ (ReadAll resp) w1) as [[body | e2] w2].
    2:{ cbn [bind run].
        destruct (run_leave h (resp :: deferred) (Ok (elevations, Some e2)) w2) as [Hr _].
        destruct (run h (leave (resp :: deferred) (Ok (elevations, Some e2))) w2)
          as [[tr r] w3].
        unfold result_of, trace_of in *. cbn [fst snd] in *. subst r.
        intros Herr. inversion Herr; subst. right. left. reflexivity. }
    cbn [bind run].
    destruct (h _ (Unmarshal body) w2) as [[response | e3] w3].
    2:{ cbn [bind run].
        destruct (run_leave h (resp :: deferred) (Ok (elevations, Some e3)) w3) as [Hr _].
        destruct (run h (leave (resp :: deferred) (Ok (elevations, Some e3))) w3)
          as [[tr r] w4].
        unfold result_of, trace_of in *. cbn [fst snd] in *. subst r.
        intros Herr. inversion Herr; subst. right. right. left. reflexivity. }
    cbn [bind run].
    destruct (storeElevations _ 0 (rateLimit * i) elevations) as [el1 |].
    + specialize (IH (i + 1) el1 (resp :: deferred) w3 el err).
      destruct (run h (requestLoop n (i + 1) latLngPairs key el1 (resp :: deferred)) w3)
        as [[tr r] w4].
      unfold result_of, trace_of in *. cbn [fst snd] in *.
      intros Herr. right. right. right. exact (IH Herr).
    + destruct (run_leave h (resp :: deferred)
                  (@Panic (list float64 * option error)) w3) as [Hr _].
      destruct (run h (leave (resp :: deferred) Panic) w3) as [[tr r] w4].
      unfold result_of, trace_of in *. cbn [fst snd] in *. subst r. discriminate.
Qed.

(** [GetAltitude] returns an error exactly when a lookup step returned
    it. *)
Lemma GetAltitude_error_iff (locations : list Location) (key : string) (w : W)
    (err : error) :
  lookupFailed (trace_of (run h (GetAltitude locations key) w)) err <->
  exists el, result_of (run h (GetAltitude locations key) w) = Ok (el, Some err).
Proof.
  unfold GetAltitude. split.
  - apply requestLoop_failed.
  - intros [el Hel]. exact (requestLoop_error_from_step _ _ _ _ _ _ _ _ _ Hel).
Qed.

End Refused.

(** C6. What [NewPolygonProvider] makes of the elevation lookups. When a
    lookup step (the request, the reading of the body or its parsing)
    returns an error, the call returns that error with the empty provider
    [PolygonProvider{}]. But nothing else counts as a failure: the status
    of a response and the number of its results are never read. So when no
    step returns an error, whatever the responses hold, the call does not
    fail: short of a panic it returns a provider on the polygon with every
    filtered location, each with the altitude left in its place, which is 0
    where a response held no result for it. *)
Theorem C6_refused_batch_exposes_partial_provider :
  forall (F : Foreign) (geo : GeoLibrary) (W : Type) (h : handler HttpE W) (w : W)
         (first : Location) (others : list Location) (gmapsKey : string),
    let polygon := map (fun p => (Lat p, Lon p)) (first :: others) in
    let honey :=
      generateHoneyComb {| Lat := Lat first; Lon := Lon first;
                           Alt := 0%float; Accuracy := 0%float |}
                        (1000 * circumRadius (Lat first, Lon first) polygon)%float
                        70%float in
    let final := filter (fun l => Is_true (Contains polygon (Lat l, Lon l))) honey in
    let tr := trace_of (run h (NewPolygonProvider (first :: others) gmapsKey) w) in
    let r := result_of (run h (NewPolygonProvider (first :: others) gmapsKey) w) in
    (forall err, lookupFailed tr err -> r = Ok (PolygonProvider.zero, Some err)) /\
    (failures tr = [] ->
     r = Panic \/
     exists elevations,
       length elevations = length final /\
       r = Ok ({| PolygonProvider.Polygon := Some polygon;
                  PolygonProvider.Locations := zip_with withAlt final elevations;
                  PolygonProvider.currentLocation := -1 |}, None)).
Proof.
  intros F geo W h w first others gmapsKey polygon honey final. cbv zeta.
  destruct (run_NewPolygonProvider F geo W h w first others gmapsKey)
    as [Htr [Hres _]].
  fold polygon honey final in Htr, Hres. rewrite Htr.
  pose proof (GetAltitude_error_iff h final gmapsKey w) as Herr.
  destruct (result_of (run h (NewPolygonProvider (first :: others) gmapsKey) w))
    as [[p [e |]] |].
  - destruct Hres as [-> [el Hel]]. split.
    + intros err Hf. apply Herr in Hf. destruct Hf as [el' Hel'].
      rewrite Hel in Hel'. inversion Hel'; subst. reflexivity.
    + intros Hnone. exfalso.
      assert (Hf : lookupFailed (trace_of (run h (GetAltitude final gmapsKey) w)) e)
        by (apply Herr; exists el; exact Hel).
      apply lookupFailed_failures in Hf. rewrite Hnone in Hf. exact Hf.
  - destruct Hres as [el [Hel [Hlen [-> _]]]]. split.
    + intros err Hf. apply Herr in Hf. destruct Hf as [el' Hel'].
      rewrite Hel in Hel'. discriminate Hel'.
    + intros _. right. exists el. split; [exact Hlen | reflexivity].
  - split.
    + intros err Hf. apply Herr in Hf. destruct Hf as [el' Hel'].
      rewrite Hres in Hel'. discriminate Hel'.
    + intros _. left. reflexivity.
Qed.

(** C6 at an input: the honeycomb of the polygon has 468 points; the
    service answers the first batch, of 405, in full and refuses the second,
    of 63, with status OVER_QUERY_LIMIT and no result. No step returns an
    error, and the provider is handed out with all 468 locations, 405 at
    altitude 7 and 63 at altitude 0. *)
Lemma C6_witness :
  let run := run refusing (@NewPolygonProvider numbered wide [origin] "key") 0%nat in
  failures (trace_of run) = [] /\
  statuses (trace_of run) = ["OK"; "OVER_QUERY_LIMIT"]%string /\
  map length (parsed (trace_of run)) = [405; 0]%nat /\
  (result_of run = Panic \/
   exists elevations,
     length elevations
     = length (filter (fun l => Is_true (@Contains wide [(0, 0)%float] (Lat l, Lon l)))
                      (@generateHoneyComb wide origin
                         (1000 * @circumRadius wide (0, 0)%float [(0, 0)%float])%float
                         70%float)) /\
     result_of run
     = Ok ({| PolygonProvider.Polygon := Some [(0, 0)%float];
              PolygonProvider.Locations :=
                zip_with withAlt
                  (filter (fun l => Is_true (@Contains wide [(0, 0)%float] (Lat l, Lon l)))
                          (@generateHoneyComb wide origin
                             (1000 * @circumRadius wide (0, 0)%float [(0, 0)%float])%float
                             70%float))
                  elevations;
              PolygonProvider.currentLocation := -1 |}, None)) /\
  match result_of run with
  | Ok (p, None) =>
      length (PolygonProvider.Locations p) = 468%nat /\
      map Alt (PolygonProvider.Locations p)
      = (replicate 405 7 ++ replicate 63 0)%float
  | _ => False
  end.
Proof.
  cbv zeta.
  assert (Hnone : failures (trace_of (run refusing
                                        (@NewPolygonProvider numbered wide [origin] "key")
                                        0%nat)) = [])
    by (vm_compute; reflexivity).
  split; [exact Hnone |].
  split; [vm_compute; reflexivity |].
  split; [vm_compute; reflexivity |].
  split.
  - exact (proj2 (C6_refused_batch_exposes_partial_provider numbered wide nat refusing
                    0%nat origin [] "key") Hnone).
  - vm_compute. split; reflexivity.
Defined.
